(** * UniFinEval: evaluation orchestration, answer extraction and result merging

    A shallow embedding of the Python package [evaluate_py] and the properties
    of its scheduler, answer extractor, conversation builder, result store and
    statistics aggregator.

    Conventions of the embedding.
    - A Python [str] is a Rocq [string]; one character of the [string] stands
      for one code point of the Python string.
    - A Python [dict] is an association list in insertion order, a [list] is a
      list, [None] is [VNone]; a [dict] used as [Dict[str, Any]] holds [value]s.
    - A Python [float] that only carries a duration is a rational number.
    - An exception is a [None] result (or an [Error] of the local monad). *)

From Stdlib Require Import ZArith QArith Bool Ascii String List Lia.
From stdpp Require Import base option list strings gmap.

Import ListNotations.
Open Scope string_scope.
Open Scope Z_scope.

#[local] Arguments String.append !_ _ / : simpl nomatch.

(** ** Python values and string primitives *)

Module Py.

(** [Any]: what [json.load] yields and what the records hold. *)
#[warnings="-register-all"]
Inductive value :=
| VNone
| VBool (b : bool)
| VInt (z : Z)
| VFloat (q : Q)
| VStr (s : string)
| VList (l : list value)
| VDict (d : list (string * value)).

Abbreviation dict := (list (string * value)).

(** [d.get(k)], [None] when the key is absent. *)
Fixpoint dict_get (d : dict) (k : string) : option value :=
  match d with
  | [] => None
  | (k', v) :: d' => if String.eqb k k' then Some v else dict_get d' k
  end.

(** [d.get(k, default)]. *)
Definition get_default (d : dict) (k : string) (default : value) : value :=
  match dict_get d k with Some v => v | None => default end.

(** [k in d]. *)
Definition has_key (d : dict) (k : string) : bool :=
  match dict_get d k with Some _ => true | None => false end.

(** [d[k] = v]: an existing key keeps its position, a new key goes last. *)
Fixpoint dict_set (d : dict) (k : string) (v : value) : dict :=
  match d with
  | [] => [(k, v)]
  | (k', v') :: d' =>
      if String.eqb k k' then (k, v) :: d' else (k', v') :: dict_set d' k v
  end.

(** Truth value of an object, as [if x:] and [not x] take it. *)
Definition truthy (v : value) : bool :=
  match v with
  | VNone => false
  | VBool b => b
  | VInt z => negb (z =? 0)
  | VFloat q => negb (Qeq_bool q 0)
  | VStr s => negb (String.eqb s "")
  | VList l => match l with [] => false | _ => true end
  | VDict d => match d with [] => false | _ => true end
  end.

(** [str.isspace] on one character, for the code points below 256; the same
    class is what [\s] matches in a [str] pattern. *)
Definition isspace (c : ascii) : bool :=
  let n := nat_of_ascii c in
  ((9 <=? n) && (n <=? 13) || (28 <=? n) && (n <=? 32)
   || (n =? 133) || (n =? 160))%nat.

Fixpoint lstrip (s : string) : string :=
  match s with
  | String c s' => if isspace c then lstrip s' else s
  | EmptyString => EmptyString
  end.

Fixpoint rstrip (s : string) : string :=
  match s with
  | String c s' =>
      match rstrip s' with
      | EmptyString => if isspace c then EmptyString else String c EmptyString
      | r => String c r
      end
  | EmptyString => EmptyString
  end.

(** [s.strip()]. *)
Definition strip (s : string) : string := rstrip (lstrip s).

(** [s[n:]]. *)
Fixpoint skip (n : nat) (s : string) : string :=
  match n, s with
  | O, _ => s
  | S n', String _ s' => skip n' s'
  | S _, EmptyString => EmptyString
  end.

(** [s[:n]]. *)
Fixpoint take (n : nat) (s : string) : string :=
  match n, s with
  | O, _ => EmptyString
  | S n', String c s' => String c (take n' s')
  | S _, EmptyString => EmptyString
  end.

(** [s[a:b]] for [0 <= a], [0 <= b]. *)
Definition slice (a b : nat) (s : string) : string := take (b - a) (skip a s).

(** [s[-k:]] for [k > 0]: the last [k] characters, all of [s] when it is shorter. *)
Definition last_chars (k : nat) (s : string) : string :=
  skip (String.length s - k) s.

(** [s.startswith(p)]. *)
Definition startswith (p s : string) : bool := String.prefix p s.

(** [text.find(sub, pos)] on the suffix [s = text[i:]]: the lowest index
    [>= pos] at which [sub] occurs, [None] for Python's [-1]. *)
Fixpoint find_at (sub s : string) (i pos : nat) : option nat :=
  if (pos <=? i)%nat && startswith sub s then Some i
  else match s with
       | EmptyString => None
       | String _ s' => find_at sub s' (S i) pos
       end.

Definition find (sub text : string) (pos : nat) : option nat :=
  find_at sub text 0 pos.

(** [text.rfind(sub)] for a one-character [sub]. *)
Fixpoint rfind_char_at (c : ascii) (s : string) (i : nat) : option nat :=
  match s with
  | EmptyString => None
  | String c' s' =>
      match rfind_char_at c s' (S i) with
      | Some j => Some j
      | None => if Ascii.eqb c c' then Some i else None
      end
  end.

Definition rfind_char (c : ascii) (text : string) : option nat :=
  rfind_char_at c text 0.

(** [if x:] for an [Optional[str]]: neither [None] nor empty. *)
Definition if_text (x : option string) : option string :=
  match x with
  | Some s => if String.eqb s "" then None else Some s
  | None => None
  end.

End Py.

(** ** model_api.py: the answer extractor *)

Module Extractor.
Import Py.

(** The marker [\boxed{] (the Python literal ['\\boxed{']). *)
Definition marker : string := "\boxed{".

(** The [for i in range(brace_start, len(text))] loop of
    [extract_boxed_content] over [s = text[i:]]: the index of the brace that
    closes the marker, [None] for [end_idx == -1]. *)
Fixpoint match_close (s : string) (i depth : nat) : option nat :=
  match s with
  | EmptyString => None
  | String c s' =>
      if Ascii.eqb c "{" then match_close s' (S i) (S depth)
      else if Ascii.eqb c "}" then
        match depth with
        | O => Some i
        | S d => match_close s' (S i) d
        end
      else match_close s' (S i) depth
  end.

(** The [while True] loop of [extract_boxed_content]. Every turn moves [pos]
    forward, so [fuel] bounds the number of turns; [None] is fuel running out
    (see [boxed_loop_total]). *)
Fixpoint boxed_loop (fuel : nat) (text : string) (pos : nat)
  (all_matches : list string) : option (list string) :=
  match fuel with
  | O => None
  | S fuel' =>
      match find marker text pos with
      | None => Some all_matches
      | Some start_idx =>
          let brace_start := (start_idx + String.length marker)%nat in
          match match_close (skip brace_start text) brace_start 0 with
          | Some end_idx =>
              let content := strip (slice brace_start end_idx text) in
              let all_matches' :=
                if String.eqb content "" then all_matches
                else (all_matches ++ [content])%list in
              boxed_loop fuel' text (S end_idx) all_matches'
          | None => boxed_loop fuel' text brace_start all_matches
          end
      end
  end.

Definition all_boxed (text : string) : option (list string) :=
  boxed_loop (S (String.length text)) text 0 [].

(** [extract_boxed_content]: [all_matches[-1] if all_matches else None]. *)
Definition extract_boxed_content (text : string) : option string :=
  match all_boxed text with
  | Some all_matches => last all_matches
  | None => None
  end.

(** [estimate_text_tokens]. *)
Definition estimate_text_tokens (text : string) : nat :=
  match text with
  | EmptyString => 0
  | _ => String.length text / 4 + 1
  end%nat.

(** [int(len(truncated) * 0.9)]. The double nearest to 0.9 exceeds 0.9 by
    less than a quarter of an ulp, so for every length a string can have the
    product rounds to a double whose integer part is [9 * len / 10]. *)
Definition nine_tenths (len : nat) : nat := (9 * len / 10)%nat.

(** The [while] loop of [truncate_last_n_tokens]; [None] is fuel running out. *)
Fixpoint shrink_loop (fuel : nat) (n_tokens : Z) (truncated : string)
  : option string :=
  if (Z.of_nat (estimate_text_tokens truncated) >? n_tokens)
     && (0 <? String.length truncated)%nat
  then match fuel with
       | O => None
       | S fuel' =>
           shrink_loop fuel' n_tokens
             (skip (nine_tenths (String.length truncated)) truncated)
       end
  else Some truncated.

(** [text[-target_chars:]] for any integer [target_chars]. *)
Definition tail_slice (target_chars : Z) (text : string) : string :=
  if 0 <? target_chars then last_chars (Z.to_nat target_chars) text
  else skip (Z.to_nat (- target_chars)) text.

(** [truncate_last_n_tokens]; [None] when the loop does not end, which
    happens for [n_tokens <= 0] only. *)
Definition truncate_last_n_tokens (text : string) (n_tokens : Z) : option string :=
  match text with
  | EmptyString => Some EmptyString
  | _ =>
      let total_tokens := estimate_text_tokens text in
      if Z.of_nat total_tokens <=? n_tokens then Some text
      else
        let target_chars := n_tokens * 4 in
        let truncated := tail_slice target_chars text in
        shrink_loop (String.length text) n_tokens truncated
  end.

(** *** The pattern of [extract_json_from_text]

    [re.search(r"```json\s*(\{.*?\})\s*```|(\{.*\})", text, re.DOTALL)] tries
    the start positions from left to right and, at each, the fenced
    alternative before the bare one. A fence starts with a backquote and a
    bare object with a brace, and neither is a space, so at most one
    alternative applies at a position and [\s*] takes the whole run of
    spaces. *)

Definition fence_open : string := "```json".
Definition fence_close : string := "```".

(** [.*?\}\s*```] from [s], where [acc] holds what [.*?] has taken so far
    (in reverse): the shortest continuation wins. *)
Fixpoint lazy_close (s : string) (acc : list ascii) : option string :=
  match s with
  | EmptyString => None
  | String c s' =>
      if Ascii.eqb c "}" && startswith fence_close (lstrip s')
      then Some (string_of_list_ascii (rev (c :: acc)))
      else lazy_close s' (c :: acc)
  end.

(** The fenced alternative at the start of [s]; the result is group 1. *)
Definition match_fenced (s : string) : option string :=
  if startswith fence_open s then
    match lstrip (skip (String.length fence_open) s) with
    | String c s' =>
        if Ascii.eqb c "{" then lazy_close s' [c] else None
    | EmptyString => None
    end
  else None.

(** The bare alternative at the start of [s]; the greedy [.*] runs to the
    last closing brace. The result is group 2. *)
Definition match_bare (s : string) : option string :=
  match s with
  | String c s' =>
      if Ascii.eqb c "{" then
        match rfind_char "}" s' with
        | Some j => Some (take (S (S j)) s)
        | None => None
        end
      else None
  | EmptyString => None
  end.

(** [match.group(1) or match.group(2)] of the leftmost match. *)
Fixpoint re_search (s : string) : option string :=
  match match_fenced s with
  | Some g => Some g
  | None =>
      match match_bare s with
      | Some g => Some g
      | None =>
          match s with
          | EmptyString => None
          | String _ s' => re_search s'
          end
      end
  end.

Section WithJson.

(** [json.loads] from the standard library, [None] when it raises. Every
    argument it gets here starts with an opening brace, so a value it
    returns is an object. *)
Variable json_loads : string -> option dict.

(** [extract_json_from_text]; the empty dict is the "not found" result. *)
Definition extract_json_from_text (text : string) : dict :=
  let text := strip text in
  let first :=
    match re_search text with
    | Some json_str => json_loads json_str
    | None => None
    end in
  match first with
  | Some d => d
  | None =>
      match find "{" text 0, rfind_char "}" text with
      | Some start, Some end_ =>
          match json_loads (slice start (S end_) text) with
          | Some d => d
          | None => []
          end
      | _, _ => []
      end
  end.

(** [extract_answer_from_response]: [(extracted_answer, is_from_box,
    original_response)]. [None] is the [AttributeError] raised when the
    [answer] field of an embedded object is a non-empty value that is not a
    string, or a loop that does not end. *)
Definition extract_answer_from_response (response : string)
  : option (string * bool * string) :=
  let original_response := strip response in
  let response := original_response in
  let fallback :=
    match truncate_last_n_tokens original_response 100 with
    | Some truncated_content =>
        if negb (String.eqb truncated_content "")
           && negb (String.eqb (strip truncated_content) "")
        then Some (truncated_content, false, original_response)
        else Some (original_response, false, original_response)
    | None => None
    end in
  match if_text (extract_boxed_content response) with
  | Some boxed_content => Some (boxed_content, true, original_response)
  | None =>
      let result_json := extract_json_from_text response in
      match result_json with
      | [] => fallback
      | _ =>
          let answer_wrapped := get_default result_json "answer" (VStr "") in
          if truthy answer_wrapped then
            match answer_wrapped with
            | VStr answer_wrapped =>
                match if_text (extract_boxed_content answer_wrapped) with
                | Some answer_from_json_box =>
                    Some (answer_from_json_box, true, original_response)
                | None =>
                    let answer_cleaned := strip answer_wrapped in
                    if negb (String.eqb answer_cleaned "")
                    then Some (answer_cleaned, false, original_response)
                    else fallback
                end
            | _ => None
            end
          else fallback
      end
  end.

End WithJson.

End Extractor.

(** ** result_utils.py: when an answer counts as empty *)

Module ResultUtils.
Import Py.

(** [_check_answer_empty]. *)
Definition _check_answer_empty (answer_value : value) : bool :=
  match answer_value with
  | VNone => true
  | VDict [] => true
  | VDict d =>
      existsb (fun '(_, round_answer) =>
                 negb (truthy round_answer)
                 || match round_answer with
                    | VStr s => String.eqb (strip s) ""
                    | _ => false
                    end) d
  | VStr s => String.eqb (strip s) ""
  | _ => false
  end.

(** [["model"] + [f"model{i}" for i in range(1, 6)]]. *)
Definition possible_keys : list string :=
  ["model"; "model1"; "model2"; "model3"; "model4"; "model5"].

(** [v == name] for a looked-up field [v] and a string [name]. *)
Definition is_name (v : option value) (name : string) : bool :=
  match v with
  | Some (VStr s) => String.eqb s name
  | _ => false
  end.

(** The [for key in possible_keys] loop of [is_answer_empty]. *)
Fixpoint scan_keys (module2_item : dict) (model_key model_name : option string)
  (keys : list string) : bool :=
  match keys with
  | [] => true
  | key :: keys' =>
      if match if_text model_key with
         | Some k => String.eqb key k
         | None => false
         end
      then scan_keys module2_item model_key model_name keys'
      else
        match get_default module2_item key (VDict []) with
        | VDict model_data =>
            let answer_value := get_default model_data "answer" (VStr "") in
            match if_text model_name with
            | Some name =>
                if is_name (dict_get model_data "model_name") name
                then _check_answer_empty answer_value
                else scan_keys module2_item model_key model_name keys'
            | None =>
                if negb (_check_answer_empty answer_value) then false
                else scan_keys module2_item model_key model_name keys'
            end
        | _ => scan_keys module2_item model_key model_name keys'
        end
  end.

(** [is_answer_empty(module2_item, model_key, model_name)]. *)
Definition is_answer_empty (module2_item : dict)
  (model_key model_name : option string) : bool :=
  let found_at_key :=
    match if_text model_key with
    | Some k =>
        match get_default module2_item k (VDict []) with
        | VDict model_data =>
            if match if_text model_name with
               | Some name => negb (is_name (dict_get model_data "model_name") name)
               | None => false
               end
            then false
            else negb (_check_answer_empty
                         (get_default model_data "answer" (VStr "")))
        | _ => false
        end
    | None => false
    end in
  if found_at_key then false
  else scan_keys module2_item model_key model_name possible_keys.

End ResultUtils.

(** ** statistics.py: accuracy breakdowns *)

Module Statistics.
Import Py ResultUtils.

Record counts := { total_count : nat; correct_count : nat }.

(** [correct / total if total > 0 else 0.0]. *)
Definition accuracy (c : counts) : Q :=
  match total_count c with
  | O => 0%Q
  | S _ => (Z.of_nat (correct_count c) # Pos.of_nat (total_count c))%Q
  end.

Definition add_counts (a b : nat * nat) : nat * nat :=
  ((fst a + fst b)%nat, (snd a + snd b)%nat).

Definition mk_counts (p : nat * nat) : counts :=
  {| total_count := fst p; correct_count := snd p |}.

(** [x > 0] for a JSON number; [None] is the [TypeError] of any other value. *)
Definition gt_zero (x : value) : option bool :=
  match x with
  | VInt z => Some (0 <? z)
  | VFloat q => Some (negb (Qle_bool q 0))
  | VBool b => Some b
  | _ => None
  end.

(** [x not in ("", None, {})] for [x = entry.get(k)]. *)
Definition not_blank (x : option value) : bool :=
  match x with
  | None | Some VNone | Some (VStr "") | Some (VDict []) => false
  | Some _ => true
  end.

(** A field that holds an identifier, a profile name or a tag: [Some ""]
    for an absent or false value, [Some s] for a string. [None] stands for
    any other value; such records are outside this model. *)
Definition text_field (item : dict) (k : string) : option string :=
  match dict_get item k with
  | None => Some ""
  | Some (VStr s) => Some s
  | Some v => if truthy v then None else Some ""
  end.

(** Insert [x] unless present: [set.add]. *)
Definition set_add (x : string) (s : list string) : list string :=
  if existsb (String.eqb x) s then s else (s ++ [x])%list.

(** [d[k] = v] on a dict keyed by strings, insertion order kept. *)
Fixpoint assoc_set {A} (d : list (string * A)) (k : string) (v : A)
  : list (string * A) :=
  match d with
  | [] => [(k, v)]
  | (k', v') :: d' =>
      if String.eqb k k' then (k, v) :: d' else (k', v') :: assoc_set d' k v
  end.

Fixpoint assoc_get {A} (d : list (string * A)) (k : string) : option A :=
  match d with
  | [] => None
  | (k', v) :: d' => if String.eqb k k' then Some v else assoc_get d' k
  end.

Section Output.

(** [EVAL_CONFIG["multi_round_count_by_rounds"]] and the [enabled_models]
    argument of [calculate_output_statistics]. *)
Variable count_by_rounds : bool.
Variable enabled_models : list string.

(** [_model_entry_is_valid]. *)
Definition _model_entry_is_valid (entry : value) : option bool :=
  match entry with
  | VDict e =>
      positive ← gt_zero (get_default e "response_time" (VInt 0));
      Some (positive || not_blank (dict_get e "answer")
            || not_blank (dict_get e "process"))
  | _ => Some false
  end.

(** One probe of [_find_model_entry]: the entry under [model_key] when it is
    valid and carries [model_name]. *)
Definition probe_key (item : dict) (model_name model_key : string)
  : option (option (string * dict)) :=
  match dict_get item model_key with
  | Some entry =>
      valid ← _model_entry_is_valid entry;
      match entry with
      | VDict e =>
          if valid && is_name (dict_get e "model_name") model_name
          then Some (Some (model_key, e)) else Some None
      | _ => Some None
      end
  | None => Some None
  end.

Fixpoint probe_keys (item : dict) (model_name : string) (keys : list string)
  : option (option (string * dict)) :=
  match keys with
  | [] => Some None
  | k :: keys' =>
      r ← probe_key item model_name k;
      match r with
      | Some hit => Some (Some hit)
      | None => probe_keys item model_name keys'
      end
  end.

(** [_find_model_entry]: [Some None] is [(None, None)]. *)
Definition _find_model_entry (item : dict) (model_name : string)
  : option (option (string * dict)) :=
  probe_keys item model_name possible_keys.

(** Emptiness of one round's answer inside [_count_item]. *)
Definition is_round_empty (round_answer : value) : bool :=
  match round_answer with
  | VNone => true
  | VStr s => String.eqb (strip s) ""
  | VDict [] => true
  | _ => false
  end.

(** The per-round loop of [_count_item]. *)
Fixpoint count_rounds (answer_value : dict) (match_gt : dict) : nat * nat :=
  match match_gt with
  | [] => (O, O)
  | (round_key, round_correct) :: rest =>
      let round_answer := get_default answer_value round_key (VStr "") in
      let here :=
        if is_round_empty round_answer then (O, O)
        else (1%nat, if truthy round_correct then 1%nat else O) in
      add_counts here (count_rounds answer_value rest)
  end.

(** [has_any_answer] of [_count_item]. *)
Definition has_any_answer (answer_value : dict) : bool :=
  existsb (fun '(_, round_answer) =>
             match round_answer with
             | VNone => false
             | VStr s => negb (String.eqb (strip s) "")
             | _ => true
             end) answer_value.

(** [all(match_gt.values()) if match_gt else False]. *)
Definition all_rounds (match_gt : dict) : bool :=
  match match_gt with
  | [] => false
  | _ => forallb (fun '(_, v) => truthy v) match_gt
  end.

(** [_count_item]: [(count, correct_count)]. *)
Definition _count_item (item : dict) (model_key : string) (entry : dict)
  (model_name : string) : nat * nat :=
  let named_and_empty :=
    negb (String.eqb model_name "")
    && is_answer_empty item (Some model_key) (Some model_name) in
  match get_default entry "match_gt" (VBool false) with
  | VDict match_gt =>
      let answer_value := get_default entry "answer" (VDict []) in
      if count_by_rounds then
        match answer_value with
        | VDict answers => count_rounds answers match_gt
        | _ => (O, O)
        end
      else
        let skip_it :=
          match answer_value with
          | VDict answers => negb (has_any_answer answers)
          | _ => named_and_empty
          end in
        if skip_it then (O, O)
        else (1%nat, if all_rounds match_gt then 1%nat else O)
  | match_gt =>
      if named_and_empty then (O, O)
      else (1%nat, if truthy match_gt then 1%nat else O)
  end.

(** The loop over [enabled_models] that decides [has_valid_answer]. *)
Fixpoint has_valid_answer_in (item : dict) (models : list string) : option bool :=
  match models with
  | [] => Some false
  | model_name :: models' =>
      r ← _find_model_entry item model_name;
      match r with
      | None => has_valid_answer_in item models'
      | Some (model_key, _) =>
          if negb (is_answer_empty item (Some model_key) (Some model_name))
          then Some true
          else has_valid_answer_in item models'
      end
  end.

Definition has_valid_answer (item : dict) : option bool :=
  has_valid_answer_in item enabled_models.

(** The state of the loop of [_deduplicate_results]: the two dicts
    [question_id_to_item] and [question_id_has_valid_answer]. *)
Record dedup_state := {
  question_id_to_item : list (string * dict);
  question_id_has_valid_answer : list (string * bool)
}.

Definition dedup_step (st : dedup_state) (item : dict) : option dedup_state :=
  item_id ← text_field item "question_id";
  if String.eqb item_id "" then Some st
  else
    match assoc_get (question_id_has_valid_answer st) item_id with
    | Some true => Some st
    | _ =>
        has_valid ← has_valid_answer item;
        match assoc_get (question_id_to_item st) item_id with
        | None =>
            Some {| question_id_to_item :=
                      assoc_set (question_id_to_item st) item_id item;
                    question_id_has_valid_answer :=
                      assoc_set (question_id_has_valid_answer st) item_id has_valid |}
        | Some _ =>
            if has_valid : bool then
              Some {| question_id_to_item :=
                        assoc_set (question_id_to_item st) item_id item;
                      question_id_has_valid_answer :=
                        assoc_set (question_id_has_valid_answer st) item_id true |}
            else Some st
        end
    end.

Fixpoint dedup_loop (st : dedup_state) (results_list : list dict)
  : option dedup_state :=
  match results_list with
  | [] => Some st
  | item :: rest => st' ← dedup_step st item; dedup_loop st' rest
  end.

(** [_deduplicate_results]. *)
Definition _deduplicate_results (results_list : list dict) : option (list dict) :=
  st ← dedup_loop {| question_id_to_item := [];
                     question_id_has_valid_answer := [] |} results_list;
  Some (map snd (question_id_to_item st)).

(** [_count_item] summed over [enabled_models] for one item. *)
Fixpoint count_models (item : dict) (models : list string) : option (nat * nat) :=
  match models with
  | [] => Some (O, O)
  | model_name :: models' =>
      r ← _find_model_entry item model_name;
      rest ← count_models item models';
      match r with
      | None => Some rest
      | Some (model_key, entry) =>
          Some (add_counts (_count_item item model_key entry model_name) rest)
      end
  end.

(** The sum of [f] over the items, as the accumulating loops compute it. *)
Fixpoint sum_over (f : dict -> option (nat * nat)) (items : list dict)
  : option (nat * nat) :=
  match items with
  | [] => Some (O, O)
  | item :: rest =>
      a ← f item; b ← sum_over f rest; Some (add_counts a b)
  end.

(** The overall total when scoring by rounds (lines 407-425). *)
Definition total_by_rounds (deduplicated_results : list dict) : option (nat * nat) :=
  sum_over (fun item =>
              item_id ← text_field item "question_id";
              if String.eqb item_id "" then Some (O, O)
              else count_models item enabled_models)
           deduplicated_results.

(** First pass of the whole-item total (lines 435-472). *)
Definition collect_step (question_id_to_item : list (string * dict)) (item : dict)
  : option (list (string * dict)) :=
  item_id ← text_field item "question_id";
  if String.eqb item_id "" then Some question_id_to_item
  else
    has_valid ← has_valid_answer item;
    match assoc_get question_id_to_item item_id with
    | None => Some (assoc_set question_id_to_item item_id item)
    | Some old_item =>
        old_has_valid ← has_valid_answer old_item;
        if negb old_has_valid && has_valid
        then Some (assoc_set question_id_to_item item_id item)
        else Some question_id_to_item
    end.

Fixpoint collect_loop (acc : list (string * dict)) (results : list dict)
  : option (list (string * dict)) :=
  match results with
  | [] => Some acc
  | item :: rest => acc' ← collect_step acc item; collect_loop acc' rest
  end.

(** Second pass, the loop over [enabled_models] for one question:
    [(has_valid_answer, question_is_correct)]. *)
Fixpoint question_outcome (item : dict) (models : list string) (has_valid : bool)
  : option (bool * bool) :=
  match models with
  | [] => Some (has_valid, false)
  | model_name :: models' =>
      r ← _find_model_entry item model_name;
      match r with
      | None => question_outcome item models' has_valid
      | Some (model_key, entry) =>
          if is_answer_empty item (Some model_key) (Some model_name)
          then question_outcome item models' has_valid
          else
            let ok :=
              match get_default entry "match_gt" (VBool false) with
              | VDict match_gt => all_rounds match_gt
              | match_gt => truthy match_gt
              end in
            if ok then Some (true, true)
            else question_outcome item models' true
      end
  end.

(** The overall total when scoring whole items (lines 427-515). *)
Definition total_whole_item (results : list dict) : option (nat * nat) :=
  question_id_to_item ← collect_loop [] results;
  sum_over (fun item =>
              match question_outcome item enabled_models false with
              | Some (true, question_is_correct) =>
                  Some (1%nat, if question_is_correct then 1%nat else O)
              | Some (false, _) => Some (O, O)
              | None => None
              end)
           (map snd question_id_to_item).

(** One model's row of [by_model]. *)
Definition model_row (deduplicated_results : list dict) (model_name : string)
  : option (nat * nat) :=
  sum_over (fun item =>
              r ← _find_model_entry item model_name;
              match r with
              | None => Some (O, O)
              | Some (model_key, entry) =>
                  Some (_count_item item model_key entry model_name)
              end)
           deduplicated_results.

(** The loop of lines 522-539, [stats["by_model"][model_name] = ...] for
    each entry of [enabled_models]: a name listed more than once has one row,
    at the place of its first. *)
Fixpoint model_rows (deduplicated_results : list dict) (names : list string)
  (by_model : list (string * counts)) : option (list (string * counts)) :=
  match names with
  | [] => Some by_model
  | model_name :: rest =>
      c ← model_row deduplicated_results model_name;
      model_rows deduplicated_results rest
                 (assoc_set by_model model_name (mk_counts c))
  end.

(** The rows of a breakdown keyed by the text field [field]: the values that
    occur, in order of first occurrence, each with the counts of the items
    that carry it. *)
Fixpoint field_values (field : string) (items : list dict) (acc : list string)
  : option (list string) :=
  match items with
  | [] => Some acc
  | item :: rest =>
      v ← text_field item field;
      field_values field rest (if String.eqb v "" then acc else set_add v acc)
  end.

Definition field_row (field : string) (deduplicated_results : list dict)
  (v : string) : option (nat * nat) :=
  sum_over (fun item =>
              x ← text_field item field;
              if String.eqb x v then count_models item enabled_models
              else Some (O, O))
           deduplicated_results.

Definition field_rows (field : string) (deduplicated_results : list dict)
  : option (list (string * counts)) :=
  values ← field_values field deduplicated_results [];
  mapM (fun v => c ← field_row field deduplicated_results v;
                 Some (v, mk_counts c)) values.

(** [{item["profile"] for item in deduplicated_results if "profile" in item}]
    and the rows of [by_profile]. A profile that is not a string is outside
    this model. *)
Fixpoint profile_values (items : list dict) (acc : list string)
  : option (list string) :=
  match items with
  | [] => Some acc
  | item :: rest =>
      match dict_get item "profile" with
      | None => profile_values rest acc
      | Some (VStr p) => profile_values rest (set_add p acc)
      | Some _ => None
      end
  end.

Definition profile_rows (deduplicated_results : list dict)
  : option (list (string * counts)) :=
  values ← profile_values deduplicated_results [];
  mapM (fun profile =>
          c ← sum_over (fun item =>
                          if is_name (dict_get item "profile") profile
                          then count_models item enabled_models
                          else Some (O, O))
                       deduplicated_results;
          Some (profile, mk_counts c)) values.

Definition category_fields : list string :=
  ["question_type"; "fintype"; "image_type"; "scenario"; "capability";
   "difficulty"; "source"; "language"].

(** The label [scoring_method]: scoring by rounds or whole items. *)
Inductive scoring := ByRounds | WholeItem.

Record output_statistics := {
  total : counts;
  by_model : list (string * counts);
  by_profile : list (string * counts);
  by_category : list (string * list (string * counts));
  scoring_method : scoring
}.

(** [calculate_output_statistics]. The breakdowns are dicts; a row order is
    fixed here where Python iterates over a set. *)
Definition calculate_output_statistics (results : list dict)
  : option output_statistics :=
  deduplicated_results ← _deduplicate_results results;
  total ← (if count_by_rounds then total_by_rounds deduplicated_results
           else total_whole_item results);
  by_model ← model_rows deduplicated_results enabled_models [];
  by_profile ← profile_rows deduplicated_results;
  by_category ← mapM (fun category_field =>
                        rows ← field_rows category_field deduplicated_results;
                        Some (category_field, rows)) category_fields;
  Some {| total := mk_counts total;
          by_model := by_model;
          by_profile := by_profile;
          by_category := List.filter (fun p => match snd p with
                                               | [] => false
                                               | _ => true
                                               end) by_category;
          scoring_method := if count_by_rounds then ByRounds else WholeItem |}.

End Output.

(** *** [calculate_statistics], on evaluator results *)

Section Internal.

Variable count_by_rounds : bool.

(** [d.get(k, {})] where a dict is expected: [None] is the [AttributeError]
    raised when the value is something else. *)
Definition sub_dict (d : dict) (k : string) : option dict :=
  match dict_get d k with
  | None => Some []
  | Some (VDict d') => Some d'
  | Some _ => None
  end.

(** The loop over [rounds] when scoring by rounds. *)
Fixpoint score_rounds (rounds : list value) : option (nat * nat) :=
  match rounds with
  | [] => Some (O, O)
  | VDict round_data :: rest =>
      r ← score_rounds rest;
      Some (add_counts
              (1%nat, if truthy (get_default round_data "is_correct" (VBool false))
                      then 1%nat else O) r)
  | _ :: _ => None
  end.

(** What one (result, profile, model) contributes: the body that the three
    breakdowns of [calculate_statistics] repeat (lines 52-81, 97-126,
    165-194). *)
Definition score_unit (result : dict) (profile model_name : string)
  : option (nat * nat) :=
  profiles ← sub_dict result "profiles";
  profile_data ← sub_dict profiles profile;
  models ← sub_dict profile_data "models";
  model_data ← sub_dict models model_name;
  let is_multi_round := get_default result "is_multi_round" (VBool false) in
  let rounds := get_default model_data "rounds" (VList []) in
  let by_rounds :=
    match rounds with
    | VList (_ :: _) => count_by_rounds && truthy is_multi_round
    | _ => false
    end in
  if by_rounds then
    match rounds with
    | VList rs => score_rounds rs
    | _ => Some (O, O)
    end
  else
    let is_correct :=
      match dict_get model_data "is_correct" with
      | Some v => v
      | None => get_default model_data "all_rounds_correct" VNone
      end in
    match is_correct with
    | VNone => Some (O, O)
    | v => Some (1%nat, if truthy v then 1%nat else O)
    end.

(** [all_profiles] and [all_models], in order of first occurrence. *)
Fixpoint collect_names (results : list dict) (acc : list string * list string)
  : option (list string * list string) :=
  match results with
  | [] => Some acc
  | result :: rest =>
      profiles ← sub_dict result "profiles";
      acc' ← foldl (fun acc p =>
                      a ← acc;
                      match snd p with
                      | VDict profile_data =>
                          models ← sub_dict profile_data "models";
                          Some (set_add (fst p) (fst a),
                                foldl (fun ms m => set_add (fst m) ms) (snd a) models)
                      | _ => None
                      end) (Some acc) profiles;
      collect_names rest acc'
  end.

(** The sum of [f] over a list of names. *)
Fixpoint sum_names (f : string -> option (nat * nat)) (names : list string)
  : option (nat * nat) :=
  match names with
  | [] => Some (O, O)
  | n :: rest => a ← f n; b ← sum_names f rest; Some (add_counts a b)
  end.

(** A row with its sub-rows, the total being the sum of the sub-rows. *)
Definition nested_row (f : string -> option (nat * nat)) (names : list string)
  : option (counts * list (string * counts)) :=
  rows ← mapM (fun n => c ← f n; Some (n, mk_counts c)) names;
  c ← sum_names f names;
  Some (mk_counts c, rows).

Record statistics := {
  total_items : nat;
  profiles : list (string * (counts * list (string * counts)));
  models : list (string * (counts * list (string * counts)));
  categories : list (string * list (string * (counts * list (string * counts))))
}.

Definition category_rows (results : list dict)
  (all_profiles all_models : list string) (category_field : string)
  : option (list (string * (counts * list (string * counts)))) :=
  values ← field_values category_field results [];
  mapM (fun category_value =>
          row ← nested_row
                  (fun model_name =>
                     sum_over (fun result =>
                                 x ← text_field result category_field;
                                 if String.eqb x category_value
                                 then sum_names (fun profile =>
                                                   score_unit result profile model_name)
                                                all_profiles
                                 else Some (O, O)) results)
                  all_models;
          Some (category_value, row)) values.

(** [calculate_statistics]. *)
Definition calculate_statistics (results : list dict) : option statistics :=
  names ← collect_names results ([], []);
  let all_profiles := fst names in
  let all_models := snd names in
  profiles ← mapM (fun profile =>
                     row ← nested_row
                             (fun model_name =>
                                sum_over (fun result =>
                                            score_unit result profile model_name)
                                         results)
                             all_models;
                     Some (profile, row)) all_profiles;
  models ← mapM (fun model_name =>
                   row ← nested_row
                           (fun profile =>
                              sum_over (fun result =>
                                          score_unit result profile model_name)
                                       results)
                           all_profiles;
                   Some (model_name, row)) all_models;
  categories ← mapM (fun category_field =>
                       rows ← category_rows results all_profiles all_models
                                category_field;
                       Some (category_field, rows)) category_fields;
  Some {| total_items := length results;
          profiles := profiles;
          models := models;
          categories := List.filter (fun p => match snd p with
                                              | [] => false
                                              | _ => true
                                              end) categories |}.

End Internal.

End Statistics.

(** ** evaluator.py and model_api.py: conversation state of a multi-round task *)

Module Conversation.
Import Py.

(** One content part of a turn: [{"type": "text", ...}] or
    [{"type": "image_url", ...}], the latter being a media reference. *)
Inductive part :=
| Text (text : string)
| ImageUrl (url : string).

Inductive role := User | Assistant.

(** The [content] of a turn: a list of parts or a plain string. *)
Inductive content :=
| Parts (l : list part)
| Plain (s : string).

Record message := { msg_role : role; msg_content : content }.

Definition is_image (p : part) : bool :=
  match p with ImageUrl _ => true | Text _ => false end.

Definition is_user (m : message) : bool :=
  match msg_role m with User => true | Assistant => false end.

(** A user turn whose content is a list holding a media reference: the test
    of lines 306-317 and 381-385 of evaluator.py. *)
Definition carries_image (m : message) : bool :=
  is_user m &&
  match msg_content m with
  | Parts l => existsb is_image l
  | Plain _ => false
  end.

(** A media reference anywhere in a turn, whatever its role. *)
Definition has_media (m : message) : bool :=
  match msg_content m with
  | Parts l => existsb is_image l
  | Plain _ => false
  end.

Definition is_http (path : string) : bool :=
  startswith "http://" path || startswith "https://" path.

Section Media.

(** [os.path.exists] and the data URL that the encoder yields for a local
    file; the encoder is outside the core. *)
Variable path_exists : string -> bool.
Variable data_url : string -> string.

(** The loop that turns [image_paths] into media references (evaluator.py
    337-355, model_api.py 389-408): a URL as it is, an existing file as a
    data URL, anything else skipped. *)
Fixpoint image_parts (image_paths : list string) : list part :=
  match image_paths with
  | [] => []
  | image_path :: rest =>
      if is_http image_path then ImageUrl image_path :: image_parts rest
      else if path_exists image_path
           then ImageUrl (data_url image_path) :: image_parts rest
           else image_parts rest
  end.

End Media.

Section Builder.

Variable path_exists : string -> bool.
(** The encoders of evaluator.py and of model_api.py pick their formats
    independently. *)
Variable eval_data_url : string -> string.
Variable api_data_url : string -> string.

(** [call_model_api], [messages] branch, before the request is sent (lines
    349-413): media are appended to the first message when it is a user turn
    without any. The first message is updated in place. *)
Definition attach_to_first (messages : list message) (image_paths : list string)
  : list message :=
  match messages with
  | [] => []
  | first_msg :: rest =>
      if is_user first_msg && match image_paths with [] => false | _ => true end
      then
        let user_content :=
          match msg_content first_msg with
          | Plain s => [Text s]
          | Parts l => l
          end in
        if existsb is_image user_content then messages
        else {| msg_role := msg_role first_msg;
                msg_content :=
                  Parts (user_content ++ image_parts path_exists api_data_url image_paths) |}
             :: rest
      else messages
  end.

(** The outgoing user turn of a round (lines 305-361). *)
Definition current_user_msg (history : list message) (image_paths : list string)
  (prompt : string) : message :=
  let has_image_in_history := existsb carries_image history in
  let media :=
    if negb has_image_in_history && match image_paths with [] => false | _ => true end
    then image_parts path_exists eval_data_url image_paths
    else [] in
  {| msg_role := User; msg_content := Parts (media ++ [Text prompt]) |}.

(** [messages = conversation_history.copy(); messages.append(current)]
    followed by the in-place update of [call_model_api]. The copy is
    shallow: [messages[0]] is the very object [conversation_history[0]] when
    the history is not empty, and [current_user_msg] otherwise. The result is
    the list handed to the model service and the history as it stands after
    the update. *)
Definition outgoing (history : list message) (image_paths : list string)
  (prompt : string) : list message * list message * message :=
  let current := current_user_msg history image_paths prompt in
  let messages := attach_to_first (history ++ [current]) image_paths in
  match history with
  | [] => (messages, [], match messages with m :: _ => m | [] => current end)
  | _ :: tail =>
      (messages,
       match messages with m :: _ => m :: tail | [] => history end,
       current)
  end.

(** The compacted pair appended after a response (lines 376-420).
    [current] is the outgoing user turn as it stands after the request. *)
Definition simplified_user_msg (history : list message) (image_paths : list string)
  (current : message) (question_text : string) : message :=
  let has_image_in_conversation_history := existsb carries_image history in
  let media :=
    if negb has_image_in_conversation_history
       && match image_paths with [] => false | _ => true end
    then match msg_content current with
         | Parts l => List.filter is_image l
         | Plain _ => []
         end
    else [] in
  {| msg_role := User; msg_content := Parts (media ++ [Text question_text]) |}.

(** [extracted_answer if extracted_answer and extracted_answer.strip() else
    (original_response[-300:] if len(original_response) > 300 else
    original_response)]. *)
Definition brief_answer_for_history (extracted_answer original_response : string)
  : string :=
  if negb (String.eqb extracted_answer "")
     && negb (String.eqb (strip extracted_answer) "")
  then extracted_answer
  else if (300 <? String.length original_response)%nat
       then last_chars 300 original_response
       else original_response.

Definition commit (history : list message) (image_paths : list string)
  (current : message) (question_text extracted_answer original_response : string)
  : list message :=
  history ++ [simplified_user_msg history image_paths current question_text;
              {| msg_role := Assistant;
                 msg_content :=
                   Plain (brief_answer_for_history extracted_answer original_response) |}].

End Builder.

End Conversation.

(** ** evaluator.py: one task *)

Module Evaluator.
Import Py Extractor Conversation.

(** The result of a call that may raise: [Raise msg] carries [str(e)]. *)
Inductive outcome (A : Type) :=
| Ok (a : A)
| Raise (msg : string).
Arguments Ok {A} a.
Arguments Raise {A} msg.

(** One round of a multi-round item as lines 279-284 read it off the item:
    [round_key], [question.get(round_key, "")], [answer.get(round_key, "")]
    and [options.get(round_key)] ([None] when [options] is not a dict or has
    no such key). *)
Record round := {
  round_key : string;
  round_question : string;
  round_answer : value;
  round_options : option value
}.

(** [round_options is not None and isinstance(round_options, dict) and
    any(round_options.values())]. *)
Definition has_round_options (round_options : option value) : bool :=
  match round_options with
  | Some (VDict d) => existsb (fun '(_, v) => truthy v) d
  | _ => false
  end.

(** The entry stored when the evaluation of a model raises (lines 515-524
    and 652-661). *)
Definition error_entry (model_name msg : string) : dict :=
  [("model_name", VStr model_name);
   ("error", VStr msg);
   ("is_correct", VBool false);
   ("model_answer", VStr "");
   ("extracted_answer", VStr "");
   ("answer_for_judge", VStr "");
   ("response_time", VFloat 0);
   ("judge_time", VFloat 0)].

(** The entry stored when it succeeds (lines 488-506 and 634-645); the
    prompt, the raw responses and the copy of the conversation are left out. *)
Definition result_data (model_name model_answer extracted_answer : string)
  (is_from_box : bool) (answer_for_judge : string) (is_correct : bool)
  (reasoning : string) (response_time judge_time : Q) : dict :=
  [("model_name", VStr model_name);
   ("model_answer", VStr model_answer);
   ("extracted_answer", VStr extracted_answer);
   ("is_from_box", VBool is_from_box);
   ("answer_for_judge", VStr answer_for_judge);
   ("is_correct", VBool is_correct);
   ("reasoning", VStr reasoning);
   ("response_time", VFloat response_time);
   ("judge_time", VFloat judge_time)].

Section Task.

(** The collaborators. [generate] is the request of [call_model_api] once the
    messages are built, with its retries: the answer and the elapsed time, or
    the exception left after the last retry. [judge_answer] is the judge with
    its retries: verdict, rationale and elapsed time. [get_prompt] is the
    prompt template; [question_with_options] renders a question followed by
    its options (lines 398-407). *)
Variable json_loads : string -> option dict.
Variable path_exists : string -> bool.
Variable eval_data_url : string -> string.
Variable api_data_url : string -> string.
Variable get_prompt : string -> string -> option value -> string -> string.
Variable question_with_options : string -> option value -> string.
Variable generate : string -> list message -> outcome (string * Q).
Variable judge_answer :
  string -> value -> string -> option value -> outcome (bool * string * Q).

(** The exception raised inside [extract_answer_from_response]. *)
Definition extraction_error : string := "AttributeError".

Definition extract (model_answer : string) (has_options : bool)
  : outcome (string * bool * string) :=
  match extract_answer_from_response json_loads model_answer with
  | Some r => Ok r
  | None => Raise extraction_error
  end.

(** The [try] block of a round (lines 294-508): what it stores, or the
    exception that ends it, together with what it has done by then to the
    conversation history and to the running total of response times. *)
Record attempt := {
  attempted : outcome (dict * Q);
  history_left : list message;
  messages_built : list message;
  response_time_spent : Q
}.

Definition try_round (profile question_type model_name : string)
  (image_paths : list string) (history : list message) (r : round)
  : attempt :=
  let prompt := get_prompt profile (round_question r) (round_options r) question_type in
  let '(messages, history1, current) :=
    outgoing path_exists eval_data_url api_data_url history image_paths prompt in
  match generate model_name messages with
  | Raise msg =>
      {| attempted := Raise msg; history_left := history1;
         messages_built := messages; response_time_spent := 0 |}
  | Ok (model_answer, response_time) =>
      match extract model_answer (has_round_options (round_options r)) with
      | Raise msg =>
          {| attempted := Raise msg; history_left := history1;
             messages_built := messages; response_time_spent := 0 |}
      | Ok (extracted_answer, is_from_box, original_response) =>
          let question_text :=
            if has_round_options (round_options r)
            then question_with_options (round_question r) (round_options r)
            else round_question r in
          let history2 :=
            commit history1 image_paths current question_text
                   extracted_answer original_response in
          let answer_for_judge :=
            if negb is_from_box then original_response else extracted_answer in
          match judge_answer answer_for_judge (round_answer r)
                             (round_question r) (round_options r) with
          | Raise msg =>
              {| attempted := Raise msg; history_left := history2;
                 messages_built := messages; response_time_spent := response_time |}
          | Ok (is_correct, reasoning, judge_time) =>
              let data :=
                result_data model_name model_answer extracted_answer is_from_box
                            answer_for_judge is_correct reasoning
                            response_time judge_time in
              {| attempted := Ok (match round_options r with
                                  | Some o => dict_set data "options" o
                                  | None => data
                                  end, judge_time);
                 history_left := history2;
                 messages_built := messages;
                 response_time_spent := response_time |}
          end
      end
  end.

(** What one round leaves behind. *)
Record round_effect := {
  entry : dict;
  history_after : list message;
  sent : list message;
  response_time_added : Q;
  judge_time_added : Q
}.

(** The [except Exception as e] handler of a round (lines 510-524) after
    the [try] block. *)
Definition handle_round (model_name : string) (a : attempt) : round_effect :=
  {| entry := match attempted a with
              | Ok (data, _) => data
              | Raise msg => error_entry model_name msg
              end;
     history_after := history_left a;
     sent := messages_built a;
     response_time_added := response_time_spent a;
     judge_time_added := match attempted a with
                         | Ok (_, judge_time) => judge_time
                         | Raise _ => 0
                         end |}.

(** The [try] blocks of the rounds of one model in order, each starting from
    the conversation history left by the one before. *)
Fixpoint try_rounds (profile question_type model_name : string)
  (image_paths : list string) (history : list message) (rounds : list round)
  : list attempt :=
  match rounds with
  | [] => []
  | r :: rest =>
      let a := try_round profile question_type model_name image_paths history r in
      a :: try_rounds profile question_type model_name image_paths
             (history_left a) rest
  end.

(** Lines 279-524 for one model: the stored entry of every round, the list
    sent in every round and the times spent. *)
Definition evaluate_rounds (profile question_type model_name : string)
  (image_paths : list string) (history : list message) (rounds : list round)
  : list round_effect :=
  map (handle_round model_name)
      (try_rounds profile question_type model_name image_paths history rounds).

(** [round_item] of lines 535-543. *)
Definition round_item (r : round) (round_result : dict) : value :=
  let base :=
    [("round", VStr (round_key r));
     ("question", VStr (round_question r));
     ("answer", round_answer r)] in
  let merged := fold_left (fun d kv => dict_set d (fst kv) (snd kv)) round_result base in
  VDict match round_options r with
        | Some o => if has_key merged "options" then merged
                    else dict_set merged "options" o
        | None => merged
        end.

(** [model_all_correct] of lines 529-547. *)
Definition model_all_correct (entries : list dict) : bool :=
  forallb (fun round_result =>
             truthy (get_default round_result "is_correct" (VBool false))) entries.

Definition sumQ (l : list Q) : Q := fold_right Qplus 0%Q l.

(** The multi-round branch for one profile (lines 261-564): the "models"
    dict of [profile_results]. The two totals are shared by all models. *)
Definition evaluate_multi_round (profile question_type : string)
  (enabled_models image_paths : list string) (rounds : list round) : dict :=
  let runs :=
    map (fun model_name =>
           (model_name,
            evaluate_rounds profile question_type model_name image_paths [] rounds))
        enabled_models in
  let total_response_time :=
    sumQ (flat_map (fun run => map response_time_added (snd run)) runs) in
  let total_judge_time :=
    sumQ (flat_map (fun run => map judge_time_added (snd run)) runs) in
  fold_left
    (fun models run =>
       let entries := map entry (snd run) in
       let all_correct := model_all_correct entries in
       dict_set models (fst run)
         (VDict [("model_name", VStr (fst run));
                 ("is_multi_round", VBool true);
                 ("rounds", VList (map (fun re => round_item (fst re) (snd re))
                                       (combine rounds entries)));
                 ("all_rounds_correct", VBool all_correct);
                 ("total_response_time", VFloat total_response_time);
                 ("total_judge_time", VFloat total_judge_time);
                 ("is_correct", VBool all_correct)]))
    runs [].

(** The request of [call_model_api] for a single prompt: one user turn with
    the media first (lines 415 and following). *)
Definition single_message (image_paths : list string) (prompt : string) : message :=
  {| msg_role := User;
     msg_content :=
       Parts (image_parts path_exists api_data_url image_paths ++ [Text prompt]) |}.

(** The [try] block of [eval_single_model] (lines 577-649). *)
Definition try_single_model (image_paths : list string) (prompt : string)
  (question : string) (answer options : value) (has_options : bool)
  (model_name : string) : outcome dict :=
  match generate model_name [single_message image_paths prompt] with
  | Raise msg => Raise msg
  | Ok (model_answer, response_time) =>
      match extract model_answer has_options with
      | Raise msg => Raise msg
      | Ok (extracted_answer, is_from_box, original_response) =>
          let answer_for_judge :=
            if negb is_from_box then original_response else extracted_answer in
          match judge_answer answer_for_judge answer question
                             (match options with VNone => None | o => Some o end) with
          | Raise msg => Raise msg
          | Ok (is_correct, reasoning, judge_time) =>
              Ok (result_data model_name model_answer extracted_answer is_from_box
                              answer_for_judge is_correct reasoning
                              response_time judge_time)
          end
      end
  end.

(** [eval_single_model] (lines 574-661). *)
Definition eval_single_model (image_paths : list string) (prompt : string)
  (question : string) (answer options : value) (has_options : bool)
  (model_name : string) : dict :=
  match try_single_model image_paths prompt question answer options has_options
                         model_name with
  | Ok result_data => result_data
  | Raise msg => error_entry model_name msg
  end.

(** A question after the checks of lines 44-226; [tags] is the item itself,
    from which the classification fields are carried over. *)
Record question_item := {
  item_id : string;
  question : string;
  answer : value;
  options : value;
  question_type : string;
  image_paths : list string;
  is_multi_round : bool;
  rounds : list round;
  tags : dict
}.

(** [has_options] of line 154. *)
Definition has_options (options : value) : bool :=
  match options with
  | VDict d => existsb (fun '(_, v) => truthy v) d
  | _ => false
  end.

(** [profile_results] for one profile (lines 252-678). *)
Definition evaluate_profile (item : question_item) (enabled_models : list string)
  (profile : string) : value :=
  let models :=
    if is_multi_round item then
      evaluate_multi_round profile (question_type item) enabled_models
                           (image_paths item) (rounds item)
    else
      let prompt := get_prompt profile (question item)
                      (match options item with VNone => None | o => Some o end)
                      (question_type item) in
      fold_left
        (fun models model_name =>
           dict_set models model_name
             (VDict (eval_single_model (image_paths item) prompt (question item)
                       (answer item) (options item) (has_options (options item))
                       model_name)))
        enabled_models [] in
  VDict [("profile", VStr profile); ("models", VDict models)].

(** The question of a multi-round item as the result carries it: the dict
    of the round questions, and likewise the reference answers. *)
Definition rounds_dict (f : round -> value) (rounds : list round) : value :=
  VDict (map (fun r => (round_key r, f r)) rounds).

(** [evaluate_single_item] from line 228 on: the result dict. *)
Definition evaluate_single_item (item : question_item)
  (enabled_models profiles : list string) : dict :=
  let head :=
    [("question_id", VStr (item_id item));
     ("image_paths", VList (map VStr (image_paths item)));
     ("question_type", VStr (question_type item));
     ("question", if is_multi_round item
                  then rounds_dict (fun r => VStr (round_question r)) (rounds item)
                  else VStr (question item));
     ("answer", if is_multi_round item
                then rounds_dict round_answer (rounds item)
                else answer item);
     ("options", options item);
     ("is_multi_round", VBool (is_multi_round item));
     ("profiles",
      VDict (fold_left
               (fun d profile =>
                  dict_set d profile (evaluate_profile item enabled_models profile))
               profiles []))] in
  fold_left (fun d field =>
               match dict_get (tags item) field with
               | Some v => dict_set d field v
               | None => d
               end)
            ["scenario"; "capability"; "difficulty"; "source"; "language"] head.

End Task.

End Evaluator.

(** ** result_converter.py: the stored record of one (model, persona) *)

Module Converter.
Import Py Statistics.

(** [a or b]. *)
Definition por (a b : value) : value := if truthy a then a else b.

(** [c.lower()] for a code point below 256. *)
Definition lower_char (c : ascii) : ascii :=
  let n := nat_of_ascii c in
  if ((65 <=? n) && (n <=? 90)
      || (192 <=? n) && (n <=? 222) && negb (n =? 215))%nat
  then ascii_of_nat (n + 32) else c.

Fixpoint lower (s : string) : string :=
  match s with
  | EmptyString => EmptyString
  | String c s' => String (lower_char c) (lower s')
  end.

(** [sub in s]. *)
Definition contains (sub s : string) : bool :=
  match find sub s 0 with Some _ => true | None => false end.

Section Convert.

(** [build_process_value] of result_utils.py, which assembles the text shown
    as [process], and the test ["round" in str(round_data)] on the printed
    form of a dict. *)
Variable build_process_value : value -> dict -> string.
Variable mentions_round : dict -> bool.

(** The round key of one element of [rounds] (lines 64-77); [None] when
    the key found is not a string. *)
Definition round_key_of (round_data : dict) : option string :=
  match get_default round_data "round" (VStr "") with
  | VStr (String c s) => Some (String c s)
  | v =>
      if truthy v then None
      else
        match dict_get round_data "question" with
        | Some (VDict ((k, _) :: _)) => Some k
        | Some (VStr _) =>
            if mentions_round round_data
            then Some (match List.find (fun kv => contains "round" (lower (fst kv)))
                                       round_data with
                       | Some (k, _) => k
                       | None => ""
                       end)
            else Some ""
        | _ => Some ""
        end
  end.

(** The four per-round dicts built by the loop of lines 63-105. *)
Record round_dicts := {
  answer_dict : dict;
  process_dict : dict;
  match_gt_dict : dict;
  judge_reasoning_dict : dict
}.

Definition convert_round (acc : round_dicts) (round_data : dict)
  : option round_dicts :=
  key ← round_key_of round_data;
  if String.eqb key "" then Some acc
  else
    let '(round_answer, round_process, round_correct, round_reasoning) :=
      if has_key round_data "error"
      then (VStr "", VStr "", VBool false, VStr "")
      else
        let round_answer := get_default round_data "extracted_answer" (VStr "") in
        let raw_round_answer :=
          por (get_default round_data "model_answer" (VStr ""))
              (get_default round_data "process" (VStr "")) in
        (if truthy round_answer then round_answer
         else get_default round_data "answer" (VStr ""),
         VStr (build_process_value raw_round_answer round_data),
         get_default round_data "is_correct" (VBool false),
         get_default round_data "reasoning" (VStr "")) in
    Some {| answer_dict := dict_set (answer_dict acc) key round_answer;
            process_dict := dict_set (process_dict acc) key round_process;
            match_gt_dict := dict_set (match_gt_dict acc) key round_correct;
            judge_reasoning_dict :=
              dict_set (judge_reasoning_dict acc) key round_reasoning |}.

Fixpoint convert_rounds (acc : round_dicts) (rounds_list : list value)
  : option round_dicts :=
  match rounds_list with
  | [] => Some acc
  | VDict round_data :: rest =>
      acc' ← convert_round acc round_data; convert_rounds acc' rest
  | _ :: _ => None
  end.

(** [(model_answer_value, process_value, match_gt_value,
    judge_reasoning_value)] of lines 56-147. *)
Definition answer_values (is_multi_round : bool) (model_data : dict)
  : option (value * value * value * value) :=
  let model_answer := get_default model_data "model_answer" (VStr "") in
  let extracted_answer := get_default model_data "extracted_answer" (VStr "") in
  let single :=
    if has_key model_data "error"
    then (VStr "", VStr "", VBool false, VStr "")
    else (if truthy extracted_answer then extracted_answer else VStr "",
          VStr (build_process_value model_answer model_data),
          por (get_default model_data "is_correct" (VBool false))
              (get_default model_data "all_rounds_correct" (VBool false)),
          get_default model_data "reasoning" (VStr "")) in
  match get_default model_data "rounds" (VList []) with
  | VList (r :: rs) =>
      if is_multi_round then
        d ← convert_rounds {| answer_dict := []; process_dict := [];
                              match_gt_dict := []; judge_reasoning_dict := [] |}
                           (r :: rs);
        match answer_dict d with
        | _ :: _ =>
            Some (VDict (answer_dict d), VDict (process_dict d),
                  VDict (match_gt_dict d), VDict (judge_reasoning_dict d))
        | [] =>
            match List.last (r :: rs) VNone with
            | VDict last_round =>
                Some (por (get_default last_round "extracted_answer" (VStr ""))
                          (get_default last_round "answer" (VStr "")),
                      por (get_default last_round "model_answer" (VStr ""))
                          (get_default last_round "process" (VStr "")),
                      get_default last_round "is_correct" (VBool false),
                      get_default last_round "reasoning" (VStr ""))
            | _ => None
            end
        end
      else Some single
  | _ => Some single
  end.

(** [_rounds_info] of lines 204-211. *)
Fixpoint rounds_info (rounds_list : list value) : option (list value) :=
  match rounds_list with
  | [] => Some []
  | VDict round_data :: rest =>
      tl ← rounds_info rest;
      Some (VDict [("round", get_default round_data "round" (VStr ""));
                   ("is_correct", get_default round_data "is_correct" (VBool false))]
            :: tl)
  | _ :: _ => None
  end.

(** [agreement_with_gt] of lines 215-221. *)
Definition agreement_value (is_multi_round : bool) (match_gt_value : value) : Z :=
  match match_gt_value with
  | VDict match_gt =>
      if is_multi_round
      then (if all_rounds match_gt then 1 else 0)
      else (if truthy match_gt_value then 1 else 0)
  | _ => if truthy match_gt_value then 1 else 0
  end.

(** [convert_to_module2_format]. The outer [None] is an exception raised on
    a result of another shape than the evaluator writes; [Some None] is the
    [None] returned when the result has nothing for this model. *)
Definition convert_to_module2_format (result : dict) (model_name profile : string)
  : option (option dict) :=
  profiles ← sub_dict result "profiles";
  profile_data ← sub_dict profiles profile;
  models ← sub_dict profile_data "models";
  model_data ← sub_dict models model_name;
  match model_data with
  | [] => Some None
  | _ =>
      let is_multi_round := truthy (get_default result "is_multi_round" (VBool false)) in
      vals ← answer_values is_multi_round model_data;
      let '(model_answer_value, process_value, match_gt_value, judge_reasoning_value) :=
        vals in
      let image_paths_result :=
        let image_paths := get_default result "image_paths" (VList []) in
        if truthy image_paths then image_paths
        else match get_default result "image_path" (VStr "") with
             | VList l => VList l
             | v => if truthy v then VList [v] else VList []
             end in
      let module2_item :=
        [("question_id",
          get_default result "question_id" (get_default result "id" (VStr "")));
         ("question", get_default result "question" (VStr ""));
         ("answer", get_default result "answer" (VStr ""));
         ("question_type", get_default result "question_type" (VStr ""));
         ("image_type", get_default result "image_type" (VStr ""));
         ("image_path", image_paths_result);
         ("options", get_default result "options" VNone);
         ("profile", VStr profile)] in
      let module2_item :=
        fold_left (fun d field =>
                     match dict_get result field with
                     | Some v => dict_set d field v
                     | None => d
                     end)
                  ["scenario"; "capability"; "difficulty"; "source"; "language"]
                  module2_item in
      let module2_item :=
        match get_default result "original_image_path" (VList []) with
        | VList (x :: l) => dict_set module2_item "original_image_path" (VList (x :: l))
        | VStr (String c s) =>
            dict_set module2_item "original_image_path" (VList [VStr (String c s)])
        | _ => module2_item
        end in
      let response_time_value :=
        if is_multi_round && has_key model_data "total_response_time"
        then get_default model_data "total_response_time" (VFloat 0)
        else get_default model_data "response_time" (VFloat 0) in
      let module2_item :=
        dict_set module2_item "model"
          (VDict [("process", process_value);
                  ("answer", model_answer_value);
                  ("model_name", VStr model_name);
                  ("response_time", response_time_value);
                  ("match_gt", match_gt_value);
                  ("judge_reasoning", judge_reasoning_value)]) in
      module2_item ←
        match dict_get model_data "rounds" with
        | Some (VList rounds_list) =>
            if is_multi_round then
              info ← rounds_info rounds_list;
              Some (dict_set module2_item "_rounds_info" (VList info))
            else Some module2_item
        | _ => Some module2_item
        end;
      Some (Some (dict_set module2_item "comparison"
                    (VDict [("agreement_with_gt",
                             VInt (agreement_value is_multi_round match_gt_value))])))
  end.

End Convert.

End Converter.

(** ** result_converter.py and main.py: the result store *)

Module Store.
Import Py ResultUtils Statistics.

(** The files of the output directory: path to text. *)
Abbreviation files := (gmap string string).

(** How the write of the temporary file goes: to the end, not at all because
    [open] raises, or up to [written] characters before an exception. *)
Inductive write_result :=
| WriteOk
| OpenFails
| WriteFails (written : nat).

(** The outcome of the two operations of a rewrite that can fail. *)
Record io := { write : write_result; replace_ok : bool }.

(** The lines written to the log at level error or warning. *)
Inductive event :=
| TempWriteFailed
| BatchSaveFailed (model_name profile : string)
| StatsUpdateFailed (model_name profile : string)
| LoadFailed
| UnreadableSkipped.

(** [output_file.with_suffix(output_file.suffix + '.tmp')]. *)
Definition temp_path (output_file : string) : string := output_file ++ ".tmp".

(** The inner [try] shared by every rewrite (result_converter.py 285-300,
    main.py 415-426, 694-707 and 718-729): write [text] to the temporary
    path, then replace the target; on an exception remove the temporary file
    and raise again. The result lists the states of the directory in the
    order in which they occur and tells whether the rewrite went through. *)
Definition atomic_rewrite (fs : files) (output_file text : string) (o : io)
  : list files * bool :=
  let temp_file := temp_path output_file in
  match write o with
  | OpenFails => ([fs; delete temp_file fs], false)
  | WriteFails written =>
      let opened := <[temp_file := ""]> fs in
      let torn := <[temp_file := take written text]> fs in
      ([fs; opened; torn; delete temp_file torn], false)
  | WriteOk =>
      let opened := <[temp_file := ""]> fs in
      let full := <[temp_file := text]> fs in
      if replace_ok o
      then ([fs; opened; full; <[output_file := text]> (delete temp_file full)], true)
      else ([fs; opened; full; delete temp_file full], false)
  end.

Definition counts_value (c : counts) : value :=
  VDict [("total_count", VInt (Z.of_nat (total_count c)));
         ("correct_count", VInt (Z.of_nat (correct_count c)));
         ("accuracy", VFloat (accuracy c))].

Definition rows_value (rows : list (string * counts)) : value :=
  VDict (map (fun r => (fst r, counts_value (snd r))) rows).

(** The [stats] dict as it is stored in the header. *)
Definition stats_value (label : scoring -> string) (s : output_statistics) : value :=
  VDict [("total", counts_value (total s));
         ("by_model", rows_value (by_model s));
         ("by_profile", rows_value (by_profile s));
         ("by_category",
          VDict (map (fun r => (fst r, rows_value (snd r))) (by_category s)));
         ("scoring_method", VStr (label (scoring_method s)))].

(** The elements of a [results] array as dicts; [None] when one of them is
    not an object, on which the aggregator raises. *)
Fixpoint as_dicts (l : list value) : option (list dict) :=
  match l with
  | [] => Some []
  | VDict d :: rest => tl ← as_dicts rest; Some (d :: tl)
  | _ :: _ => None
  end.

Record state := {
  fs : files;
  result_buffers : gmap (string * string) (list dict);
  log : list event
}.

Section WithCodec.

(** [json.load] and [json.dump(..., indent=2)] on a whole file, [json.loads]
    and [json.dumps] on one line, the size in bytes of a file, the two
    labels of [scoring_method], and the run's configuration. *)
Variable json_load : string -> option value.
Variable json_dump : value -> string.
Variable json_dumps : value -> string.
Variable file_size : string -> nat.
Variable label : scoring -> string.
Variable count_by_rounds : bool.
Variable enabled_models : list string.

(** The replacement document of [flush_json_buffer] (lines 258-282);
    [None] when an exception is raised before anything is written. *)
Definition merged_document (fs : files) (output_file : string) (buffer : list dict)
  : option value :=
  existing_data ←
    match fs !! output_file with
    | Some text =>
        if (0 <? file_size text)%nat then json_load text
        else Some (VDict [("statistics", VDict []); ("results", VList [])])
    | None => Some (VDict [("statistics", VDict []); ("results", VList [])])
    end;
  match existing_data with
  | VDict d =>
      match get_default d "results" (VList []) with
      | VList existing_results =>
          let final_results := (existing_results ++ map VDict buffer)%list in
          items ← as_dicts final_results;
          stats ← calculate_output_statistics count_by_rounds enabled_models items;
          Some (VDict (dict_set (dict_set d "results" (VList final_results))
                                "statistics" (stats_value label stats)))
      | _ => None
      end
  | _ => None
  end.

(** [flush_json_buffer]. The outer [None] is the [KeyError] of
    [output_files[key]]. *)
Definition flush_json_buffer (st : state)
  (output_files : gmap (string * string) string)
  (model_name profile : string) (o : io) : option (list files * state) :=
  let key := (model_name, profile) in
  match result_buffers st !! key with
  | None | Some [] => Some ([fs st], st)
  | Some buffer =>
      output_file ← output_files !! key;
      match merged_document (fs st) output_file buffer with
      | None =>
          Some ([fs st],
                {| fs := fs st;
                   result_buffers := result_buffers st;
                   log := (log st ++ [BatchSaveFailed model_name profile])%list |})
      | Some existing_data =>
          let '(seen, ok) :=
            atomic_rewrite (fs st) output_file (json_dump existing_data) o in
          let fs' := List.last seen (fs st) in
          if ok : bool
          then Some (seen,
                     {| fs := fs';
                        result_buffers := <[key := []]> (result_buffers st);
                        log := log st |})
          else Some (seen,
                     {| fs := fs';
                        result_buffers := result_buffers st;
                        log := (log st ++ [TempWriteFailed;
                                           BatchSaveFailed model_name profile])%list |})
      end
  end.

(** [s.split("\n")]: the lines of a text. *)
Fixpoint split_lines (s : string) (cur : string) : list string :=
  match s with
  | EmptyString => [cur]
  | String c s' =>
      if Ascii.eqb c "010" then cur :: split_lines s' ""
      else split_lines s' (cur ++ String c "")
  end.

(** The records of a line-oriented artifact as the final update reads them
    (main.py 650-661): the first line is skipped, blank and unparsable lines
    are skipped. *)
Definition read_records (text : string) : list value :=
  match split_lines text "" with
  | [] => []
  | _ :: lines =>
      omap (fun line =>
              let line := strip line in
              if String.eqb line "" then None else json_load line) lines
  end.

Definition jsonl_text (stats : value) (final_list : list value) : string :=
  fold_right (fun v acc => json_dumps v ++ String "010" acc) ""
             (VDict [("statistics", stats)] :: final_list).

Inductive output_format := Json | Jsonl.

(** [for item in all_results] on the value that [json.load] gave for
    [results]: the elements of a list, the keys of a dict, the characters of
    a string; [None] for a value that cannot be iterated over, on which the
    aggregator raises [TypeError]. *)
Definition iterated (all_results : value) : option (list value) :=
  match all_results with
  | VList l => Some l
  | VDict d => Some (map (fun kv => VStr (fst kv)) d)
  | VStr s => Some (map (fun c => VStr (String c "")) (list_ascii_of_string s))
  | _ => None
  end.

(** One turn of the loop "update the statistics and save the final result"
    (main.py 642-731) for one artifact. *)
Definition update_statistics (fmt : output_format) (st : state)
  (output_file model_name profile : string) (o : io) : list files * state :=
  let failed :=
    ([fs st],
     {| fs := fs st; result_buffers := result_buffers st;
        log := (log st ++ [StatsUpdateFailed model_name profile])%list |}) in
  let rewrite text :=
    let '(seen, ok) := atomic_rewrite (fs st) output_file text o in
    (seen,
     {| fs := List.last seen (fs st);
        result_buffers := result_buffers st;
        log := if ok : bool then log st
               else (log st ++ [TempWriteFailed;
                                StatsUpdateFailed model_name profile])%list |}) in
  match fs st !! output_file with
  | None => failed
  | Some text =>
      match fmt with
      | Jsonl =>
          let final_list := read_records text in
          match final_list with
          | [] =>
              if (1024 <? file_size text)%nat
              then ([fs st],
                    {| fs := fs st; result_buffers := result_buffers st;
                       log := (log st ++ [UnreadableSkipped])%list |})
              else
                match calculate_output_statistics count_by_rounds enabled_models [] with
                | Some stats => rewrite (jsonl_text (stats_value label stats) [])
                | None => failed
                end
          | _ =>
              match as_dicts final_list with
              | Some items =>
                  match calculate_output_statistics count_by_rounds enabled_models
                                                    items with
                  | Some stats =>
                      rewrite (jsonl_text (stats_value label stats) final_list)
                  | None => failed
                  end
              | None => failed
              end
          end
      | Json =>
          match json_load text with
          | Some (VDict data) =>
              match iterated (get_default data "results" (VList [])) with
              | Some all_results =>
                  match as_dicts all_results with
                  | Some items =>
                      match calculate_output_statistics count_by_rounds
                                                        enabled_models items with
                      | Some stats =>
                          rewrite (json_dump
                                     (VDict (dict_set data "statistics"
                                               (stats_value label stats))))
                      | None => failed
                      end
                  | None => failed
                  end
              | None => failed
              end
          | _ => failed
          end
      end
  end.

End WithCodec.

(** *** Resume: which questions are already done (main.py 264-333 and 342-434) *)

Record resume_state := {
  seen_ids : gset string;
  question_id_to_item : list (string * dict);
  question_id_has_valid_answer : list (string * bool);
  completed_ids : gset string;
  removed_duplicate_count : nat;
  empty_answer_count : Z
}.

Definition resume_start : resume_state :=
  {| seen_ids := ∅; question_id_to_item := [];
     question_id_has_valid_answer := [];
     completed_ids := ∅; removed_duplicate_count := 0;
     empty_answer_count := 0 |}.

(** The body of [for item in all_items]; [None] as in [text_field]. *)
Definition resume_step (model_name : string) (st : resume_state) (item : dict)
  : option resume_state :=
  item_id ← text_field item "question_id";
  if String.eqb item_id "" then Some st
  else
    match assoc_get (question_id_has_valid_answer st) item_id with
    | Some true =>
        Some {| seen_ids := seen_ids st;
                question_id_to_item := question_id_to_item st;
                question_id_has_valid_answer := question_id_has_valid_answer st;
                completed_ids := completed_ids st;
                removed_duplicate_count := S (removed_duplicate_count st);
                empty_answer_count := empty_answer_count st |}
    | _ =>
        let is_empty := is_answer_empty item None (Some model_name) in
        if decide (item_id ∈ seen_ids st) then
          if negb is_empty then
            Some {| seen_ids := seen_ids st;
                    question_id_to_item :=
                      assoc_set (question_id_to_item st) item_id item;
                    question_id_has_valid_answer :=
                      assoc_set (question_id_has_valid_answer st) item_id true;
                    completed_ids := {[item_id]} ∪ completed_ids st;
                    removed_duplicate_count := S (removed_duplicate_count st);
                    empty_answer_count := empty_answer_count st - 1 |}
          else
            Some {| seen_ids := seen_ids st;
                    question_id_to_item := question_id_to_item st;
                    question_id_has_valid_answer := question_id_has_valid_answer st;
                    completed_ids := completed_ids st;
                    removed_duplicate_count := S (removed_duplicate_count st);
                    empty_answer_count := empty_answer_count st |}
        else
          Some {| seen_ids := {[item_id]} ∪ seen_ids st;
                  question_id_to_item :=
                    assoc_set (question_id_to_item st) item_id item;
                  question_id_has_valid_answer :=
                    assoc_set (question_id_has_valid_answer st) item_id (negb is_empty);
                  completed_ids :=
                    if is_empty then completed_ids st
                    else {[item_id]} ∪ completed_ids st;
                  removed_duplicate_count := removed_duplicate_count st;
                  empty_answer_count :=
                    if is_empty then empty_answer_count st + 1
                    else empty_answer_count st |}
    end.

Fixpoint resume_loop (model_name : string) (st : resume_state)
  (all_items : list dict) : option resume_state :=
  match all_items with
  | [] => Some st
  | item :: rest =>
      st' ← resume_step model_name st item; resume_loop model_name st' rest
  end.

(** [completed_items[(model_name, profile)]] after loading [all_items]. *)
Definition load_completed (model_name : string) (all_items : list dict)
  : option (gset string) :=
  st ← resume_loop model_name resume_start all_items;
  Some (completed_ids st).

(** [cleaned_items]. *)
Definition load_cleaned (model_name : string) (all_items : list dict)
  : option (list dict) :=
  st ← resume_loop model_name resume_start all_items;
  Some (map snd (question_id_to_item st)).

End Store.

(** ** main.py: fair-share allocation of the worker budget *)

Module Scheduler.

(** What [main] computes between reading [EVAL_WORKERS] and starting the
    outer pool. [unused] is the argument of the warning that is logged when
    the effective total is below the budget; [fully_used] is the info line. *)
Record allocation := {
  workers : Z;
  combo_workers : Z;
  actual_per_combo : Z;
  actual_total_workers : Z;
  unused : option Z;
  fully_used : bool
}.

(** [int(workers) if str(workers).strip() else 1], [ValueError] gives 1,
    and [workers <= 0] gives 1. [None] is an unset, blank or ill-formed
    environment variable. *)
Definition parse_workers (env : option Z) : Z :=
  let w := match env with Some w => w | None => 1 end in
  if w <=? 0 then 1 else w.

(** Lines 487-525 of main.py. [//] is floor division; division by zero
    raises [ZeroDivisionError]. *)
Definition allocate (workers : Z) (num_combos : Z) : option allocation :=
  if num_combos =? 0 then None else
  let per_combo_workers := Z.max 1 (workers / num_combos) in
  let '(combo_workers, actual_per_combo) :=
    if per_combo_workers * num_combos <=? workers
    then (num_combos, per_combo_workers)
    else
      let cw := Z.max 1 (workers / per_combo_workers) in
      (cw, Z.max 1 (workers / cw)) in
  let actual_total_workers := combo_workers * actual_per_combo in
  Some {| workers := workers;
          combo_workers := combo_workers;
          actual_per_combo := actual_per_combo;
          actual_total_workers := actual_total_workers;
          unused := if actual_total_workers <? workers
                    then Some (workers - actual_total_workers) else None;
          fully_used := actual_total_workers =? workers |}.

(** [combos = [(m, p) for m in enabled_models for p in profiles]]. *)
Definition combos (enabled_models profiles : list string) : list (string * string) :=
  m ← enabled_models; p ← profiles; [(m, p)].

Definition schedule (env : option Z) (enabled_models profiles : list string)
  : option allocation :=
  allocate (parse_workers env) (Z.of_nat (length (combos enabled_models profiles))).

End Scheduler.

(** ** main.py: the input items and the output path *)

From Stdlib Require DecimalString.

Module Intake.
Import Py.

(** [item.get("question_id") or item.get("id", "")] as the key of the set
    [seen_question_ids]: [Some ""] when it is false, [Some s] for a string.
    [None] stands for any other value; such items are outside this model. *)
Definition item_key (item : dict) : option string :=
  match dict_get item "question_id" with
  | Some (VStr (String c s)) => Some (String c s)
  | Some v =>
      if truthy v then None
      else match get_default item "id" (VStr "") with
           | VStr s => Some s
           | v' => if truthy v' then None else Some ""
           end
  | None =>
      match get_default item "id" (VStr "") with
      | VStr s => Some s
      | v' => if truthy v' then None else Some ""
      end
  end.

(** The loop of lines 52-65: [(deduplicated_items, duplicate_count)]. *)
Fixpoint dedup_items (seen_question_ids : gset string) (items : list dict)
  : option (list dict * nat) :=
  match items with
  | [] => Some ([], O)
  | item :: rest =>
      item_id ← item_key item;
      if negb (String.eqb item_id "") then
        if decide (item_id ∈ seen_question_ids) then
          r ← dedup_items seen_question_ids rest;
          Some (fst r, S (snd r))
        else
          r ← dedup_items ({[item_id]} ∪ seen_question_ids) rest;
          Some (item :: fst r, snd r)
      else
        r ← dedup_items seen_question_ids rest;
        Some (item :: fst r, snd r)
  end.

Definition deduplicate_input (items : list dict) : option (list dict * nat) :=
  dedup_items ∅ items.

(** A path as [pathlib] splits it: [parent / (stem + suffix)]. *)
Record path := { parent : string; stem : string; suffix : string }.

(** [f"{base_name}_v{counter}{ext}"] under [dir_path]; [str(counter)] is the
    decimal numeral. *)
Definition versioned (original_path : path) (counter : nat) : path :=
  {| parent := parent original_path;
     stem := stem original_path ++ "_v"
             ++ DecimalString.NilEmpty.string_of_uint (Nat.to_uint counter);
     suffix := suffix original_path |}.

Section Versions.

(** [Path.exists]. *)
Variable path_exists : path -> bool.

(** The [while True] loop of [get_next_version_path]; [None] is fuel
    running out. *)
Fixpoint next_version (fuel : nat) (original_path : path) (counter : nat)
  : option path :=
  match fuel with
  | O => None
  | S fuel' =>
      let new_path := versioned original_path counter in
      if negb (path_exists new_path) then Some new_path
      else next_version fuel' original_path (S counter)
  end.

(** [get_next_version_path]. *)
Definition get_next_version_path (fuel : nat) (original_path : path) : option path :=
  if negb (path_exists original_path) then Some original_path
  else next_version fuel original_path 2.

End Versions.

End Intake.
(** ** result_utils.py: the text shown as [process] *)

Module ProcessText.
Import Py.

(** Where [re.sub] stands while it removes the matches of
    [prefix.*?\}] (with [re.DOTALL]): scanning, or inside a match with
    [n] characters of the prefix still to pass, then the body up to the first
    closing brace. *)
Inductive sub_state :=
| Scan
| Drop (n : nat).

(** [s] holds a closing brace. *)
Definition has_close (s : string) : bool :=
  match find "}" s 0 with Some _ => true | None => false end.

(** [re.sub(prefix + r".*?\}", "", s, flags=re.DOTALL)] for a literal
    [prefix] that is not empty. A match starts at the leftmost position
    where the prefix occurs with a closing brace somewhere after it, and ends
    at the first such brace; the search goes on after the match. *)
Fixpoint re_sub (prefix : string) (s : string) (st : sub_state) : string :=
  match s with
  | EmptyString => EmptyString
  | String c s' =>
      match st with
      | Scan =>
          if startswith prefix s && has_close (skip (String.length prefix) s)
          then re_sub prefix s' (Drop (String.length prefix - 1))
          else String c (re_sub prefix s' Scan)
      | Drop (S n) => re_sub prefix s' (Drop n)
      | Drop O =>
          if Ascii.eqb c "}" then re_sub prefix s' Scan
          else re_sub prefix s' (Drop O)
      end
  end.

(** The two patterns: [r"\\\\boxed\{.*?\}"] matches two backslashes before
    [boxed], [r"\\boxed\{.*?\}"] one. *)
Definition double_marker : string := "\\boxed{".
Definition single_marker : string := "\boxed{".

(** [strip_boxed_content]. *)
Definition strip_boxed_content (text : string) : string :=
  match text with
  | EmptyString => EmptyString
  | _ =>
      let cleaned := re_sub double_marker text Scan in
      let cleaned := re_sub single_marker cleaned Scan in
      strip cleaned
  end.

(** [r.strip()] when [r] is a string that is not blank. *)
Definition stripped_text (r : option value) : option string :=
  match r with
  | Some (VStr s) => if String.eqb (strip s) "" then None else Some (strip s)
  | _ => None
  end.

(** The texts collected from a [reasoning_details] list. *)
Fixpoint detail_texts (rd : list value) : list string :=
  match rd with
  | [] => []
  | VDict d :: rest =>
      match stripped_text (dict_get d "text") with
      | Some t => t :: detail_texts rest
      | None => detail_texts rest
      end
  | VStr s :: rest =>
      match stripped_text (Some (VStr s)) with
      | Some t => t :: detail_texts rest
      | None => detail_texts rest
      end
  | _ :: rest => detail_texts rest
  end.

(** [sep.join(parts)]. *)
Fixpoint join (sep : string) (parts : list string) : string :=
  match parts with
  | [] => ""
  | [p] => p
  | p :: rest => p ++ sep ++ join sep rest
  end.

Definition blank_line : string := String "010" (String "010" "").

(** The body of the [try]: [None] is an exception, which the handler turns
    into an empty [reasoning_text]. *)
Definition try_reasoning (raw_response : option value) : option string :=
  match raw_response with
  | Some (VDict raw) =>
      let choices := get_default raw "choices" VNone in
      if truthy choices then
        match choices with
        | VList (VDict first :: _) =>
            let message := get_default first "message" VNone in
            match (if truthy message then message else VDict []) with
            | VDict msg =>
                match stripped_text (dict_get msg "reasoning") with
                | Some r => Some r
                | None =>
                    match stripped_text (dict_get msg "reasoning_content") with
                    | Some rc => Some rc
                    | None =>
                        match dict_get msg "reasoning_details" with
                        | Some (VList rd) =>
                            match detail_texts rd with
                            | [] => Some ""
                            | texts => Some (join blank_line texts)
                            end
                        | rd =>
                            match stripped_text rd with
                            | Some t => Some t
                            | None => Some ""
                            end
                        end
                    end
                end
            | _ => None
            end
        | _ => None
        end
      else Some ""
  | _ => Some ""
  end.

Definition reasoning_text (model_data : dict) : string :=
  match try_reasoning (dict_get model_data "raw_response") with
  | Some t => t
  | None => ""
  end.

(** The two headings, as the bytes of their UTF-8 encoding; they are only
    ever put in front of a text. *)
Definition thinking_heading : string := "【思考】" ++ String "010" "".
Definition answer_heading : string := "【回答】" ++ String "010" "".

(** [build_process_value]. [None] is the [TypeError] of [re.sub] on a
    [model_answer] that is true and not a string. *)
Definition build_process_value (model_answer : value) (model_data : dict)
  : option string :=
  base_text ← (match model_answer with
               | VStr s => Some s
               | v => if truthy v then None else Some ""
               end);
  let non_box_text := strip_boxed_content base_text in
  let reasoning := reasoning_text model_data in
  let parts :=
    ((if String.eqb reasoning "" then []
      else [String.append thinking_heading reasoning])
     ++ (if String.eqb non_box_text "" then []
         else [String.append answer_heading non_box_text]))%list in
  match parts with
  | [] => Some base_text
  | _ => Some (join blank_line parts)
  end.

End ProcessText.
(** ** model_api.py and evaluator.py: how an image is sent *)

Module Media.
Import Py Converter.

(** [s.replace('.', '')]. *)
Fixpoint remove_dots (s : string) : string :=
  match s with
  | EmptyString => EmptyString
  | String c s' => if Ascii.eqb c "." then remove_dots s' else String c (remove_dots s')
  end.

Section Format.

(** [Path(image_path).suffix] of [pathlib]. *)
Variable path_suffix : string -> string.

(** The three entries of [EVAL_CONFIG] read for a single image in a
    single-round request. *)
Variable compress_single_image_single_round : bool.
Variable image_compress_max_longest_side : Z.
Variable image_compress_quality : Z.

(** [get_image_format]. *)
Definition get_image_format (image_path : string) : string :=
  let suffix := remove_dots (lower (path_suffix image_path)) in
  if String.eqb suffix "jpg" then "jpeg"
  else if existsb (String.eqb suffix) ["jpeg"; "png"; "webp"; "gif"] then suffix
       else "jpeg".

(** [_determine_image_compression_settings]:
    [(should_compress, max_longest_side, quality)]. *)
Definition _determine_image_compression_settings (image_paths : list string)
  (is_multi_round : bool) : bool * Z * Z :=
  match image_paths with
  | [] => (false, 1600, 92)
  | _ =>
      if (1 <? length image_paths)%nat then (true, 512, 85)
      else if is_multi_round then (true, 1024, 92)
           else (compress_single_image_single_round,
                 image_compress_max_longest_side,
                 image_compress_quality)
  end.

(** The format named in the data URL that evaluator.py builds for a local
    file in a round of a multi-round task (lines 326-350). *)
Definition evaluator_image_format (image_paths : list string) (image_path : string)
  : string :=
  let '(should_compress, max_longest_side, quality) :=
    _determine_image_compression_settings image_paths true in
  if should_compress && (max_longest_side =? 1280) && (quality =? 85)
  then "jpeg" else get_image_format image_path.

(** The format named in the data URL that [call_model_api] builds (lines
    381-402 and 424-446). *)
Definition api_image_format (image_paths : list string) (is_multi_round : bool)
  (image_path : string) : string :=
  let '(should_compress, _, _) :=
    _determine_image_compression_settings image_paths is_multi_round in
  if should_compress then "jpeg" else get_image_format image_path.

(** The [compress] argument with which [encode_image] is called at either
    place; a compressed image is saved as JPEG. *)
Definition encoded_compressed (image_paths : list string) (is_multi_round : bool)
  : bool :=
  let '(should_compress, _, _) :=
    _determine_image_compression_settings image_paths is_multi_round in
  should_compress.

End Format.

(** [estimate_image_tokens] for a known size: patches of 14 pixels, rounded
    up, and 128 tokens of overhead. *)
Definition estimate_image_tokens (width height : Z) : Z :=
  let patches_w := (width + 13) / 14 in
  let patches_h := (height + 13) / 14 in
  patches_w * patches_h + 128.

End Media.

(** ** evaluator.py: reading an item *)

From Stdlib Require DecimalNat Sorted.

Module Item.
Import Py Conversation Evaluator.

(** [sep in s] for a one-character [sep]. *)
Fixpoint has_char (sep : ascii) (s : string) : bool :=
  match s with
  | EmptyString => false
  | String c s' => Ascii.eqb c sep || has_char sep s'
  end.

(** [s.split(sep)] for a one-character [sep]: one more part than there are
    separators, empty parts included. *)
Fixpoint split (sep : ascii) (s : string) : list string :=
  match s with
  | EmptyString => [EmptyString]
  | String c s' =>
      if Ascii.eqb c sep then EmptyString :: split sep s'
      else match split sep s' with
           | w :: ws => String c w :: ws
           | [] => [String c EmptyString]
           end
  end.

(** [[path.strip() for path in raw.split(sep) if path.strip()]]. *)
Definition stripped_parts (sep : ascii) (raw : string) : list string :=
  map strip
    (List.filter (fun path => negb (String.eqb (strip path) "")) (split sep raw)).

(** Why an item is given up before any model is asked: the exception raised
    inside the [try] of [evaluate_single_item], without its message.
    [FileNotFoundError] carries [missing_local_images]; [InvalidLiteral] is
    the [ValueError] of [int]; [AttributeError] is [question.keys()] on an
    object that is no dict; the last three are the [ValueError]s of the
    options check, [RoundWithoutOptions] with the round it names. *)
Inductive failure :=
| FileNotFoundError (missing_local_images : list string)
| AttributeError
| InvalidLiteral (text : string)
| NoOptions
| RoundWithoutOptions (round_key : string)
| SharedOptionsInvalid
| ChoiceWithoutOptions.

Inductive checked (A : Type) :=
| Passed (a : A)
| Failed (e : failure).
Arguments Passed {A} a.
Arguments Failed {A} e.

Section Reading.

(** [str(x)] for an object that is not a string. *)
Variable repr : value -> string.
(** [os.path.exists]. *)
Variable path_exists : string -> bool.
(** [EVAL_CONFIG.get("skip_missing_images", False)]. *)
Variable skip_missing_images : bool.

Definition str (x : value) : string :=
  match x with VStr s => s | _ => repr x end.

(** Lines 58-79: the list bound to [image_paths] for [item["image_path"]]. *)
Definition paths_of_raw (image_path_raw : value) : list value :=
  if truthy image_path_raw then
    match image_path_raw with
    | VList l => l
    | VStr s =>
        if has_char ";" s then map VStr (stripped_parts ";" s)
        else if has_char "," s then map VStr (stripped_parts "," s)
        else if negb (String.eqb (strip s) "") then [VStr (strip s)] else []
    | other => if truthy other then [VStr (str other)] else []
    end
  else [].

(** That list is the item's own list object when [image_path] holds a
    non-empty list (line 64), a fresh list otherwise. *)
Definition is_own_list (image_path_raw : value) : bool :=
  truthy image_path_raw &&
  match image_path_raw with VList _ => true | _ => false end.

(** Lines 82-88: [extend] or [append] with [item["image_urls"]]. *)
Definition with_urls (image_paths : list value) (image_urls : value)
  : list value :=
  if truthy image_urls then
    match image_urls with
    | VList l => image_paths ++ l
    | _ => image_paths ++ [image_urls]
    end
  else image_paths.

(** Lines 58-88 on the shared item: the list in [image_paths] when line 91 is
    reached, and the item as the call leaves it. [extend] and [append] work
    in place, so they also change the list held by the item when the two are
    one object. *)
Definition gather (item : dict) : dict * list value :=
  let image_path_raw := get_default item "image_path" (VStr "") in
  let image_paths := paths_of_raw image_path_raw in
  let image_urls := get_default item "image_urls" (VList []) in
  let image_paths' := with_urls image_paths image_urls in
  (if is_own_list image_path_raw && truthy image_urls
   then dict_set item "image_path" (VList image_paths')
   else item,
   image_paths').

(** [path and str(path).strip()] (line 91). *)
Definition nonblank (path : value) : bool :=
  truthy path && negb (String.eqb (strip (str path)) "").

(** The test of lines 94-99. *)
Definition is_missing (path : value) : bool :=
  match path with
  | VStr p => negb (is_http p) && negb (path_exists p)
  | _ => false
  end.

(** [missing_local_images]: strings only. *)
Fixpoint missing_local_images (image_paths : list value) : list string :=
  match image_paths with
  | [] => []
  | path :: rest =>
      match path with
      | VStr p =>
          if is_missing path then p :: missing_local_images rest
          else missing_local_images rest
      | _ => missing_local_images rest
      end
  end.

(** [path in missing_local_images]: an object that is not a string equals
    no string. *)
Definition is_in (path : value) (l : list string) : bool :=
  match path with
  | VStr p => existsb (String.eqb p) l
  | _ => false
  end.

(** Lines 91-117. *)
Definition checked_image_paths (image_paths : list value)
  : checked (list value) :=
  let image_paths := List.filter nonblank image_paths in
  let missing := missing_local_images image_paths in
  match missing with
  | [] => Passed image_paths
  | _ :: _ =>
      if skip_missing_images
      then Passed (List.filter (fun path => negb (is_in path missing)) image_paths)
      else Failed (FileNotFoundError missing)
  end.

End Reading.

(** *** Rounds *)

Definition is_round_key (k : string) : bool := startswith "round" k.

(** [[k for k in d.keys() if k.startswith("round")]]. *)
Definition round_keys_in (d : dict) : list string :=
  List.filter is_round_key (map fst d).

(** [if l:] for a list. *)
Definition some {A : Type} (l : list A) : bool :=
  match l with [] => false | _ :: _ => true end.

(** Lines 120-146: [is_multi_round] as the rest of the function tests it. *)
Definition detect_multi_round (flag question answer : value) : bool :=
  if truthy flag then true
  else
    match question, answer with
    | VDict q, VDict a =>
        if truthy question && truthy answer then
          let round_keys_in_question := round_keys_in q in
          let round_keys_in_answer := round_keys_in a in
          if some round_keys_in_question && some round_keys_in_answer
          then existsb (fun k => existsb (String.eqb k) round_keys_in_answer)
                       round_keys_in_question
          else if some round_keys_in_question then true
          else false
        else false
    | _, _ => false
    end.

(** [s.replace(old, "")] for a non-empty [old]; [drop] counts the characters
    of the current occurrence that are still to be left out. *)
Fixpoint remove_from (old s : string) (drop : nat) : string :=
  match s with
  | EmptyString => EmptyString
  | String c s' =>
      match drop with
      | S d => remove_from old s' d
      | O =>
          if startswith old s then remove_from old s' (String.length old - 1)
          else String c (remove_from old s' 0)
      end
  end.

Definition remove_all (old s : string) : string := remove_from old s 0.

(** [x.replace("round", "")]. *)
Definition remove_round (x : string) : string := remove_all "round" x.

(** [c.isdigit()] for a code point below 256: the decimal digits and the
    superscripts two, three and one. *)
Definition isdigit_char (c : ascii) : bool :=
  let n := nat_of_ascii c in
  ((48 <=? n) && (n <=? 57) || (n =? 178) || (n =? 179) || (n =? 185))%nat.

Fixpoint all_digits (s : string) : bool :=
  match s with
  | EmptyString => true
  | String c s' => isdigit_char c && all_digits s'
  end.

(** [s.isdigit()]. *)
Definition isdigit (s : string) : bool :=
  negb (String.eqb s "") && all_digits s.

(** [int(s)] for a text that passed [isdigit]: the superscripts are no
    decimal digits, on them [int] raises [ValueError]. *)
Definition int (s : string) : option nat :=
  option_map Nat.of_uint (DecimalString.NilEmpty.uint_of_string s).

(** The sort key of lines 185-188 and 270-273. *)
Definition round_number (x : string) : option nat :=
  let text := remove_round x in
  if isdigit text then int text else Some 999%nat.

(** [sorted(l, key=...)] on computed keys: ascending, equal keys in their
    first order. *)
Fixpoint insert_by_key (x : nat * string) (l : list (nat * string))
  : list (nat * string) :=
  match l with
  | [] => [x]
  | y :: l' =>
      if (fst x <=? fst y)%nat then x :: y :: l' else y :: insert_by_key x l'
  end.

Definition sorted_by_key (l : list (nat * string)) : list (nat * string) :=
  fold_right insert_by_key [] l.

(** The keys with their sort keys, computed from left to right; the first
    key on which [int] raises ends the call. *)
Fixpoint with_numbers (keys : list string) : checked (list (nat * string)) :=
  match keys with
  | [] => Passed []
  | k :: rest =>
      match round_number k with
      | None => Failed (InvalidLiteral (remove_round k))
      | Some n =>
          match with_numbers rest with
          | Passed l => Passed ((n, k) :: l)
          | Failed e => Failed e
          end
      end
  end.

(** [round_keys] of lines 185-188 and 270-273. *)
Definition sorted_round_keys (question : value) : checked (list string) :=
  match question with
  | VDict q =>
      match with_numbers (round_keys_in q) with
      | Passed l => Passed (map snd (sorted_by_key l))
      | Failed e => Failed e
      end
  | _ => Failed AttributeError
  end.

(** [options.get(round_key) if isinstance(options, dict) else None]
    (line 284). *)
Definition round_options_of (options : value) (round_key : string)
  : option value :=
  match options with
  | VDict d => dict_get d round_key
  | _ => None
  end.

(** *** The options check *)

(** The normalised question types, as the bytes of their UTF-8 encoding;
    they are only ever compared. *)
Definition single_choice : string := "单选题".
Definition multiple_choice : string := "多选题".
Definition multi_round_choice : string := "多轮单选题".

(** [is_choice_question], with [CHOICE_QUESTION_TYPES]. *)
Definition is_choice_question (q_type : string) : bool :=
  if String.eqb q_type "" then false
  else String.eqb q_type single_choice || String.eqb q_type multiple_choice
       || String.eqb q_type multi_round_choice.

(** [has_valid_options]; [None] is also what [options.get] gives for an
    absent key. *)
Definition has_valid_options (opts : option value) : bool :=
  match opts with
  | None => false
  | Some (VDict d) => existsb (fun '(_, v) => truthy v) d
  | Some _ => false
  end.

(** The loop of lines 206-211. *)
Fixpoint check_rounds (d : dict) (round_keys : list string) : checked unit :=
  match round_keys with
  | [] => Passed tt
  | round_key :: rest =>
      if negb (has_valid_options (dict_get d round_key))
      then Failed (RoundWithoutOptions round_key)
      else check_rounds d rest
  end.

(** Lines 183-226, [options] being [item.get("options")]. *)
Definition check_options (normalized_question_type : string)
  (is_multi_round : bool) (question options : value) : checked unit :=
  if is_multi_round then
    match sorted_round_keys question with
    | Failed e => Failed e
    | Passed round_keys =>
        if String.eqb normalized_question_type multi_round_choice then
          match options with
          | VDict d =>
              if negb (truthy options) then Failed NoOptions
              else if existsb is_round_key (map fst d)
              then check_rounds d round_keys
              else if negb (has_valid_options (Some options))
                   then Failed SharedOptionsInvalid
                   else Passed tt
          | _ => Failed NoOptions
          end
        else Passed tt
    end
  else if is_choice_question normalized_question_type then
    if negb (has_valid_options (Some options))
    then Failed ChoiceWithoutOptions
    else Passed tt
  else Passed tt.

End Item.

(** ** logger.py: what the detailed log keeps of a conversation *)

Module Logger.
Import Py Conversation.

(** A content part of a logged turn: a part kept as it is, or
    [{"type": "image_path", "image_path": ...}]. *)
Inductive log_part :=
| Kept (text : string)
| ImagePath (image_path : string).

Inductive log_content :=
| LogParts (l : list log_part)
| LogPlain (s : string).

Record log_message := { log_role : role; log_content_of : log_content }.

Definition is_base64_image (image_url : string) : bool :=
  startswith "data:image/" image_url.

(** The placeholder of lines 62-68. *)
Definition placeholder (image_url : string) : string :=
  let format_match :=
    Item.remove_all "data:image/" (hd "" (Item.split ";" image_url)) in
  "[BASE64_IMAGE_DATA_REMOVED - format: " ++ format_match ++ "]".

(** The inner loop (lines 48-77) over one [content] list;
    [image_path_index] is threaded through. *)
Fixpoint sanitize_content (image_paths : list string) (content : list part)
  (image_path_index : nat) : list log_part * nat :=
  match content with
  | [] => ([], image_path_index)
  | Text text :: rest =>
      let (l, i) := sanitize_content image_paths rest image_path_index in
      (Kept text :: l, i)
  | ImageUrl image_url :: rest =>
      if is_base64_image image_url then
        match nth_error image_paths image_path_index with
        | Some image_path =>
            let (l, i) := sanitize_content image_paths rest (S image_path_index) in
            (ImagePath image_path :: l, i)
        | None =>
            let (l, i) := sanitize_content image_paths rest image_path_index in
            (ImagePath (placeholder image_url) :: l, i)
        end
      else
        let (l, i) := sanitize_content image_paths rest image_path_index in
        (ImagePath image_url :: l, i)
  end.

(** The outer loop (lines 42-83). *)
Fixpoint sanitize_from (image_paths : list string) (messages : list message)
  (image_path_index : nat) : list log_message :=
  match messages with
  | [] => []
  | msg :: rest =>
      match msg_content msg with
      | Parts content =>
          let (l, i) := sanitize_content image_paths content image_path_index in
          {| log_role := msg_role msg; log_content_of := LogParts l |}
          :: sanitize_from image_paths rest i
      | Plain s =>
          {| log_role := msg_role msg; log_content_of := LogPlain s |}
          :: sanitize_from image_paths rest image_path_index
      end
  end.

(** [sanitize_messages_for_log]; [image_paths] is [None] when it is not
    given. *)
Definition sanitize_messages_for_log (messages : list message)
  (image_paths : option (list string)) : list log_message :=
  sanitize_from (default [] image_paths) messages 0.

End Logger.

(** ** Vocabulary of the properties *)

Module Spec.
Import Py Extractor ResultUtils Statistics Conversation Evaluator Converter.


(** [marker not in s]. *)
Definition no_marker (s : string) : Prop := find marker s 0 = None.




(** A text of [n] letters. *)
Definition letters (n : nat) : string := string_of_list_ascii (repeat "a"%char n).

(** The question id of a stored record, [""] when it has none. *)
Definition record_id (item : dict) : string :=
  default "" (text_field item "question_id").

(** [has_valid_answer] as a truth value. *)
Definition valid (enabled_models : list string) (item : dict) : bool :=
  default false (has_valid_answer enabled_models item).

(** A record on which the aggregator does not raise. *)
Definition readable (enabled_models : list string) (item : dict) : Prop :=
  is_Some (text_field item "question_id")
  /\ is_Some (has_valid_answer enabled_models item).

Definition has_id (id : string) (item : dict) : bool := String.eqb (record_id item) id.

(** First-non-empty-wins over a list in storage order: the first record of
    [id] with a valid answer, else the first record of [id]. *)
Definition pick (enabled_models : list string) (id : string) (results : list dict)
  : option dict :=
  match List.find (fun item => has_id id item && valid enabled_models item) results with
  | Some item => Some item
  | None => List.find (has_id id) results
  end.

(** A stored single-round record as the converter writes it for model
    [name]: an answer, the time it took and the verdict. *)
Definition stored_record (id name answer : string) (response_time : Q)
  (match_gt : bool) : dict :=
  [("question_id", VStr id);
   ("question", VStr "Which option is right?");
   ("answer", VStr "C");
   ("profile", VStr "expert");
   ("model", VDict [("process", VStr answer);
                    ("answer", VStr answer);
                    ("model_name", VStr name);
                    ("response_time", VFloat response_time);
                    ("match_gt", VBool match_gt);
                    ("judge_reasoning", VStr "")])].

(** A record left by a failed evaluation, and an answered one. *)
Definition empty_record (id : string) : dict := stored_record id "m" "" 0 false.
Definition answered_record (id : string) : dict := stored_record id "m" "C" 1.5 true.






(** *** A sample run

    Collaborators for examples: every file exists, the model answers every
    request with a boxed [A], the judge compares the answer with the
    reference answer and fails on the reference answer [?]. *)
Definition sample_generate (model_name : string) (messages : list message)
  : outcome (string * Q) := Ok ("The answer is \boxed{A}", 1.5%Q).

Definition sample_judge (model_answer : string) (gt_answer : value)
  (question : string) (options : option value) : outcome (bool * string * Q) :=
  match gt_answer with
  | VStr "?" => Raise "judge: retries exhausted"
  | VStr gt => Ok (String.eqb model_answer gt, "compared", 0.5%Q)
  | _ => Ok (false, "compared", 0.5%Q)
  end.

Definition sample_evaluate (item : question_item) : dict :=
  evaluate_single_item (fun _ => None) (fun _ => true) (fun p => p) (fun p => p)
    (fun profile question options question_type => question)
    (fun question options => question)
    sample_generate sample_judge item ["m"] ["expert"].

Definition sample_convert (result : dict) : option (option dict) :=
  convert_to_module2_format
    (fun model_answer model_data =>
       match model_answer with VStr s => s | _ => "" end)
    (fun _ => true) result "m" "expert".

Definition sample_round (key : string) (reference : string) : round :=
  {| round_key := key; round_question := "Which one?";
     round_answer := VStr reference; round_options := None |}.

Definition sample_item (id : string) (rounds : list round) : question_item :=
  {| item_id := id; question := ""; answer := VNone; options := VNone;
     question_type := "multi_round"; image_paths := ["chart.png"];
     is_multi_round := true; rounds := rounds;
     tags := [("difficulty", VStr "hard")] |}.

(** Three rounds whose verdicts are true, false, true. *)
Definition three_rounds : question_item :=
  sample_item "q7" [sample_round "round1" "A"; sample_round "round2" "B";
                    sample_round "round3" "A"].

(** The score of the stored record of model [m] in the given mode. *)
Definition sample_score (count_by_rounds : bool) (stored : option (option dict))
  : option (nat * nat) :=
  match stored with
  | Some (Some record) =>
      match dict_get record "model" with
      | Some (VDict model) => Some (_count_item count_by_rounds record "model" model "m")
      | _ => None
      end
  | _ => None
  end.



(** A single-round sample question with its reference answer. *)
Definition sample_question (id reference : string) : question_item :=
  {| item_id := id; question := "Which one?"; answer := VStr reference;
     options := VNone; question_type := "qa"; image_paths := [];
     is_multi_round := false; rounds := [];
     tags := [("difficulty", VStr "hard")] |}.

(** A task of two rounds whose second round fails in the judge. *)
Definition second_round_fails : question_item :=
  sample_item "q9" [sample_round "round1" "A"; sample_round "round2" "?"].

(** The stored records of a sample run, as the artifact lists them. *)
Definition stored_records (item : question_item) : list dict :=
  match sample_convert (sample_evaluate item) with
  | Some (Some record) => [record]
  | _ => []
  end.

(** The number of turns that carry a media reference. *)
Definition media_turns (conversation : list message) : nat :=
  length (List.filter has_media conversation).

(** Media, if any, sit in the first turn, which is a user turn. *)
Definition media_only_first (conversation : list message) : Prop :=
  match conversation with
  | [] => True
  | first :: rest =>
      is_user first = true /\ Forall (fun m => has_media m = false) rest
  end.

(** Some path of the item yields a media reference: it is a URL or a file
    that exists. *)
Definition available (path_exists : string -> bool) (image_paths : list string)
  : bool :=
  existsb (fun p => is_http p || path_exists p) image_paths.

(** The first turn carries media. *)
Definition first_has_media (conversation : list message) : Prop :=
  match conversation with
  | [] => False
  | first :: _ => has_media first = true
  end.

(** The attempts of the three rounds of the sample task, with a chart that
    exists on disk. *)
Definition sample_attempts : list attempt :=
  try_rounds (fun _ => None) (fun _ => true) (fun p => p) (fun p => p)
    (fun profile question options question_type => question)
    (fun question options => question)
    sample_generate sample_judge
    "expert" "multi_round" "m" ["chart.png"] [] (rounds three_rounds).

Definition third_attempt : attempt :=
  nth 2 sample_attempts
    {| attempted := Raise ""; history_left := []; messages_built := [];
       response_time_spent := 0 |}.

(** What holds of the committed history between two rounds: media only in
    the first turn, whose content is a list, and which lacks media only
    when no path yields any. *)
Definition history_inv (path_exists : string -> bool) (image_paths : list string)
  (history : list message) : Prop :=
  media_only_first history /\
  match history with
  | [] => True
  | first :: _ =>
      (exists l, msg_content first = Parts l) /\
      (has_media first = false -> available path_exists image_paths = false)
  end.

(** The target of a rewrite is as it was before. *)
Definition untouched (output_file : string) (before now : Store.files) : Prop :=
  now !! output_file = before !! output_file.

(** The target is as it was before, or holds the complete replacement. *)
Definition old_or_whole (output_file text : string) (before now : Store.files)
  : Prop :=
  now !! output_file = before !! output_file \/ now !! output_file = Some text.

(** The write of the temporary file and the replacement both go through. *)
Definition went_through (o : Store.io) : bool :=
  match Store.write o with
  | Store.WriteOk => Store.replace_ok o
  | _ => false
  end.

(** Something was added to the log. *)
Definition reported (before after : list Store.event) : Prop :=
  exists e es, after = (before ++ e :: es)%list.

(** What a rewrite of [output_file] leaves behind: the buffers as they were,
    and either the target replaced as a whole in the last step, or the
    target as it was in every state and a line in the log. *)
Definition safe_rewrite (output_file : string) (o : Store.io) (st : Store.state)
  (result : list Store.files * Store.state) : Prop :=
  let '(seen, st') := result in
  Store.fs st' = List.last seen (Store.fs st) /\
  Store.result_buffers st' = Store.result_buffers st /\
  ((went_through o = true /\
    Store.log st' = Store.log st /\
    exists before text,
      seen = (before ++ [Store.fs st'])%list /\
      Forall (untouched output_file (Store.fs st)) before /\
      Store.fs st' !! output_file = Some text)
   \/
   (Forall (untouched output_file (Store.fs st)) seen /\
    untouched output_file (Store.fs st) (Store.fs st') /\
    reported (Store.log st) (Store.log st'))).

(** A store with one artifact and one buffered record, and a write of the
    temporary file that breaks after three characters. *)
Definition sample_store : Store.state :=
  {| Store.fs := {["out.json" := "previous document"]};
     Store.result_buffers := {[("m", "expert") := [answered_record "q1"]]};
     Store.log := [] |}.

Definition sample_output_files : gmap (string * string) string :=
  {[("m", "expert") := "out.json"]}.

Definition torn_write : Store.io :=
  {| Store.write := Store.WriteFails 3; Store.replace_ok := true |}.

Definition sample_flush (o : Store.io)
  : option (list Store.files * Store.state) :=
  Store.flush_json_buffer
    (fun _ => Some (VDict [("statistics", VDict []); ("results", VList [])]))
    (fun _ => "replacement document") String.length (fun _ => "whole item")
    false ["m"] sample_store sample_output_files "m" "expert" o.

(** No opening brace occurs in the text. *)
Definition brace_free (s : string) : Prop :=
  Forall (fun c => c <> "{"%char) (list_ascii_of_string s).

(** [s] ends where [t] ends: [s = p ++ t] for some [p]. *)
Definition suffix_of (t s : string) : Prop := exists p, s = p ++ t.

(** A row whose numerator does not exceed its denominator, and whose
    accuracy is then a fraction between 0 and 1. *)
Definition sound (c : counts) : Prop :=
  (correct_count c <= total_count c)%nat /\ (0 <= accuracy c <= 1)%Q.

Definition sound_rows (rows : list (string * counts)) : Prop :=
  Forall (fun r => sound (snd r)) rows.

(** Some record stored before has the id of [r] and a valid answer. *)
Definition already_answered (enabled_models : list string) (results : list dict)
  (r : dict) : Prop :=
  exists x, In x results /\ record_id x = record_id r /\ valid enabled_models x = true.
(** The answer of model [model_name] in a stored record is not empty, as
    the resume loop tests it. *)
Definition answered (model_name : string) (item : dict) : bool :=
  negb (is_answer_empty item None (Some model_name)).

(** Among the records of [id] in storage order: the first one with an
    answer, else the first one. *)
Definition first_answered (model_name id : string) (all_items : list dict)
  : option dict :=
  match List.find (fun item => has_id id item && answered model_name item) all_items with
  | Some item => Some item
  | None => List.find (has_id id) all_items
  end.

(** The records that carry a question id. *)
Definition identified (all_items : list dict) : list dict :=
  List.filter (fun item => negb (String.eqb (record_id item) "")) all_items.
(** The document a flush starts from (result_converter.py 259-262): the
    parsed artifact, or an empty document when the artifact is absent or has
    no byte. *)
Definition existing_document (json_load : string -> option value)
  (file_size : string -> nat) (fs : Store.files) (output_file : string)
  : option value :=
  match fs !! output_file with
  | Some text =>
      if (0 <? file_size text)%nat then json_load text
      else Some (VDict [("statistics", VDict []); ("results", VList [])])
  | None => Some (VDict [("statistics", VDict []); ("results", VList [])])
  end.

(** A line of a line-oriented artifact: no line break inside, no space at
    either end, not empty. *)
Definition one_line (s : string) : Prop :=
  Forall (fun c => c <> "010"%char) (list_ascii_of_string s)
  /\ strip s = s /\ s <> "".
(** A line codec for the examples: a record is written as its question id
    between braces, and read back from that. *)
Definition sample_dumps (v : value) : string :=
  match v with
  | VDict (("question_id", VStr id) :: _) => "{" ++ id ++ "}"
  | _ => "{}"
  end.

Definition sample_loads (line : string) : option value :=
  match line with
  | String "{" rest =>
      match rest with
      | "}" => None
      | _ => Some (VDict (stored_record (take (String.length rest - 1) rest)
                            "m" "C" 1.5 true))
      end
  | _ => None
  end.

(** A line-oriented artifact with its header and two records. *)
Definition sample_lines : Store.state :=
  {| Store.fs := {["out.jsonl" :=
                     "{}" ++ String "010" ("{q1}" ++ String "010" ("{q2}" ++ String "010" ""))]};
     Store.result_buffers := ∅;
     Store.log := [] |}.

(** The roles of [n] completed exchanges: user, assistant, [n] times. *)
Fixpoint dialogue (n : nat) : list role :=
  match n with
  | O => []
  | S n' => User :: Assistant :: dialogue n'
  end.

(** A user turn holds a list of parts, an assistant turn a plain string. *)
Definition well_formed_turn (m : message) : Prop :=
  match msg_role m, msg_content m with
  | User, Parts _ => True
  | Assistant, Plain _ => True
  | _, _ => False
  end.

(** The history between two rounds: [n] completed exchanges, media in the
    first turn only. *)
Definition exchanges (path_exists : string -> bool) (image_paths : list string)
  (n : nat) (history : list message) : Prop :=
  history_inv path_exists image_paths history /\
  map msg_role history = dialogue n /\
  Forall well_formed_turn history.

(** The key of an input item, [""] when it has none. *)
Definition input_key (item : dict) : string := default "" (Intake.item_key item).

Definition has_key_of (id : string) (item : dict) : bool :=
  String.eqb (input_key item) id.

(** The keys of the items that have one. *)
Definition input_keys (items : list dict) : list string :=
  List.filter (fun k => negb (String.eqb k "")) (map input_key items).

(** A directory that holds [eval.json] and [eval_v2.json]. *)
Definition sample_exists (p : Intake.path) : bool :=
  String.eqb (Intake.stem p) "eval" || String.eqb (Intake.stem p) "eval_v2".

Definition sample_path : Intake.path :=
  {| Intake.parent := "outputs/expert/m"; Intake.stem := "eval";
     Intake.suffix := ".json" |}.

(** The media reference that the conversation builder makes of a path. *)
Definition image_part_of (data_url : string -> string) (p : string) : part :=
  ImageUrl (if is_http p then p else data_url p).

(** A path that the evaluation can use: not blank, and remote or present. *)
Definition usable (repr : value -> string) (path_exists : string -> bool)
  (path : value) : bool :=
  Item.nonblank repr path && negb (Item.is_missing path_exists path).

(** A path as a data file writes it into a [;]-separated cell. *)
Definition clean_path (p : string) : Prop :=
  strip p = p /\ p <> "" /\ Item.has_char ";" p = false.

(** The item after [n] evaluations, one after the other. *)
Fixpoint after_calls (repr : value -> string) (n : nat) (item : dict) : dict :=
  match n with
  | O => item
  | S n' => fst (Item.gather repr (after_calls repr n' item))
  end.

(** [urls] taken [n] times. *)
Fixpoint times {A : Type} (n : nat) (urls : list A) : list A :=
  match n with
  | O => []
  | S n' => times n' urls ++ urls
  end.

(** The key of round [n]: [round1], [round2], ... *)
Definition round_named (n : nat) : string :=
  "round" ++ DecimalString.NilEmpty.string_of_uint (Nat.to_uint n).

(** The superscripts two, three and one. *)
Definition superscript (c : ascii) : bool :=
  let n := nat_of_ascii c in ((n =? 178) || (n =? 179) || (n =? 185))%nat.

Fixpoint has_superscript (s : string) : bool :=
  match s with
  | EmptyString => false
  | String c s' => superscript c || has_superscript s'
  end.

(** Ascending sort keys. *)
Definition by_number (a b : nat * string) : Prop := (fst a <= fst b)%nat.

(** The keys of a list bear their sort keys. *)
Definition numbered (l : list (nat * string)) : Prop :=
  List.Forall (fun x => Item.round_number (snd x) = Some (fst x)) l.

(** The paths that a logged conversation names, in order. *)
Definition part_paths (l : list Logger.log_part) : list string :=
  flat_map (fun p => match p with
                     | Logger.ImagePath s => [s]
                     | Logger.Kept _ => []
                     end) l.

Definition logged_paths (log : list Logger.log_message) : list string :=
  flat_map (fun m => match Logger.log_content_of m with
                     | Logger.LogParts l => part_paths l
                     | Logger.LogPlain _ => []
                     end) log.

(** The media references of a conversation, in order. *)
Definition part_images (content : list part) : list string :=
  flat_map (fun p => match p with ImageUrl url => [url] | Text _ => [] end)
           content.

Definition images (messages : list message) : list string :=
  flat_map (fun m => match msg_content m with
                     | Parts content => part_images content
                     | Plain _ => []
                     end) messages.

(** No encoded image among the texts. *)
Definition no_base64 (l : list string) : Prop :=
  List.Forall (fun p => Logger.is_base64_image p = false) l.

End Spec.

(** * Properties *)

Import Py Extractor ResultUtils Statistics Conversation Evaluator Converter Spec.

(** ** Strings *)

Section StringFacts.

Lemma append_assoc (a b c : string) : (a ++ b) ++ c = a ++ (b ++ c).
Proof. induction a; simpl; congruence. Qed.

Lemma length_append (a b : string) :
  String.length (a ++ b) = (String.length a + String.length b)%nat.
Proof. induction a; simpl; congruence. Qed.

Lemma skip_append (a s : string) : skip (String.length a) (a ++ s) = s.
Proof. induction a; simpl; auto. Qed.


Lemma skip_skip (n m : nat) (s : string) : skip n (skip m s) = skip (m + n) s.
Proof.
  revert s; induction m; intros s; simpl; auto.
  destruct s; simpl; auto. destruct n; reflexivity.
Qed.





Lemma startswith_length sub s :
  startswith sub s = true -> (String.length sub <= String.length s)%nat.
Proof.
  unfold startswith. revert s. induction sub as [|a sub IH]; intros s; simpl.
  - lia.
  - destruct s; simpl; [discriminate|].
    destruct (ascii_dec a a0); [|discriminate].
    intros Hp. apply IH in Hp. lia.
Qed.

Lemma find_at_bounds sub s i pos j :
  find_at sub s i pos = Some j ->
  (pos <= j /\ i <= j /\ j + String.length sub <= i + String.length s)%nat.
Proof.
  revert i; induction s as [|c s IH]; intros i; cbn [find_at].
  - destruct (Nat.leb_spec pos i); cbn [andb]; [|discriminate].
    destruct (startswith sub "") eqn:Hp; [|discriminate].
    apply startswith_length in Hp. intros [= <-]. lia.
  - destruct (Nat.leb_spec pos i); cbn [andb].
    + destruct (startswith sub (String c s)) eqn:Hp.
      * apply startswith_length in Hp. intros [= <-]. lia.
      * intros Hf. apply IH in Hf. simpl. lia.
    + intros Hf. apply IH in Hf. simpl. lia.
Qed.

End StringFacts.

(** ** The structured-marker stage *)

Section BoxedFacts.

Lemma prefix_cons a s1 b s2 :
  String.prefix (String a s1) (String b s2) = Ascii.eqb a b && String.prefix s1 s2.
Proof.
  cbn [String.prefix]. destruct (ascii_dec a b); destruct (Ascii.eqb_spec a b);
    simpl; congruence.
Qed.

Lemma prefix_empty s : String.prefix "" s = true.
Proof. destruct s; reflexivity. Qed.

Lemma prefix_of_empty a s : String.prefix (String a s) "" = false.
Proof. reflexivity. Qed.

(** An occurrence of the marker cannot start before another one and run
    into it: the backslash occurs in the marker only at its start. *)
Lemma marker_no_overlap (x rest : string) :
  x <> "" ->
  startswith marker x = false ->
  startswith marker (x ++ marker ++ rest) = false.
Proof.
  unfold startswith, marker.
  destruct x as [|c1 [|c2 [|c3 [|c4 [|c5 [|c6 [|c7 x]]]]]]]; intros Hne H;
    [congruence|..];
    cbn [String.append] in *;
    rewrite ?prefix_cons, ?prefix_empty, ?prefix_of_empty in *;
    repeat match goal with
           | |- context [Ascii.eqb ?a ?b] =>
               destruct (Ascii.eqb_spec a b); subst; cbn [andb] in *
           end; try discriminate; auto.
Qed.

Lemma startswith_marker rest : startswith marker (marker ++ rest) = true.
Proof.
  unfold startswith, marker. cbn [String.append].
  rewrite !prefix_cons, prefix_empty. reflexivity.
Qed.




Lemma match_close_ge s : forall i depth j,
  match_close s i depth = Some j -> (i <= j)%nat.
Proof.
  induction s as [|c s IH]; intros i depth j; simpl; [discriminate|].
  destruct (Ascii.eqb c "{").
  - intros H. apply IH in H. lia.
  - destruct (Ascii.eqb c "}").
    + destruct depth; [intros [= <-]; lia|]. intros H. apply IH in H. lia.
    + intros H. apply IH in H. lia.
Qed.

(** The loop ends: every turn moves [pos] forward. *)
Lemma boxed_loop_total text : forall fuel pos all_matches,
  (String.length text - pos < fuel)%nat ->
  exists r, boxed_loop fuel text pos all_matches = Some r.
Proof.
  induction fuel as [|fuel IH]; intros pos acc Hf; [lia|].
  simpl. destruct (find marker text pos) as [start_idx|] eqn:Hfind; [|eauto].
  apply find_at_bounds in Hfind. change (String.length marker) with 7%nat in *.
  destruct (match_close _ _ _) as [end_idx|] eqn:Hm.
  - apply match_close_ge in Hm. apply IH. lia.
  - apply IH. lia.
Qed.

Lemma all_boxed_total text : exists r, all_boxed text = Some r.
Proof. apply boxed_loop_total. lia. Qed.




End BoxedFacts.

Section ExtractorClaims.




(** *** The trailing-window stage *)

Lemma length_skip n s : String.length (skip n s) = (String.length s - n)%nat.
Proof.
  revert s; induction n; intros s; simpl; [lia|].
  destruct s; simpl; auto.
Qed.

Lemma estimate_of_length s :
  s <> "" -> estimate_text_tokens s = (String.length s / 4 + 1)%nat.
Proof. destruct s; [congruence|reflexivity]. Qed.

Lemma nonempty_of_length s n : String.length s = S n -> s <> "".
Proof. destruct s; simpl; congruence. Qed.

(** A text shorter than 400 characters is within the bound and is returned
    whole. *)
Lemma truncate_short text :
  (String.length text < 400)%nat ->
  truncate_last_n_tokens text 100 = Some text.
Proof.
  intros Hlen. unfold truncate_last_n_tokens.
  destruct text as [|c text]; [reflexivity|].
  rewrite estimate_of_length by discriminate.
  assert (String.length (String c text) / 4 < 100)%nat
    by (apply Nat.Div0.div_lt_upper_bound; lia).
  destruct (Z.leb_spec (Z.of_nat (String.length (String c text) / 4 + 1)) 100);
    [reflexivity|lia].
Qed.

(** From 400 characters on, the loop runs once and keeps the last tenth of
    the 400-character window: 40 characters, 11 estimated tokens. *)
Lemma truncate_long text :
  (400 <= String.length text)%nat ->
  truncate_last_n_tokens text 100 = Some (last_chars 40 text).
Proof.
  intros Hlen. unfold truncate_last_n_tokens.
  destruct text as [|c text]; [simpl in Hlen; lia|].
  set (t := String c text) in *.
  rewrite estimate_of_length by discriminate.
  assert (100 <= String.length t / 4)%nat
    by (apply Nat.div_le_lower_bound; lia).
  destruct (Z.leb_spec (Z.of_nat (String.length t / 4 + 1)) 100); [lia|].
  change (100 * 4) with 400. unfold tail_slice. cbn [Z.ltb Z.compare].
  change (Z.to_nat 400) with 400%nat. unfold last_chars.
  set (w := skip (String.length t - 400) t).
  assert (Hw : String.length w = 400%nat)
    by (unfold w; rewrite length_skip; lia).
  destruct (String.length t) as [|fuel] eqn:Hfuel; [lia|].
  cbn [shrink_loop].
  rewrite (estimate_of_length w) by (apply (nonempty_of_length _ 399); exact Hw).
  rewrite Hw. change (Z.of_nat (400 / 4 + 1) >? 100) with true.
  change (0 <? 400)%nat with true. cbn [andb].
  unfold nine_tenths. change (9 * 400 / 10)%nat with 360%nat.
  set (w' := skip 360 w).
  assert (Hw' : String.length w' = 40%nat)
    by (unfold w'; rewrite length_skip; lia).
  destruct fuel; cbn [shrink_loop];
    rewrite (estimate_of_length w') by (apply (nonempty_of_length _ 39); exact Hw');
    rewrite Hw'; change (Z.of_nat (40 / 4 + 1) >? 100) with false; cbn [andb];
    unfold w', w; rewrite skip_skip; do 2 f_equal; lia.
Qed.

(** C6. On a response of 400 letters, with no marker and no object, the
    fallback returns the last 40 letters: one pass of the loop drops nine
    tenths of the 400-character window instead of one tenth. *)
Theorem trailing_window_keeps_one_tenth (json_loads : string -> option dict) :
  extract_answer_from_response json_loads (letters 400)
  = Some (letters 40, false, letters 400)
  /\ estimate_text_tokens (letters 40) = 11%nat
  /\ estimate_text_tokens (skip 40 (letters 400)) = 91%nat.
Proof. vm_compute. auto. Qed.

End ExtractorClaims.

(** ** Scheduler *)

Section SchedulerFacts.
Import Scheduler.

Lemma allocate_defined W C : C <> 0 -> exists a, allocate W C = Some a.
Proof.
  intros HC. unfold allocate.
  destruct (Z.eqb_spec C 0) as [->|_]; [congruence|].
  destruct (_ <=? _); eauto.
Qed.

(** The effective total never exceeds the budget. *)
Lemma allocate_within_budget W C a :
  1 <= W -> 1 <= C -> allocate W C = Some a -> actual_total_workers a <= W.
Proof.
  intros HW HC. unfold allocate.
  destruct (Z.eqb_spec C 0) as [->|_]; [lia|].
  destruct (Z.leb_spec (Z.max 1 (W / C) * C) W) as [Hle|Hgt];
    intros [= <-]; simpl; [lia|].
  assert (HWC : W / C = 0).
  { destruct (Z.le_gt_cases 1 (W / C)) as [H1|H1].
    - pose proof (Z.mul_div_le W C ltac:(lia)). nia.
    - pose proof (Z.div_pos W C ltac:(lia) ltac:(lia)). lia. }
  rewrite HWC in *. replace (Z.max 1 0) with 1 by lia.
  rewrite Z.div_1_r. replace (Z.max 1 W) with W by lia.
  rewrite Z.div_same by lia. lia.
Qed.



Example fair_share_10_3 :
  schedule (Some 10) ["m1"; "m2"; "m3"] ["expert"]
  = Some {| workers := 10; combo_workers := 3; actual_per_combo := 3;
            actual_total_workers := 9; unused := Some 1; fully_used := false |}.
Proof. reflexivity. Qed.

End SchedulerFacts.

(** ** Deduplication *)

Section AssocFacts.
Context {A : Type}.
Implicit Types (d : list (string * A)) (k : string) (v : A).

Lemma assoc_get_set_same d k v : assoc_get (assoc_set d k v) k = Some v.
Proof.
  induction d as [|[k' v'] d IH]; simpl.
  - rewrite String.eqb_refl. reflexivity.
  - destruct (String.eqb_spec k k') as [->|Hne]; simpl.
    + rewrite String.eqb_refl. reflexivity.
    + destruct (String.eqb_spec k k'); [congruence|assumption].
Qed.

Lemma assoc_get_set_other d k k' v :
  k <> k' -> assoc_get (assoc_set d k v) k' = assoc_get d k'.
Proof.
  intros Hne. induction d as [|[k0 v0] d IH]; simpl.
  - destruct (String.eqb_spec k' k); [congruence|reflexivity].
  - destruct (String.eqb_spec k k0) as [->|Hk]; simpl.
    + destruct (String.eqb_spec k' k0); [congruence|reflexivity].
    + destruct (String.eqb_spec k' k0); [reflexivity|assumption].
Qed.

Lemma assoc_set_In d k v k' v' :
  In (k', v') (assoc_set d k v) -> (k' = k /\ v' = v) \/ In (k', v') d.
Proof.
  induction d as [|[k0 v0] d IH]; simpl.
  - intros [[= <- <-]|[]]. auto.
  - destruct (String.eqb_spec k k0) as [->|Hk]; simpl.
    + intros [[= <- <-]|H]; auto.
    + intros [H|H]; auto. apply IH in H. tauto.
Qed.

Lemma assoc_set_keys d k v :
  map fst (assoc_set d k v)
  = if assoc_get d k is Some _ then map fst d else (map fst d ++ [k])%list.
Proof.
  induction d as [|[k0 v0] d IH]; simpl; [reflexivity|].
  destruct (String.eqb_spec k k0) as [->|Hk]; simpl; [reflexivity|].
  rewrite IH. destruct (assoc_get d k); reflexivity.
Qed.

Lemma assoc_get_None_keys d k : assoc_get d k = None -> ~ In k (map fst d).
Proof.
  induction d as [|[k0 v0] d IH]; simpl; [tauto|].
  destruct (String.eqb_spec k k0); [discriminate|].
  intros H [Heq|Hin]; [congruence|]. exact (IH H Hin).
Qed.

Lemma assoc_set_NoDup d k v :
  List.NoDup (map fst d) -> List.NoDup (map fst (assoc_set d k v)).
Proof.
  intros Hnd. rewrite assoc_set_keys.
  destruct (assoc_get d k) eqn:Hg; [assumption|].
  apply NoDup_ListNoDup, NoDup_app. apply NoDup_ListNoDup in Hnd.
  split; [assumption|]. split.
  - intros x Hx Hx'. apply list_elem_of_In in Hx.
    apply list_elem_of_singleton in Hx'. subst.
    exact (assoc_get_None_keys _ _ Hg Hx).
  - apply NoDup_singleton.
Qed.

Lemma assoc_get_In d k v : assoc_get d k = Some v -> In (k, v) d.
Proof.
  induction d as [|[k0 v0] d IH]; simpl; [discriminate|].
  destruct (String.eqb_spec k k0) as [->|Hk]; [intros [= ->]; auto|auto].
Qed.

End AssocFacts.

Section Dedup.

Variable enabled_models : list string.

Lemma find_snoc {A} (f : A -> bool) l x :
  List.find f (l ++ [x])
  = match List.find f l with
    | Some y => Some y
    | None => if f x then Some x else None
    end.
Proof.
  induction l as [|a l IH]; simpl; [reflexivity|].
  destruct (f a); auto.
Qed.

(** What the two dicts of the loop hold once the records [seen] have been
    processed. *)
Record dedup_inv (seen : list dict) (st : dedup_state) : Prop := {
  inv_item : forall id, id <> "" ->
    assoc_get (question_id_to_item st) id = pick enabled_models id seen;
  inv_flag : forall id, id <> "" ->
    assoc_get (question_id_has_valid_answer st) id
    = option_map (valid enabled_models) (pick enabled_models id seen);
  inv_keys : List.NoDup (map fst (question_id_to_item st));
  inv_ids : forall k item, In (k, item) (question_id_to_item st) ->
    record_id item = k /\ k <> ""
}.

Lemma pick_snoc_other id seen item :
  record_id item <> id ->
  pick enabled_models id (seen ++ [item]) = pick enabled_models id seen.
Proof.
  intros Hne. unfold pick. rewrite !find_snoc.
  unfold has_id. destruct (String.eqb_spec (record_id item) id); [congruence|].
  simpl. destruct (List.find _ seen); [reflexivity|].
  destruct (List.find _ seen); reflexivity.
Qed.

Lemma pick_valid id seen item :
  pick enabled_models id seen = Some item ->
  valid enabled_models item = true ->
  List.find (fun x => has_id id x && valid enabled_models x) seen = Some item.
Proof.
  unfold pick. destruct (List.find (fun x => _ && _) seen) eqn:Hf.
  - congruence.
  - intros Hfind Hv. apply find_some in Hfind as [Hin Hid].
    eapply find_none in Hf; [|exact Hin]. simpl in Hf.
    rewrite Hid, Hv in Hf. discriminate.
Qed.

Lemma dedup_step_inv seen st item :
  dedup_inv seen st -> readable enabled_models item ->
  exists st', dedup_step enabled_models st item = Some st'
              /\ dedup_inv (seen ++ [item]) st'.
Proof.
  intros [Hitem Hflag Hkeys Hids] [[id Hid] [b Hb]].
  unfold dedup_step. rewrite Hid. cbn [mbind option_bind].
  assert (Hiid : record_id item = id) by (unfold record_id; rewrite Hid; reflexivity).
  assert (Hval : valid enabled_models item = b)
    by (unfold valid; rewrite Hb; reflexivity).
  destruct (String.eqb_spec id "") as [->|Hne].
  { eexists; split; [reflexivity|].
    split; auto; intros id' Hid'.
    - rewrite pick_snoc_other by congruence. auto.
    - rewrite pick_snoc_other by congruence. auto. }
  pose proof (Hflag id Hne) as Hfl. pose proof (Hitem id Hne) as Hit.
  assert (Hother : forall id', id' <> id ->
            pick enabled_models id' (seen ++ [item]) = pick enabled_models id' seen)
    by (intros; apply pick_snoc_other; congruence).
  assert (Hhas : has_id id item = true)
    by (unfold has_id; rewrite Hiid; apply String.eqb_refl).
  destruct (pick enabled_models id seen) as [old|] eqn:Hpick; cbn [option_map] in Hfl.
  - (* the id has been met *)
    destruct (valid enabled_models old) eqn:Hold.
    + (* a valid record is already kept *)
      rewrite Hfl. eexists; split; [reflexivity|].
      assert (Hsame : pick enabled_models id (seen ++ [item]) = Some old).
      { unfold pick. rewrite find_snoc.
        rewrite (pick_valid _ _ _ Hpick Hold). reflexivity. }
      split; auto; intros id' Hid'.
      * destruct (String.eqb_spec id' id) as [->|Hd];
          [rewrite Hsame; auto|rewrite Hother by auto; auto].
      * destruct (String.eqb_spec id' id) as [->|Hd];
          [rewrite Hsame, Hfl; cbn; rewrite Hold; reflexivity|rewrite Hother by auto; auto].
    + rewrite Hfl, Hb, Hit. cbn [mbind option_bind].
      assert (Hnone : List.find (fun x => has_id id x && valid enabled_models x) seen
                      = None).
      { unfold pick in Hpick.
        destruct (List.find (fun x => _ && _) seen) eqn:Hf; [|reflexivity].
        injection Hpick as ->. apply find_some in Hf as [_ Hf].
        rewrite Hold, andb_false_r in Hf. discriminate. }
      assert (Hfirst : List.find (has_id id) seen = Some old)
        by (unfold pick in Hpick; rewrite Hnone in Hpick; exact Hpick).
      destruct b.
      * (* the first valid record replaces the empty one *)
        eexists; split; [reflexivity|].
        assert (Hnew : pick enabled_models id (seen ++ [item]) = Some item).
        { unfold pick. rewrite find_snoc, Hnone, Hhas, Hval. reflexivity. }
        split; cbn [question_id_to_item question_id_has_valid_answer].
        -- intros id' Hid'. destruct (String.eqb_spec id' id) as [->|Hd].
           ++ rewrite assoc_get_set_same, Hnew. reflexivity.
           ++ rewrite assoc_get_set_other by auto. rewrite Hother by auto. auto.
        -- intros id' Hid'. destruct (String.eqb_spec id' id) as [->|Hd].
           ++ rewrite assoc_get_set_same, Hnew. cbn. rewrite Hval. reflexivity.
           ++ rewrite assoc_get_set_other by auto. rewrite Hother by auto. auto.
        -- apply assoc_set_NoDup. assumption.
        -- intros k it Hin. apply assoc_set_In in Hin as [[-> ->]|Hin]; auto.
      * (* an empty duplicate is ignored *)
        eexists; split; [reflexivity|].
        assert (Hsame : pick enabled_models id (seen ++ [item]) = Some old).
        { unfold pick. rewrite !find_snoc, Hnone, Hfirst, Hhas, Hval. reflexivity. }
        split; auto; intros id' Hid'.
        -- destruct (String.eqb_spec id' id) as [->|Hd];
             [rewrite Hsame; auto|rewrite Hother by auto; auto].
        -- destruct (String.eqb_spec id' id) as [->|Hd];
             [rewrite Hsame, Hfl; cbn; rewrite Hold; reflexivity|rewrite Hother by auto; auto].
  - (* first record of this id *)
    rewrite Hfl, Hb, Hit. cbn [mbind option_bind].
    eexists; split; [reflexivity|].
    assert (Hnew : pick enabled_models id (seen ++ [item]) = Some item).
    { unfold pick in *. rewrite !find_snoc.
      destruct (List.find (fun x => _ && _) seen); [discriminate|].
      rewrite Hpick, Hhas. destruct (valid enabled_models item); reflexivity. }
    split; cbn [question_id_to_item question_id_has_valid_answer].
    + intros id' Hid'. destruct (String.eqb_spec id' id) as [->|Hd].
      * rewrite assoc_get_set_same, Hnew. reflexivity.
      * rewrite assoc_get_set_other by auto. rewrite Hother by auto. auto.
    + intros id' Hid'. destruct (String.eqb_spec id' id) as [->|Hd].
      * rewrite assoc_get_set_same, Hnew. cbn. rewrite Hval. reflexivity.
      * rewrite assoc_get_set_other by auto. rewrite Hother by auto. auto.
    + apply assoc_set_NoDup. assumption.
    + intros k it Hin. apply assoc_set_In in Hin as [[-> ->]|Hin]; auto.
Qed.

Lemma dedup_loop_inv results : forall seen st,
  dedup_inv seen st -> Forall (readable enabled_models) results ->
  exists st', dedup_loop enabled_models st results = Some st'
              /\ dedup_inv (seen ++ results) st'.
Proof.
  induction results as [|item results IH]; intros seen st Hinv Hall.
  - exists st. rewrite app_nil_r. auto.
  - inversion Hall as [|? ? Hr Hrest]; subst.
    destruct (dedup_step_inv seen st item Hinv Hr) as (st1 & Hstep & Hinv1).
    destruct (IH (seen ++ [item])%list st1 Hinv1 Hrest) as (st' & Hloop & Hinv').
    exists st'. simpl. rewrite Hstep. cbn [mbind option_bind].
    rewrite <- app_assoc in Hinv'. auto.
Qed.

Lemma kept_records (d : list (string * dict)) id :
  List.NoDup (map fst d) ->
  (forall k item, In (k, item) d -> record_id item = k /\ k <> "") ->
  List.filter (has_id id) (map snd d)
  = match assoc_get d id with Some item => [item] | None => [] end.
Proof.
  induction d as [|[k item] d IH]; intros Hnd Hids; [reflexivity|].
  simpl in Hnd. inversion Hnd as [|? ? Hnotin Hnd']; subst.
  destruct (Hids k item (or_introl eq_refl)) as [Hk _].
  assert (Hids' : forall k item, In (k, item) d -> record_id item = k /\ k <> "")
    by (intros; apply Hids; right; assumption).
  simpl. unfold has_id at 1. rewrite Hk.
  destruct (String.eqb_spec k id) as [->|Hne].
  - rewrite String.eqb_refl. f_equal.
    rewrite IH by assumption.
    destruct (assoc_get d id) as [other|] eqn:Hg; [|reflexivity].
    apply assoc_get_In in Hg. exfalso. apply Hnotin.
    apply in_map_iff. exists (id, other). auto.
  - destruct (String.eqb_spec id k); [congruence|]. apply IH; assumption.
Qed.

End Dedup.

(** C1 (amended). On records the aggregator can read, the deduplicated set
    holds, for every question id that occurs, exactly one record: the first
    one in storage order with a non-empty answer when there is one (so, of an
    empty and a non-empty record in either order, the non-empty one), and
    otherwise the first record of that id, which stays in the set although it
    has no valid answer. *)
Theorem deduplicate_first_non_empty_wins (enabled_models : list string)
  (results : list dict) :
  Forall (readable enabled_models) results ->
  exists deduplicated,
    _deduplicate_results enabled_models results = Some deduplicated /\
    forall id, id <> "" ->
      List.filter (has_id id) deduplicated
      = match List.find (fun item => has_id id item && valid enabled_models item)
                        results with
        | Some item => [item]
        | None =>
            match List.find (has_id id) results with
            | Some item => [item]
            | None => []
            end
        end.
Proof.
  intros Hall.
  destruct (dedup_loop_inv enabled_models results []
              {| question_id_to_item := []; question_id_has_valid_answer := [] |})
    as (st & Hloop & [Hitem _ Hkeys Hids]); [|assumption|].
  { split; try reflexivity; [constructor|intros ? ? []]. }
  exists (map snd (question_id_to_item st)). split.
  - unfold _deduplicate_results. rewrite Hloop. reflexivity.
  - intros id Hid. rewrite (kept_records _ id) by assumption.
    rewrite (Hitem id Hid). simpl. unfold pick.
    destruct (List.find (fun item => _ && _) results); [reflexivity|].
    destruct (List.find (has_id id) results); reflexivity.
Qed.

Lemma sample_records_readable :
  Forall (readable ["m"]) [empty_record "q1"; answered_record "q1"].
Proof. repeat constructor; vm_compute; eauto. Qed.

Lemma deduplicate_first_non_empty_wins_witness :
  exists deduplicated,
    _deduplicate_results ["m"] [empty_record "q1"; answered_record "q1"]
    = Some deduplicated /\
    forall id, id <> "" ->
      List.filter (has_id id) deduplicated
      = match List.find (fun item => has_id id item && valid ["m"] item)
                        [empty_record "q1"; answered_record "q1"] with
        | Some item => [item]
        | None =>
            match List.find (has_id id)
                            [empty_record "q1"; answered_record "q1"] with
            | Some item => [item]
            | None => []
            end
        end.
Proof.
  apply (deduplicate_first_non_empty_wins ["m"]
           [empty_record "q1"; answered_record "q1"]).
  repeat constructor; vm_compute; eauto.
Defined.

(** Of an empty and a non-empty record, in either order, the non-empty one
    is kept. *)
Example deduplicate_empty_then_answered :
  _deduplicate_results ["m"] [empty_record "q1"; answered_record "q1"]
  = Some [answered_record "q1"].
Proof. reflexivity. Qed.

Example deduplicate_answered_then_empty :
  _deduplicate_results ["m"] [answered_record "q1"; empty_record "q1"]
  = Some [answered_record "q1"].
Proof. reflexivity. Qed.

(** C1 as stated fails where it says that an id whose records are all empty
    has no record in the deduplicated set: the only record of [q1] is empty
    and is kept. *)
Lemma all_empty_record_is_kept :
  ~ (forall enabled_models results deduplicated id,
       id <> "" ->
       _deduplicate_results enabled_models results = Some deduplicated ->
       (forall item, In item results -> has_id id item = true ->
                     valid enabled_models item = false) ->
       List.filter (has_id id) deduplicated = []).
Proof.
  intros H.
  specialize (H ["m"] [empty_record "q1"] [empty_record "q1"] "q1").
  assert (Hf : List.filter (has_id "q1") [empty_record "q1"] = []).
  { apply H.
    - discriminate.
    - reflexivity.
    - intros item [<-|[]] _. reflexivity. }
  vm_compute in Hf. discriminate.
Qed.

(** ** Rounds: from the evaluator to the scores *)

Section DictFacts.

Lemma dict_get_set_same d k v : dict_get (dict_set d k v) k = Some v.
Proof.
  induction d as [|[k' v'] d IH]; simpl.
  - rewrite String.eqb_refl. reflexivity.
  - destruct (String.eqb_spec k k') as [->|Hne]; simpl.
    + rewrite String.eqb_refl. reflexivity.
    + destruct (String.eqb_spec k k'); [congruence|assumption].
Qed.

Lemma dict_get_set_other d k k' v :
  k <> k' -> dict_get (dict_set d k v) k' = dict_get d k'.
Proof.
  intros Hne. induction d as [|[k0 v0] d IH]; simpl.
  - destruct (String.eqb_spec k' k); [congruence|reflexivity].
  - destruct (String.eqb_spec k k0) as [->|Hk]; simpl.
    + destruct (String.eqb_spec k' k0); [congruence|reflexivity].
    + destruct (String.eqb_spec k' k0); [reflexivity|assumption].
Qed.



End DictFacts.



Section RoundAggregation.

Variable json_loads : string -> option dict.
Variable path_exists : string -> bool.
Variable eval_data_url : string -> string.
Variable api_data_url : string -> string.
Variable get_prompt : string -> string -> option value -> string -> string.
Variable question_with_options : string -> option value -> string.
Variable generate : string -> list message -> outcome (string * Q).
Variable judge_answer :
  string -> value -> string -> option value -> outcome (bool * string * Q).
Variable build_process_value : value -> dict -> string.
Variable mentions_round : dict -> bool.




Lemma evaluate_rounds_length profile question_type model_name image_paths rounds :
  forall history,
  length (evaluate_rounds json_loads path_exists eval_data_url api_data_url
            get_prompt question_with_options generate judge_answer
            profile question_type model_name image_paths history rounds)
  = length rounds.
Proof.
  unfold evaluate_rounds. induction rounds; intros; simpl; auto.
Qed.






Lemma carried_fields_get (tags : dict) fields : forall d k,
  ~ In k fields ->
  dict_get (fold_left (fun d field =>
                         match dict_get tags field with
                         | Some v => dict_set d field v
                         | None => d
                         end) fields d) k
  = dict_get d k.
Proof.
  induction fields as [|f fields IH]; intros d k Hnot; [reflexivity|].
  cbn [fold_left]. rewrite IH by (intros H; apply Hnot; right; assumption).
  destruct (dict_get tags f); [|reflexivity].
  apply dict_get_set_other. intros ->. apply Hnot. left. reflexivity.
Qed.



End RoundAggregation.


(** A three-round task with verdicts true, false, true: one unit, not
    correct, when scoring whole items; three units, two of them correct, when
    scoring by rounds. *)
Example three_rounds_whole_item :
  sample_score false (sample_convert (sample_evaluate three_rounds))
  = Some (1%nat, 0%nat).
Proof. vm_compute. reflexivity. Qed.

Example three_rounds_by_rounds :
  sample_score true (sample_convert (sample_evaluate three_rounds))
  = Some (3%nat, 2%nat).
Proof. vm_compute. reflexivity. Qed.


(** ** Resume *)

Section Resume.

Variable model_name : string.






End Resume.

Section FailedEvaluation.

Variable json_loads : string -> option dict.
Variable path_exists : string -> bool.
Variable eval_data_url : string -> string.
Variable api_data_url : string -> string.
Variable get_prompt : string -> string -> option value -> string -> string.
Variable question_with_options : string -> option value -> string.
Variable generate : string -> list message -> outcome (string * Q).
Variable judge_answer :
  string -> value -> string -> option value -> outcome (bool * string * Q).
Variable build_process_value : value -> dict -> string.
Variable mentions_round : dict -> bool.








End FailedEvaluation.


(** ** Failed and empty units in the statistics *)

(** C4. A task whose second round fails in the judge (after the retries) is
    stored with the answers [round1 = A], [round2 = ""] and the verdicts
    [round1 = true], [round2 = false]. Scoring whole items, the per-model,
    per-persona and per-tag breakdowns count it as one answered and wrong
    item, while the overall total leaves it out. [calculate_statistics]
    counts a single-round task whose judge failed as one wrong item. *)
Theorem failed_task_scored_as_incorrect :
  (exists record model,
     stored_records second_round_fails = [record] /\
     dict_get record "model" = Some (VDict model) /\
     dict_get model "answer"
     = Some (VDict [("round1", VStr "A"); ("round2", VStr "")]) /\
     dict_get model "match_gt"
     = Some (VDict [("round1", VBool true); ("round2", VBool false)]))
  /\ option_map by_model
       (calculate_output_statistics false ["m"] (stored_records second_round_fails))
     = Some [("m", {| total_count := 1; correct_count := 0 |})]
  /\ option_map by_profile
       (calculate_output_statistics false ["m"] (stored_records second_round_fails))
     = Some [("expert", {| total_count := 1; correct_count := 0 |})]
  /\ option_map by_category
       (calculate_output_statistics false ["m"] (stored_records second_round_fails))
     = Some [("question_type",
              [("multi_round", {| total_count := 1; correct_count := 0 |})]);
             ("difficulty", [("hard", {| total_count := 1; correct_count := 0 |})])]
  /\ option_map total
       (calculate_output_statistics false ["m"] (stored_records second_round_fails))
     = Some {| total_count := 0; correct_count := 0 |}
  /\ dict_get (eval_single_model (fun _ => None) (fun _ => true) (fun p => p)
                 sample_generate sample_judge [] "Which one?" "Which one?"
                 (VStr "?") VNone false "m") "error"
     = Some (VStr "judge: retries exhausted")
  /\ option_map models
       (calculate_statistics false [sample_evaluate (sample_question "q8" "?")])
     = Some [("m", ({| total_count := 1; correct_count := 0 |},
                    [("expert", {| total_count := 1; correct_count := 0 |})]))].
Proof.
  split.
  - eexists _, _. split; [vm_compute; reflexivity|]. repeat split.
  - repeat split; vm_compute; reflexivity.
Qed.

(** C2. Units with an empty answer that are counted. Scoring by rounds,
    [calculate_statistics] counts the failed second round of the task above,
    whose answer is empty, as a wrong unit: 2 units, 1 correct. Scoring whole
    items, [calculate_output_statistics] treats the same stored record
    differently in its breakdowns: the overall total leaves it out as empty,
    the per-model, per-persona and per-tag rows count it as wrong. Scoring by
    rounds, [calculate_output_statistics] leaves the empty round out
    everywhere. *)
Theorem empty_units_counted_as_incorrect :
  option_map models (calculate_statistics true [sample_evaluate second_round_fails])
  = Some [("m", ({| total_count := 2; correct_count := 1 |},
                 [("expert", {| total_count := 2; correct_count := 1 |})]))]
  /\ option_map profiles
       (calculate_statistics true [sample_evaluate second_round_fails])
     = Some [("expert", ({| total_count := 2; correct_count := 1 |},
                         [("m", {| total_count := 2; correct_count := 1 |})]))]
  /\ option_map (fun s => (total s, by_model s, by_profile s))
       (calculate_output_statistics false ["m"] (stored_records second_round_fails))
     = Some ({| total_count := 0; correct_count := 0 |},
             [("m", {| total_count := 1; correct_count := 0 |})],
             [("expert", {| total_count := 1; correct_count := 0 |})])
  /\ option_map (fun s => (total s, by_model s, by_profile s))
       (calculate_output_statistics true ["m"] (stored_records second_round_fails))
     = Some ({| total_count := 1; correct_count := 1 |},
             [("m", {| total_count := 1; correct_count := 1 |})],
             [("expert", {| total_count := 1; correct_count := 1 |})]).
Proof. repeat split; vm_compute; reflexivity. Qed.

(** ** Media in the conversation of a task *)

Section MediaOnce.

Variable json_loads : string -> option dict.
Variable path_exists : string -> bool.
Variable eval_data_url : string -> string.
Variable api_data_url : string -> string.
Variable get_prompt : string -> string -> option value -> string -> string.
Variable question_with_options : string -> option value -> string.
Variable generate : string -> list message -> outcome (string * Q).
Variable judge_answer :
  string -> value -> string -> option value -> outcome (bool * string * Q).
Variable image_paths : list string.

Lemma image_parts_all_images data_url paths :
  forallb is_image (image_parts path_exists data_url paths) = true.
Proof.
  induction paths as [|p paths IH]; simpl; [reflexivity|].
  destruct (is_http p); simpl; [assumption|].
  destruct (path_exists p); simpl; assumption.
Qed.

Lemma image_parts_available data_url paths :
  existsb is_image (image_parts path_exists data_url paths)
  = available path_exists paths.
Proof.
  unfold available. induction paths as [|p paths IH]; simpl; [reflexivity|].
  destruct (is_http p); simpl; [reflexivity|].
  destruct (path_exists p); simpl; [reflexivity|assumption].
Qed.

Lemma image_parts_unavailable data_url paths :
  available path_exists paths = false ->
  image_parts path_exists data_url paths = [].
Proof.
  unfold available. induction paths as [|p paths IH]; simpl; [reflexivity|].
  destruct (is_http p); simpl; [discriminate|].
  destruct (path_exists p); simpl; [discriminate|assumption].
Qed.

Lemma available_nonempty paths :
  available path_exists paths = true -> paths <> [].
Proof. destruct paths; [discriminate|discriminate]. Qed.

Lemma filter_images_exists (l : list part) :
  existsb is_image (List.filter is_image l) = existsb is_image l.
Proof.
  induction l as [|p l IH]; simpl; [reflexivity|].
  destruct (is_image p) eqn:Hp; simpl; rewrite ?Hp; simpl; auto.
Qed.

Lemma existsb_app_text (l : list part) text :
  existsb is_image (l ++ [Text text]) = existsb is_image l.
Proof. rewrite existsb_app. simpl. apply orb_false_r. Qed.

Lemma existsb_carries_image first rest :
  is_user first = true ->
  Forall (fun m => has_media m = false) rest ->
  existsb carries_image (first :: rest) = has_media first.
Proof.
  intros Huser Hrest. simpl.
  assert (Hnone : existsb carries_image rest = false).
  { induction Hrest as [|m rest Hm _ IH]; [reflexivity|]. simpl.
    unfold carries_image, has_media in *. rewrite Hm, andb_false_r. exact IH. }
  rewrite Hnone, orb_false_r. unfold carries_image, has_media. rewrite Huser.
  reflexivity.
Qed.

Lemma Forall_no_media_snoc rest (m : message) :
  Forall (fun m => has_media m = false) rest ->
  has_media m = false ->
  Forall (fun m => has_media m = false) (rest ++ [m]).
Proof. intros. apply Forall_app. split; [assumption|]. constructor; auto. Qed.

(** The list that is sent in a round is the history followed by the new
    user turn, and sending leaves the history as it was: the in-place update
    of the first message adds media only when the first message is the new
    turn itself. *)
Lemma outgoing_spec history prompt :
  history_inv path_exists image_paths history ->
  exists current,
    outgoing path_exists eval_data_url api_data_url history image_paths prompt
    = ((history ++ [current])%list, history, current) /\
    is_user current = true /\
    (exists l, msg_content current = Parts l) /\
    has_media current
    = match history with
      | [] => available path_exists image_paths
      | _ :: _ => false
      end.
Proof.
  intros [Hfirst Hinv].
  destruct history as [|first rest].
  - unfold outgoing, current_user_msg, attach_to_first.
    cbn [existsb negb andb app is_user msg_role msg_content].
    destruct (match image_paths with [] => false | _ :: _ => true end) eqn:Hne.
    + cbn [andb].
      rewrite existsb_app_text, image_parts_available.
      destruct (available path_exists image_paths) eqn:Hav.
      * eexists. split; [reflexivity|]. split; [reflexivity|]. split; [cbn; eauto|].
        unfold has_media. cbn. rewrite existsb_app_text, image_parts_available.
        exact Hav.
      * rewrite (image_parts_unavailable eval_data_url _ Hav).
        rewrite (image_parts_unavailable api_data_url _ Hav).
        eexists. split; [reflexivity|]. cbn. eauto.
    + assert (Hav : available path_exists image_paths = false)
        by (destruct image_paths; [reflexivity|discriminate]).
      eexists. split; [reflexivity|]. cbn. rewrite Hav. eauto.
  - destruct Hfirst as [Huser Hrest]. destruct Hinv as [[l Hl] Hnone].
    unfold outgoing, current_user_msg.
    rewrite (existsb_carries_image first rest Huser Hrest).
    assert (Hmedia_parts :
              (if negb (has_media first)
                  && match image_paths with [] => false | _ => true end
               then image_parts path_exists eval_data_url image_paths else [])
              = []).
    { destruct (has_media first) eqn:Hmedia; [reflexivity|].
      rewrite (image_parts_unavailable eval_data_url _ (Hnone eq_refl)).
      destruct (_ && _); reflexivity. }
    rewrite Hmedia_parts. cbn [app].
    assert (Hattach : forall tail,
              attach_to_first path_exists api_data_url (first :: tail) image_paths = first :: tail).
    { intros tail. unfold attach_to_first. rewrite Huser.
      destruct (match image_paths with [] => false | _ :: _ => true end);
        [|reflexivity].
      cbn [andb]. rewrite Hl.
      destruct (existsb is_image l) eqn:Hmedia; [reflexivity|].
      assert (Hav : available path_exists image_paths = false)
        by (apply Hnone; unfold has_media; rewrite Hl; exact Hmedia).
      rewrite (image_parts_unavailable api_data_url _ Hav), app_nil_r.
      destruct first as [r c]. cbn in *. subst c. reflexivity. }
    rewrite Hattach.
    eexists. split; [reflexivity|]. cbn. eauto.
Qed.

(** Appending the compacted pair keeps the invariant. *)
Lemma commit_inv history current question_text extracted original :
  history_inv path_exists image_paths history ->
  has_media current
  = match history with
    | [] => available path_exists image_paths
    | _ :: _ => false
    end ->
  (exists l, msg_content current = Parts l) ->
  history_inv path_exists image_paths (commit history image_paths current question_text extracted original).
Proof.
  intros [Hfirst Hinv] Hcurrent [l Hl].
  unfold has_media in Hcurrent. rewrite Hl in Hcurrent.
  destruct history as [|first rest].
  - unfold commit, simplified_user_msg. cbn [existsb negb andb app].
    rewrite Hl. split.
    + cbn. repeat constructor.
    + split; [cbn; eauto|].
      unfold has_media. cbn [msg_content].
      destruct (match image_paths with [] => false | _ :: _ => true end) eqn:Hne.
      * rewrite existsb_app_text, filter_images_exists, Hcurrent. auto.
      * intros _. destruct image_paths; [reflexivity|discriminate].
  - destruct Hfirst as [Huser Hrest]. destruct Hinv as [Hparts Hnone].
    unfold commit. cbn [app]. split; [|split; assumption].
    split; [assumption|].
    apply Forall_app. split; [assumption|].
    constructor; [|repeat constructor].
    unfold simplified_user_msg, has_media. cbn [msg_content].
    rewrite Hl, existsb_app_text.
    destruct (_ && _); [|reflexivity].
    rewrite filter_images_exists. exact Hcurrent.
Qed.

Lemma sent_media_first history current :
  history_inv path_exists image_paths history ->
  is_user current = true ->
  has_media current
  = match history with
    | [] => available path_exists image_paths
    | _ :: _ => false
    end ->
  media_only_first (history ++ [current]) /\
  (available path_exists image_paths = true -> first_has_media (history ++ [current])).
Proof.
  intros [Hfirst Hinv] Huser Hcurrent.
  destruct history as [|first rest]; cbn [app].
  - split; [split; [assumption|constructor]|]. cbn. congruence.
  - destruct Hfirst as [Hu Hrest]. destruct Hinv as [_ Hnone]. split.
    + split; [assumption|]. apply Forall_no_media_snoc; assumption.
    + cbn. intros Hav. destruct (has_media first); [reflexivity|].
      rewrite Hnone in Hav by reflexivity. discriminate.
Qed.

Lemma history_media_first history :
  history_inv path_exists image_paths history ->
  media_only_first history /\
  (available path_exists image_paths = true -> history <> [] ->
   first_has_media history).
Proof.
  intros [Hfirst Hinv]. split; [assumption|].
  destruct history as [|first rest]; [congruence|].
  destruct Hinv as [_ Hnone]. cbn. intros Hav _.
  destruct (has_media first); [reflexivity|].
  rewrite Hnone in Hav by reflexivity. discriminate.
Qed.

(** What a round leaves: the invariant on the history, and media in the
    first turn only of what was sent. *)
Lemma try_round_inv profile question_type model_name history r :
  history_inv path_exists image_paths history ->
  let a := try_round json_loads path_exists eval_data_url api_data_url
             get_prompt question_with_options generate judge_answer
             profile question_type model_name image_paths history r in
  history_inv path_exists image_paths (history_left a) /\
  media_only_first (messages_built a) /\
  (available path_exists image_paths = true -> first_has_media (messages_built a)).
Proof.
  intros Hinv. unfold try_round.
  destruct (outgoing_spec history
              (get_prompt profile (round_question r) (round_options r) question_type)
              Hinv)
    as (current & Hout & Huser & Hparts & Hmedia).
  rewrite Hout.
  pose proof (sent_media_first history current Hinv Huser Hmedia) as [Hsent Hav].
  destruct (generate _ _) as [[model_answer response_time]|msg];
    [|cbn; auto].
  destruct (extract _ _ _) as [[[extracted is_from_box] original]|msg];
    [|cbn; auto].
  destruct (judge_answer _ _ _ _) as [[[is_correct reasoning] judge_time]|msg];
    cbn; (split; [apply commit_inv; assumption|auto]).
Qed.

Lemma try_rounds_inv profile question_type model_name rounds : forall history,
  history_inv path_exists image_paths history ->
  Forall (fun a =>
            history_inv path_exists image_paths (history_left a) /\
            media_only_first (messages_built a) /\
            (available path_exists image_paths = true ->
             first_has_media (messages_built a)))
    (try_rounds json_loads path_exists eval_data_url api_data_url
       get_prompt question_with_options generate judge_answer
       profile question_type model_name image_paths history rounds).
Proof.
  induction rounds as [|r rounds IH]; intros history Hinv; simpl; constructor.
  - apply try_round_inv. assumption.
  - apply IH. apply try_round_inv. assumption.
Qed.

Lemma media_only_first_turns conversation :
  media_only_first conversation -> (media_turns conversation <= 1)%nat.
Proof.
  unfold media_turns. destruct conversation as [|first rest]; simpl; [lia|].
  intros [_ Hrest].
  assert (Hnone : List.filter has_media rest = []).
  { induction Hrest as [|m rest Hm _ IH]; [reflexivity|]. simpl.
    rewrite Hm. exact IH. }
  rewrite Hnone. destruct (has_media first); simpl; lia.
Qed.

Lemma first_media_turns conversation :
  media_only_first conversation -> first_has_media conversation ->
  media_turns conversation = 1%nat.
Proof.
  unfold media_turns. destruct conversation as [|first rest]; simpl; [tauto|].
  intros [_ Hrest] Hfirst.
  assert (Hnone : List.filter has_media rest = []).
  { induction Hrest as [|m rest Hm _ IH]; [reflexivity|]. simpl.
    rewrite Hm. exact IH. }
  rewrite Hnone, Hfirst. reflexivity.
Qed.

(** C9. Within the conversation of one task and one model, whatever the
    number of rounds, a media reference sits in at most one turn, both in
    the list of messages sent in a round and in the compacted history kept
    after it: that turn is the first one, a user turn, and no later turn
    carries media. When some path of the task yields a media reference, the
    first turn of every list that is sent carries it, so exactly one turn
    does. The file system is the same in every round. *)
Theorem media_in_one_turn profile question_type model_name rounds a :
  In a (try_rounds json_loads path_exists eval_data_url api_data_url
          get_prompt question_with_options generate judge_answer
          profile question_type model_name image_paths [] rounds) ->
  media_only_first (messages_built a) /\
  media_only_first (history_left a) /\
  (media_turns (messages_built a) <= 1)%nat /\
  (media_turns (history_left a) <= 1)%nat /\
  (available path_exists image_paths = true ->
   first_has_media (messages_built a) /\
   media_turns (messages_built a) = 1%nat /\
   (history_left a <> [] -> media_turns (history_left a) = 1%nat)).
Proof.
  intros Hin.
  assert (Hstart : history_inv path_exists image_paths []) by (split; exact I).
  pose proof (try_rounds_inv profile question_type model_name rounds [] Hstart)
    as Hall.
  rewrite List.Forall_forall in Hall.
  destruct (Hall a Hin) as (Hhistory & Hsent & Hav).
  destruct (history_media_first _ Hhistory) as [Hkept Hkept_av].
  repeat split; try assumption.
  - apply media_only_first_turns. assumption.
  - apply media_only_first_turns. assumption.
  - auto.
  - apply first_media_turns; auto.
  - intros Hne. apply first_media_turns; auto.
Qed.

End MediaOnce.

Lemma media_in_one_turn_witness :
  In third_attempt sample_attempts /\
  media_turns (messages_built third_attempt) = 1%nat /\
  media_turns (history_left third_attempt) = 1%nat /\
  length (messages_built third_attempt) = 5%nat /\
  length (history_left third_attempt) = 6%nat.
Proof.
  assert (Hin : In third_attempt sample_attempts)
    by (right; right; left; reflexivity).
  destruct (media_in_one_turn (fun _ => None) (fun _ => true)
              (fun p => p) (fun p => p)
              (fun profile question options question_type => question)
              (fun question options => question)
              sample_generate sample_judge ["chart.png"]
              "expert" "multi_round" "m" (rounds three_rounds) third_attempt Hin)
    as (_ & _ & _ & _ & Hav).
  destruct (Hav eq_refl) as (_ & Hsent & Hkept).
  split; [exact Hin|]. split; [exact Hsent|].
  split; [apply Hkept; discriminate|]. split; reflexivity.
Defined.

(** ** Rewriting an artifact *)

Lemma temp_path_differs (output_file : string) :
  Store.temp_path output_file <> output_file.
Proof.
  unfold Store.temp_path. intros H. apply (f_equal String.length) in H.
  rewrite length_append in H. simpl in H. lia.
Qed.

Lemma atomic_rewrite_fails (fs : Store.files) output_file text o :
  went_through o = false ->
  exists seen,
    Store.atomic_rewrite fs output_file text o = (seen, false) /\
    Forall (untouched output_file fs) seen /\
    untouched output_file fs (List.last seen fs) /\
    List.last seen fs !! Store.temp_path output_file = None.
Proof.
  pose proof (temp_path_differs output_file) as Hne.
  unfold went_through, Store.atomic_rewrite, untouched.
  destruct (Store.write o) as [| |written]; intros Hgo.
  - rewrite Hgo. eexists. split; [reflexivity|]. cbn [List.last].
    repeat (split || constructor);
      rewrite ?lookup_delete_eq, ?lookup_delete_ne, ?lookup_insert_ne by congruence;
      reflexivity.
  - eexists. split; [reflexivity|]. cbn [List.last].
    repeat (split || constructor);
      rewrite ?lookup_delete_eq, ?lookup_delete_ne, ?lookup_insert_ne by congruence;
      reflexivity.
  - eexists. split; [reflexivity|]. cbn [List.last].
    repeat (split || constructor);
      rewrite ?lookup_delete_eq, ?lookup_delete_ne, ?lookup_insert_ne by congruence;
      reflexivity.
Qed.

Lemma atomic_rewrite_succeeds (fs : Store.files) output_file text o :
  went_through o = true ->
  exists before final,
    Store.atomic_rewrite fs output_file text o = ((before ++ [final])%list, true) /\
    Forall (untouched output_file fs) before /\
    final !! output_file = Some text /\
    final !! Store.temp_path output_file = None.
Proof.
  pose proof (temp_path_differs output_file) as Hne.
  unfold went_through, Store.atomic_rewrite, untouched.
  destruct (Store.write o) as [| |written]; intros Hgo; try discriminate.
  rewrite Hgo.
  exists [fs; <[Store.temp_path output_file := ""]> fs;
          <[Store.temp_path output_file := text]> fs].
  eexists. split; [reflexivity|].
  repeat (split || constructor);
    rewrite ?lookup_insert_eq, ?lookup_insert_ne, ?lookup_delete_eq,
            ?lookup_delete_ne, ?lookup_insert_ne by congruence;
    reflexivity.
Qed.

Lemma last_snoc {A} (l : list A) (x d : A) : List.last (l ++ [x]) d = x.
Proof. apply List.last_last. Qed.

Lemma untouched_old_or_whole output_file text (fs : Store.files) seen :
  Forall (untouched output_file fs) seen ->
  Forall (old_or_whole output_file text fs) seen.
Proof. apply List.Forall_impl. intros s H. left. exact H. Qed.

(** The inner [try] of the final update, with its bookkeeping. *)
Lemma rewrite_is_safe (st : Store.state) output_file text o
  (failure : list Store.event) :
  failure <> [] ->
  safe_rewrite output_file o st
    (let '(seen, ok) := Store.atomic_rewrite (Store.fs st) output_file text o in
     (seen,
      {| Store.fs := List.last seen (Store.fs st);
         Store.result_buffers := Store.result_buffers st;
         Store.log := if ok : bool then Store.log st
                      else (Store.log st ++ failure)%list |})).
Proof.
  intros Hfailure.
  destruct (went_through o) eqn:Hgo.
  - destruct (atomic_rewrite_succeeds (Store.fs st) output_file text o Hgo)
      as (before & final & Hrw & Hbefore & Hfinal & _).
    rewrite Hrw. unfold safe_rewrite. cbn [Store.fs Store.result_buffers Store.log].
    rewrite last_snoc, Hgo. split; [reflexivity|]. split; [reflexivity|]. left.
    split; [reflexivity|]. split; [reflexivity|]. exists before, text. auto.
  - destruct (atomic_rewrite_fails (Store.fs st) output_file text o Hgo)
      as (seen & Hrw & Hseen & Hlast & _).
    rewrite Hrw. unfold safe_rewrite. cbn [Store.fs Store.result_buffers Store.log].
    split; [reflexivity|]. split; [reflexivity|]. right.
    split; [assumption|]. split; [assumption|].
    destruct failure as [|e es]; [congruence|]. exists e, es. reflexivity.
Qed.

Lemma nothing_written_is_safe (st : Store.state) output_file o e :
  safe_rewrite output_file o st
    ([Store.fs st],
     {| Store.fs := Store.fs st; Store.result_buffers := Store.result_buffers st;
        Store.log := (Store.log st ++ [e])%list |}).
Proof.
  unfold safe_rewrite, untouched. cbn.
  split; [reflexivity|]. split; [reflexivity|]. right.
  split; [repeat constructor|]. split; [reflexivity|]. exists e, []. reflexivity.
Qed.

Section AtomicRewrite.

Variable json_load : string -> option value.
Variable json_dump : value -> string.
Variable json_dumps : value -> string.
Variable file_size : string -> nat.
Variable label : scoring -> string.
Variable count_by_rounds : bool.
Variable enabled_models : list string.

Lemma update_statistics_safe fmt (st : Store.state) output_file model_name profile o :
  safe_rewrite output_file o st
    (Store.update_statistics json_load json_dump json_dumps file_size label
       count_by_rounds enabled_models fmt st output_file model_name profile o).
Proof.
  unfold Store.update_statistics.
  repeat match goal with
         | |- safe_rewrite _ _ _ ([_], _) => apply nothing_written_is_safe
         | |- safe_rewrite _ _ _ (let '(_, _) := Store.atomic_rewrite _ _ _ _ in _) =>
             apply rewrite_is_safe; discriminate
         | |- safe_rewrite _ _ _ (match ?x with _ => _ end) => destruct x
         | |- safe_rewrite _ _ _ (if ?x then _ else _) => destruct x
         end.
Qed.

(** C3. A flush of a non-empty buffer whose replacement document [doc] could
    be computed writes the complete text to the temporary sibling path and
    then replaces the target: in every state of the directory the target
    holds what it held before or the complete new text, and the temporary
    file is gone at the end. When the write and the replacement go through,
    the target changes in the last step only and the buffer is emptied. When
    the write of the temporary file fails or the replacement fails, the
    target is what it was in every state, the buffer is what it was, and the
    log gains the two error lines. The final update of the statistics of the
    same artifact follows the same discipline. *)
Theorem rewrite_by_temporary_file (st : Store.state)
  (output_files : gmap (string * string) string)
  (model_name profile : string) (o : Store.io)
  (output_file : string) (buffer : list dict) (doc : value) :
  Store.result_buffers st !! (model_name, profile) = Some buffer ->
  buffer <> [] ->
  output_files !! (model_name, profile) = Some output_file ->
  Store.merged_document json_load file_size label count_by_rounds enabled_models
    (Store.fs st) output_file buffer = Some doc ->
  (exists seen st',
      Store.flush_json_buffer json_load json_dump file_size label
        count_by_rounds enabled_models st output_files model_name profile o
      = Some (seen, st') /\
      Store.atomic_rewrite (Store.fs st) output_file (json_dump doc) o
      = (seen, went_through o) /\
      Forall (old_or_whole output_file (json_dump doc) (Store.fs st)) seen /\
      Store.fs st' = List.last seen (Store.fs st) /\
      Store.fs st' !! Store.temp_path output_file = None /\
      if went_through o
      then (exists before,
               seen = (before ++ [Store.fs st'])%list /\
               Forall (untouched output_file (Store.fs st)) before) /\
           Store.fs st' !! output_file = Some (json_dump doc) /\
           Store.result_buffers st'
           = <[(model_name, profile) := []]> (Store.result_buffers st) /\
           Store.log st' = Store.log st
      else Forall (untouched output_file (Store.fs st)) seen /\
           untouched output_file (Store.fs st) (Store.fs st') /\
           Store.result_buffers st' = Store.result_buffers st /\
           Store.log st'
           = (Store.log st
              ++ [Store.TempWriteFailed; Store.BatchSaveFailed model_name profile])%list)
  /\
  (forall fmt,
      safe_rewrite output_file o st
        (Store.update_statistics json_load json_dump json_dumps file_size label
           count_by_rounds enabled_models fmt st output_file model_name profile o)).
Proof.
  intros Hbuffer Hne Hfile Hdoc. split; [|intros fmt; apply update_statistics_safe].
  unfold Store.flush_json_buffer. rewrite Hbuffer.
  destruct buffer as [|record buffer]; [congruence|].
  rewrite Hfile. cbn [mbind option_bind]. rewrite Hdoc.
  destruct (went_through o) eqn:Hgo.
  - destruct (atomic_rewrite_succeeds (Store.fs st) output_file (json_dump doc) o Hgo)
      as (before & final & Hrw & Hbefore & Hfinal & Htemp).
    rewrite Hrw. eexists _, _. split; [reflexivity|].
    cbn [Store.fs Store.result_buffers Store.log]. rewrite last_snoc.
    split; [reflexivity|]. split.
    { apply Forall_app. split; [apply untouched_old_or_whole; assumption|].
      constructor; [right; assumption|constructor]. }
    split; [reflexivity|]. split; [assumption|].
    split; [exists before; auto|]. auto.
  - destruct (atomic_rewrite_fails (Store.fs st) output_file (json_dump doc) o Hgo)
      as (seen & Hrw & Hseen & Hlast & Htemp).
    rewrite Hrw. eexists _, _. split; [reflexivity|].
    cbn [Store.fs Store.result_buffers Store.log].
    split; [reflexivity|]. split; [apply untouched_old_or_whole; assumption|].
    split; [reflexivity|]. split; [assumption|]. auto.
Qed.

End AtomicRewrite.

Lemma rewrite_by_temporary_file_witness :
  exists seen st',
    sample_flush torn_write = Some (seen, st') /\
    length seen = 4%nat /\
    Forall (fun s => s !! "out.json" = Some "previous document") seen /\
    Store.fs st' !! "out.json" = Some "previous document" /\
    Store.fs st' !! "out.json.tmp" = None /\
    Store.result_buffers st' = Store.result_buffers sample_store /\
    Store.log st' = [Store.TempWriteFailed; Store.BatchSaveFailed "m" "expert"].
Proof.
  assert (Hbuffer : Store.result_buffers sample_store !! ("m", "expert")
                    = Some [answered_record "q1"]) by reflexivity.
  assert (Hne : [answered_record "q1"] <> []) by discriminate.
  assert (Hfile : sample_output_files !! ("m", "expert") = Some "out.json")
    by reflexivity.
  destruct (Store.merged_document
              (fun _ => Some (VDict [("statistics", VDict []); ("results", VList [])]))
              String.length (fun _ => "whole item") false ["m"]
              (Store.fs sample_store) "out.json" [answered_record "q1"])
    as [doc|] eqn:Hdoc; [|vm_compute in Hdoc; discriminate].
  destruct (rewrite_by_temporary_file
              (fun _ => Some (VDict [("statistics", VDict []); ("results", VList [])]))
              (fun _ => "replacement document") (fun _ => "") String.length
              (fun _ => "whole item") false ["m"]
              sample_store sample_output_files "m" "expert" torn_write
              "out.json" [answered_record "q1"] doc Hbuffer Hne Hfile Hdoc)
    as [(seen & st' & Hflush & Hrw & _ & _ & Htemp & Hseen & Hlast & Hbuffers & Hlog) _].
  exists seen, st'. split; [exact Hflush|].
  injection Hrw as Hrw. subst seen.
  split; [reflexivity|]. split; [exact Hseen|]. split; [exact Hlast|].
  split; [exact Htemp|]. split; [exact Hbuffers|exact Hlog].
Defined.

(** ** The extractor on any text *)

Section ExtractorFacts.

Lemma lstrip_head s :
  lstrip s = "" \/ exists c r, lstrip s = String c r /\ isspace c = false.
Proof.
  induction s as [|c s IH]; simpl; [auto|].
  destruct (isspace c) eqn:Hc; [exact IH|]. right. eauto.
Qed.

Lemma rstrip_idem s : rstrip (rstrip s) = rstrip s.
Proof.
  induction s as [|c s IH]; simpl; [reflexivity|].
  destruct (rstrip s) as [|c' r] eqn:Hr.
  - destruct (isspace c) eqn:Hc; simpl; [reflexivity|]. rewrite Hc. reflexivity.
  - simpl. simpl in IH. destruct (rstrip r) as [|c'' r'] eqn:Hr'.
    + destruct (isspace c'); [discriminate|]. rewrite IH. reflexivity.
    + rewrite IH. reflexivity.
Qed.

Lemma rstrip_cons_nonspace c s :
  isspace c = false -> exists r, rstrip (String c s) = String c r.
Proof.
  intros Hc. simpl. destruct (rstrip s); [rewrite Hc|]; eauto.
Qed.

Lemma strip_idem s : strip (strip s) = strip s.
Proof.
  unfold strip. destruct (lstrip_head s) as [He|(c & r & He & Hc)]; rewrite He.
  - reflexivity.
  - destruct (rstrip_cons_nonspace c r Hc) as [r' Hr]. rewrite Hr.
    simpl lstrip. rewrite Hc, <- Hr. apply rstrip_idem.
Qed.

Lemma rstrip_fixed_tail c s : rstrip (String c s) = String c s -> rstrip s = s.
Proof.
  simpl. destruct (rstrip s) as [|c' r].
  - destruct (isspace c); [discriminate|]. congruence.
  - congruence.
Qed.

Lemma rstrip_fixed_skip k : forall s, rstrip s = s -> rstrip (skip k s) = skip k s.
Proof.
  induction k as [|k IH]; intros s Hs; [destruct s; exact Hs|].
  destruct s as [|c s]; [reflexivity|]. simpl. apply IH.
  apply (rstrip_fixed_tail c). exact Hs.
Qed.

Lemma lstrip_is_skip s : exists k, lstrip s = skip k s.
Proof.
  induction s as [|c s [k IH]]; [exists O; reflexivity|]. simpl.
  destruct (isspace c); [exists (S k); exact IH|exists O; reflexivity].
Qed.

Lemma rstrip_blank s : lstrip s = "" -> rstrip s = "".
Proof.
  induction s as [|c s IH]; simpl; [reflexivity|].
  destruct (isspace c) eqn:Hc; [|discriminate].
  intros H. rewrite (IH H). reflexivity.
Qed.

(** A non-empty text without trailing space is not blank. *)
Lemma strip_of_rstrip_fixed s : rstrip s = s -> s <> "" -> strip s <> "".
Proof.
  intros Hs Hne. unfold strip.
  destruct (lstrip s) as [|c r] eqn:Hl.
  - rewrite (rstrip_blank s Hl) in Hs. congruence.
  - destruct (lstrip_is_skip s) as [k Hk]. rewrite Hl in Hk.
    rewrite Hk, (rstrip_fixed_skip k s Hs), <- Hk. discriminate.
Qed.

Lemma strip_rstrip_fixed s : rstrip (strip s) = strip s.
Proof. unfold strip. apply rstrip_idem. Qed.

Lemma take_skip n : forall s, take n s ++ skip n s = s.
Proof.
  induction n as [|n IH]; intros s; [reflexivity|].
  destruct s as [|c s]; [reflexivity|]. simpl. rewrite IH. reflexivity.
Qed.

Lemma suffix_of_skip n s : suffix_of (skip n s) s.
Proof. exists (take n s). symmetry. apply take_skip. Qed.

Lemma suffix_of_trans a b c : suffix_of a b -> suffix_of b c -> suffix_of a c.
Proof.
  intros [p Hp] [q Hq]. exists (q ++ p). rewrite Hq, Hp. symmetry. apply append_assoc.
Qed.

Lemma boxed_loop_stripped fuel text : forall pos all_matches r,
  Forall (fun c => c <> "" /\ strip c = c) all_matches ->
  boxed_loop fuel text pos all_matches = Some r ->
  Forall (fun c => c <> "" /\ strip c = c) r.
Proof.
  induction fuel as [|fuel IH]; intros pos all_matches r Hall; simpl; [discriminate|].
  destruct (find marker text pos) as [start_idx|]; [|intros [= <-]; exact Hall].
  destruct (match_close _ _ _) as [end_idx|]; [|apply IH; exact Hall].
  apply IH.
  destruct (String.eqb _ "") eqn:He; [exact Hall|].
  apply Forall_app. split; [exact Hall|]. constructor; [|constructor].
  split; [apply String.eqb_neq; exact He|apply strip_idem].
Qed.

Lemma last_In {A} (l : list A) x : last l = Some x -> In x l.
Proof.
  induction l as [|y l IH]; [discriminate|].
  destruct l as [|z l]; simpl in *.
  - intros [= <-]. auto.
  - intros H. right. apply IH. exact H.
Qed.

Lemma boxed_content_facts text c :
  extract_boxed_content text = Some c -> c <> "" /\ strip c = c.
Proof.
  unfold extract_boxed_content.
  destruct (all_boxed text) as [r|] eqn:Hr; [|discriminate].
  intros Hlast. apply last_In in Hlast.
  pose proof (boxed_loop_stripped _ _ _ _ _ (List.Forall_nil _) Hr) as Hall.
  rewrite List.Forall_forall in Hall. exact (Hall c Hlast).
Qed.

(** X1. what the marker stage yields is never empty and carries no space at
    either end; without a marker in the text it yields nothing. *)
Theorem boxed_content_is_stripped (text : string) :
  (no_marker text -> extract_boxed_content text = None) /\
  (forall c, extract_boxed_content text = Some c ->
             c <> "" /\ strip c = c /\ ~ no_marker text).
Proof.
  split.
  - unfold no_marker, extract_boxed_content, all_boxed. intros H. simpl.
    rewrite H. reflexivity.
  - intros c. unfold extract_boxed_content.
    destruct (all_boxed text) as [r|] eqn:Hr; [|discriminate].
    intros Hlast. apply last_In in Hlast.
    pose proof (boxed_loop_stripped _ _ _ _ _ (List.Forall_nil _) Hr) as Hall.
    rewrite List.Forall_forall in Hall. destruct (Hall c Hlast) as [Hne Hs].
    split; [exact Hne|]. split; [exact Hs|].
    intros Hno. unfold all_boxed in Hr. simpl in Hr.
    unfold no_marker in Hno. rewrite Hno in Hr. injection Hr as <-. destruct Hlast.
Qed.

End ExtractorFacts.
Section TruncateFacts.

Lemma estimate_small s : (String.length s < 4)%nat -> (estimate_text_tokens s <= 1)%nat.
Proof.
  intros H. destruct s as [|c s]; [simpl; lia|].
  rewrite estimate_of_length by discriminate.
  rewrite Nat.div_small by exact H. lia.
Qed.

Lemma nine_tenths_bounds len :
  (4 <= len)%nat -> (1 <= nine_tenths len /\ nine_tenths len < len)%nat.
Proof.
  intros H. unfold nine_tenths. split.
  - apply Nat.div_le_lower_bound; lia.
  - apply Nat.Div0.div_lt_upper_bound; lia.
Qed.

Lemma shrink_loop_ends n_tokens : 1 <= n_tokens ->
  forall fuel s, (String.length s <= fuel)%nat ->
  exists r, shrink_loop fuel n_tokens s = Some r /\
            Z.of_nat (estimate_text_tokens r) <= n_tokens /\
            suffix_of r s.
Proof.
  intros Hn. induction fuel as [|fuel IH]; intros s Hlen.
  - assert (s = "") by (destruct s; [reflexivity|simpl in Hlen; lia]). subst s.
    exists "". cbn [shrink_loop String.length].
    change (0 <? 0)%nat with false. rewrite andb_false_r.
    split; [reflexivity|]. split; [simpl; lia|]. exists "". reflexivity.
  - cbn [shrink_loop].
    destruct (Z.of_nat (estimate_text_tokens s) >? n_tokens) eqn:Hest.
    + assert (Hlong : (4 <= String.length s)%nat).
      { destruct (Nat.lt_ge_cases (String.length s) 4) as [Hs|Hs]; [|exact Hs].
        pose proof (estimate_small s Hs). lia. }
      assert (Hpos : (0 <? String.length s)%nat = true) by (apply Nat.ltb_lt; lia).
      rewrite Hpos. simpl andb. cbv iota.
      destruct (nine_tenths_bounds _ Hlong) as [Hlo Hhi].
      destruct (IH (skip (nine_tenths (String.length s)) s)) as (r & Hr & Hfit & Hsuf).
      { rewrite length_skip. lia. }
      exists r. split; [exact Hr|]. split; [exact Hfit|].
      eapply suffix_of_trans; [exact Hsuf|apply suffix_of_skip].
    + simpl andb. cbv iota. exists s. split; [reflexivity|]. split; [lia|].
      exists "". reflexivity.
Qed.

Lemma tail_slice_is_skip target text : exists k, tail_slice target text = skip k text.
Proof.
  unfold tail_slice, last_chars. destruct (0 <? target); eauto.
Qed.

(** X2. for a budget of at least one token the trailing window is computed
    in finitely many steps, is a suffix of the text, fits the budget by the
    module's own estimate, and is the whole text when the text fits. *)
Theorem trailing_window_fits (text : string) (n_tokens : Z) :
  1 <= n_tokens ->
  exists r,
    truncate_last_n_tokens text n_tokens = Some r /\
    Z.of_nat (estimate_text_tokens r) <= n_tokens /\
    suffix_of r text /\
    (Z.of_nat (estimate_text_tokens text) <= n_tokens -> r = text).
Proof.
  intros Hn. unfold truncate_last_n_tokens.
  destruct text as [|c text].
  - exists "". split; [reflexivity|]. split; [simpl; lia|].
    split; [exists ""; reflexivity|reflexivity].
  - set (t := String c text).
    destruct (Z.of_nat (estimate_text_tokens t) <=? n_tokens) eqn:Hfit.
    + exists t. split; [reflexivity|]. split; [lia|].
      split; [exists ""; reflexivity|reflexivity].
    + destruct (tail_slice_is_skip (n_tokens * 4) t) as [k Hk].
      destruct (shrink_loop_ends n_tokens Hn (String.length t) (tail_slice (n_tokens * 4) t))
        as (r & Hr & Hest & Hsuf).
      { rewrite Hk, length_skip. lia. }
      exists r. split; [exact Hr|]. split; [exact Hest|]. split; [|lia].
      eapply suffix_of_trans; [exact Hsuf|]. rewrite Hk. apply suffix_of_skip.
Qed.

Lemma trailing_window_fits_witness :
  exists r,
    truncate_last_n_tokens (letters 1000) 100 = Some r /\
    Z.of_nat (estimate_text_tokens r) <= 100 /\
    suffix_of r (letters 1000).
Proof.
  destruct (trailing_window_fits (letters 1000) 100 ltac:(lia)) as (r & Hr & Hfit & Hsuf & _).
  exists r. auto.
Defined.

Lemma shrink_loop_stuck n_tokens : n_tokens <= 0 ->
  forall fuel s, s <> "" -> shrink_loop fuel n_tokens s = None.
Proof.
  intros Hn. induction fuel as [|fuel IH]; intros s Hs.
  - cbn [shrink_loop].
    assert (Hest : (Z.of_nat (estimate_text_tokens s) >? n_tokens) = true).
    { rewrite Z.gtb_ltb. apply Z.ltb_lt.
      rewrite estimate_of_length by exact Hs. lia. }
    assert (Hpos : (0 <? String.length s)%nat = true).
    { apply Nat.ltb_lt. destruct s; [congruence|simpl; lia]. }
    rewrite Hest, Hpos. reflexivity.
  - cbn [shrink_loop].
    assert (Hest : (Z.of_nat (estimate_text_tokens s) >? n_tokens) = true).
    { rewrite Z.gtb_ltb. apply Z.ltb_lt.
      rewrite estimate_of_length by exact Hs. lia. }
    assert (Hlen : (0 < String.length s)%nat).
    { destruct s; [congruence|simpl; lia]. }
    assert (Hpos : (0 <? String.length s)%nat = true) by (apply Nat.ltb_lt; exact Hlen).
    rewrite Hest, Hpos. simpl andb. cbv iota. apply IH.
    intros Hempty. apply (f_equal String.length) in Hempty.
    rewrite length_skip in Hempty. simpl in Hempty.
    assert (nine_tenths (String.length s) < String.length s)%nat.
    { unfold nine_tenths. apply Nat.Div0.div_lt_upper_bound. lia. }
    lia.
Qed.

(** X3. with a budget of zero tokens (or less) the shrinking loop never
    ends on a non-empty window: the window keeps at least one character,
    whose estimate is one token. *)
Theorem trailing_window_zero_budget (text : string) (n_tokens : Z) :
  n_tokens <= 0 ->
  tail_slice (n_tokens * 4) text <> "" ->
  (forall fuel, shrink_loop fuel n_tokens (tail_slice (n_tokens * 4) text) = None) /\
  truncate_last_n_tokens text n_tokens = None.
Proof.
  intros Hn Hne. split.
  - intros fuel. apply shrink_loop_stuck; assumption.
  - unfold truncate_last_n_tokens. destruct text as [|c text].
    + destruct (tail_slice_is_skip (n_tokens * 4) "") as [k Hk].
      rewrite Hk in Hne. destruct k; simpl in Hne; congruence.
    + set (t := String c text) in *.
      assert (Hest : (Z.of_nat (estimate_text_tokens t) <=? n_tokens) = false).
      { apply Z.leb_gt. rewrite estimate_of_length by discriminate. lia. }
      rewrite Hest. apply shrink_loop_stuck; assumption.
Qed.

Lemma trailing_window_zero_budget_witness :
  (forall fuel, shrink_loop fuel 0 (tail_slice (0 * 4) "answer") = None) /\
  truncate_last_n_tokens "answer" 0 = None.
Proof.
  apply (trailing_window_zero_budget "answer" 0); [lia|discriminate].
Defined.

End TruncateFacts.
Section ExtractionFacts.

Variable json_loads : string -> option dict.

Lemma if_text_Some x s : if_text x = Some s -> x = Some s /\ s <> "".
Proof.
  unfold if_text. destruct x as [t|]; [|discriminate].
  destruct (String.eqb t "") eqn:He; [discriminate|].
  intros [= <-]. split; [reflexivity|]. apply String.eqb_neq. exact He.
Qed.

Lemma last_chars_nonempty k s : (0 < k)%nat -> s <> "" -> last_chars k s <> "".
Proof.
  intros Hk Hs H. apply (f_equal String.length) in H.
  unfold last_chars in H. rewrite length_skip in H. simpl in H.
  destruct s; [congruence|]. simpl in H. lia.
Qed.

(** The last stage on a stripped response: what it returns is empty only
    when the response is. *)
Lemma fallback_window original :
  rstrip original = original ->
  exists t, truncate_last_n_tokens original 100 = Some t /\
            (original <> "" -> t <> "" /\ strip t <> "") /\
            (original = "" -> t = "").
Proof.
  intros Hfixed.
  destruct (Nat.lt_ge_cases (String.length original) 400) as [Hshort|Hlong].
  - exists original. split; [apply truncate_short; exact Hshort|].
    split; [|auto]. intros Hne. split; [exact Hne|].
    apply strip_of_rstrip_fixed; assumption.
  - exists (last_chars 40 original). split; [apply truncate_long; exact Hlong|].
    assert (Hne : original <> "") by (intros ->; simpl in Hlong; lia).
    split; [|congruence]. intros _.
    assert (Hwin : last_chars 40 original <> "") by (apply last_chars_nonempty; [lia|exact Hne]).
    split; [exact Hwin|].
    apply strip_of_rstrip_fixed; [|exact Hwin].
    unfold last_chars. apply rstrip_fixed_skip. exact Hfixed.
Qed.

(** X4. whatever the model wrote, the third component is the stripped
    response, the extracted answer is empty only when the stripped response
    is, and an answer marked as structured is non-empty and stripped. *)
Theorem extracted_answer_shape (response ans orig : string) (from_box : bool) :
  extract_answer_from_response json_loads response = Some (ans, from_box, orig) ->
  orig = strip response /\
  (ans = "" -> strip response = "") /\
  (from_box = true -> ans <> "" /\ strip ans = ans).
Proof.
  unfold extract_answer_from_response.
  destruct (fallback_window (strip response) (strip_rstrip_fixed response))
    as (t & Ht & Hne & Hempty).
  rewrite Ht.
  assert (Hfallback :
            (if negb (String.eqb t "") && negb (String.eqb (strip t) "")
             then Some (t, false, strip response)
             else Some (strip response, false, strip response))
            = Some (ans, from_box, orig) ->
            orig = strip response /\
            (ans = "" -> strip response = "") /\
            (from_box = true -> ans <> "" /\ strip ans = ans)).
  { destruct (String.eqb (strip response) "") eqn:Hblank.
    - apply String.eqb_eq in Hblank. rewrite (Hempty Hblank). simpl.
      intros [= <- <- <-]. split; [reflexivity|]. split; [auto|discriminate].
    - apply String.eqb_neq in Hblank. destruct (Hne Hblank) as [Ht1 Ht2].
      apply String.eqb_neq in Ht1, Ht2. rewrite Ht1, Ht2. simpl.
      intros [= <- <- <-]. split; [reflexivity|].
      split; [|discriminate]. intros ->. discriminate. }
  destruct (if_text (extract_boxed_content (strip response))) as [boxed|] eqn:Hboxed.
  - intros [= <- <- <-]. apply if_text_Some in Hboxed. destruct Hboxed as [Hb Hnonempty].
    destruct (boxed_content_facts _ _ Hb) as [_ Hs].
    split; [reflexivity|]. split; [congruence|]. auto.
  - destruct (extract_json_from_text json_loads (strip response)) as [|kv result_json];
      [exact Hfallback|].
    destruct (truthy _); [|exact Hfallback].
    destruct (get_default _ "answer" _) as [| | | |answer_wrapped| |]; try discriminate.
    destruct (if_text (extract_boxed_content answer_wrapped)) as [boxed|] eqn:Hjson.
    + intros [= <- <- <-]. apply if_text_Some in Hjson. destruct Hjson as [Hb Hnonempty].
      destruct (boxed_content_facts _ _ Hb) as [_ Hs].
      split; [reflexivity|]. split; [congruence|]. auto.
    + destruct (String.eqb (strip answer_wrapped) "") eqn:Hclean; simpl;
        [exact Hfallback|].
      intros [= <- <- <-]. apply String.eqb_neq in Hclean.
      split; [reflexivity|]. split; [congruence|discriminate].
Qed.

Lemma brace_free_app a b : brace_free (a ++ b) -> brace_free a /\ brace_free b.
Proof.
  unfold brace_free. induction a as [|c a IH]; simpl; intros H.
  - split; [constructor|exact H].
  - inversion H; subst. destruct (IH ltac:(assumption)). split; [constructor|]; assumption.
Qed.

Lemma brace_free_skip k s : brace_free s -> brace_free (skip k s).
Proof.
  intros H. rewrite <- (take_skip k s) in H. apply brace_free_app in H. tauto.
Qed.

Lemma rstrip_is_take s : exists k, rstrip s = take k s.
Proof.
  induction s as [|c s [k IH]]; [exists O; reflexivity|]. simpl.
  destruct (rstrip s) as [|c' r] eqn:Hr.
  - destruct (isspace c); [exists O; reflexivity|exists 1%nat; destruct s; reflexivity].
  - exists (S k). simpl. rewrite IH. reflexivity.
Qed.

Lemma brace_free_take k s : brace_free s -> brace_free (take k s).
Proof.
  intros H. rewrite <- (take_skip k s) in H. apply brace_free_app in H. tauto.
Qed.

Lemma brace_free_strip s : brace_free s -> brace_free (strip s).
Proof.
  intros H. unfold strip.
  destruct (lstrip_is_skip s) as [k Hk]. rewrite Hk.
  destruct (rstrip_is_take (skip k s)) as [j Hj]. rewrite Hj.
  apply brace_free_take, brace_free_skip, H.
Qed.

Lemma prefix_split p : forall s, String.prefix p s = true -> exists r, s = p ++ r.
Proof.
  induction p as [|c p IH]; intros s H; [exists s; reflexivity|].
  destruct s as [|c' s]; [rewrite prefix_of_empty in H; discriminate|].
  rewrite prefix_cons in H. apply andb_prop in H. destruct H as [Hc Hp].
  apply Ascii.eqb_eq in Hc. subst c'. destruct (IH s Hp) as [r ->].
  exists r. reflexivity.
Qed.

Lemma brace_free_head c s : brace_free (String c s) -> Ascii.eqb c "{" = false.
Proof.
  unfold brace_free. simpl. intros H. inversion H; subst.
  apply Ascii.eqb_neq. assumption.
Qed.

Lemma brace_free_tail c s : brace_free (String c s) -> brace_free s.
Proof. unfold brace_free. simpl. intros H. inversion H; assumption. Qed.

Lemma find_at_needs_brace sub : ~ brace_free sub ->
  forall s i pos, brace_free s -> find_at sub s i pos = None.
Proof.
  intros Hsub. induction s as [|c s IH]; intros i pos Hs; cbn [find_at].
  - destruct ((pos <=? i)%nat && startswith sub "") eqn:H; [|reflexivity].
    apply andb_prop in H. destruct H as [_ H]. apply prefix_split in H.
    destruct H as [r Hr]. destruct sub; [|discriminate].
    exfalso. apply Hsub. constructor.
  - destruct ((pos <=? i)%nat && startswith sub (String c s)) eqn:H.
    + apply andb_prop in H. destruct H as [_ H]. apply prefix_split in H.
      destruct H as [r Hr]. rewrite Hr in Hs. apply brace_free_app in Hs. tauto.
    + apply IH. eapply brace_free_tail. exact Hs.
Qed.

Lemma marker_has_brace : ~ brace_free marker.
Proof.
  unfold brace_free, marker. simpl. intros H.
  repeat match goal with
         | H : Forall _ (_ :: _) |- _ => inversion H; clear H; subst
         end.
  congruence.
Qed.

Lemma open_brace_has_brace : ~ brace_free "{".
Proof. unfold brace_free. simpl. intros H. inversion H; congruence. Qed.

Lemma re_search_needs_brace s : brace_free s -> re_search s = None.
Proof.
  induction s as [|c s IH]; intros Hs.
  - reflexivity.
  - cbn [re_search].
    assert (Hfenced : match_fenced (String c s) = None).
    { unfold match_fenced. destruct (startswith fence_open (String c s)); [|reflexivity].
      destruct (lstrip_is_skip (skip (String.length fence_open) (String c s))) as [k Hk].
      rewrite Hk, skip_skip.
      pose proof (brace_free_skip (String.length fence_open + k) _ Hs) as Hrest.
      destruct (skip (String.length fence_open + k) (String c s)) as [|c' s'];
        [reflexivity|].
      rewrite (brace_free_head _ _ Hrest). reflexivity. }
    rewrite Hfenced. unfold match_bare. rewrite (brace_free_head _ _ Hs).
    apply IH. eapply brace_free_tail. exact Hs.
Qed.

Lemma extract_json_needs_brace text :
  brace_free text -> extract_json_from_text json_loads text = [].
Proof.
  intros H. apply brace_free_strip in H. unfold extract_json_from_text.
  rewrite (re_search_needs_brace _ H).
  unfold find. rewrite (find_at_needs_brace "{" open_brace_has_brace _ 0%nat 0%nat H).
  reflexivity.
Qed.

(** X5. a response without an opening brace is never taken as structured:
    the marker stage and the object stage find nothing, whatever the JSON
    parser does, and the answer is the trailing window of the stripped
    response -- the whole stripped response when it has fewer than 400
    characters. *)
Theorem plain_response_is_unstructured (response : string) :
  brace_free response ->
  exists window,
    truncate_last_n_tokens (strip response) 100 = Some window /\
    extract_answer_from_response json_loads response
    = Some (window, false, strip response) /\
    ((String.length (strip response) < 400)%nat -> window = strip response).
Proof.
  intros Hfree.
  pose proof (brace_free_strip _ Hfree) as Hstripped.
  destruct (fallback_window (strip response) (strip_rstrip_fixed response))
    as (t & Ht & Hne & Hempty).
  exists t. split; [exact Ht|]. split.
  - unfold extract_answer_from_response.
    assert (Hbox : extract_boxed_content (strip response) = None).
    { unfold extract_boxed_content, all_boxed. simpl. unfold find.
      rewrite (find_at_needs_brace marker marker_has_brace _ 0%nat 0%nat Hstripped).
      reflexivity. }
    rewrite Hbox. cbn [if_text].
    rewrite <- (strip_idem response) at 1.
    rewrite (extract_json_needs_brace (strip (strip response))).
    2:{ rewrite strip_idem. exact Hstripped. }
    rewrite Ht.
    destruct (String.eqb (strip response) "") eqn:Hblank.
    + apply String.eqb_eq in Hblank. rewrite (Hempty Hblank), Hblank. reflexivity.
    + apply String.eqb_neq in Hblank. destruct (Hne Hblank) as [Ht1 Ht2].
      apply String.eqb_neq in Ht1, Ht2. rewrite Ht1, Ht2. reflexivity.
  - intros Hshort. rewrite (truncate_short _ Hshort) in Ht. congruence.
Qed.

End ExtractionFacts.

Lemma extracted_answer_shape_witness :
  "\boxed{A\boxed{B}C}" = strip "\boxed{A\boxed{B}C}" /\
  ("A\boxed{B}C" = "" -> strip "\boxed{A\boxed{B}C}" = "") /\
  (true = true -> "A\boxed{B}C" <> "" /\ strip "A\boxed{B}C" = "A\boxed{B}C").
Proof.
  apply (extracted_answer_shape (fun _ => None) "\boxed{A\boxed{B}C}" "A\boxed{B}C"
           "\boxed{A\boxed{B}C}" true).
  vm_compute. reflexivity.
Defined.

Lemma plain_response_is_unstructured_witness :
  exists window,
    truncate_last_n_tokens (strip "  It is 42.  ") 100 = Some window /\
    extract_answer_from_response (fun _ => Some [("answer", VInt 1)]) "  It is 42.  "
    = Some (window, false, "It is 42.") /\
    ((String.length (strip "  It is 42.  ") < 400)%nat -> window = "It is 42.").
Proof.
  apply (plain_response_is_unstructured (fun _ => Some [("answer", VInt 1)])
           "  It is 42.  ").
  unfold brace_free. simpl. repeat constructor; discriminate.
Defined.

(** ** The aggregator on stored records *)

Section AggregatorFacts.

Variable count_by_rounds : bool.
Variable enabled_models : list string.

Lemma assoc_get_fresh {A} (d : list (string * A)) k :
  ~ In k (map fst d) -> assoc_get d k = None.
Proof.
  induction d as [|[k' v] d IH]; simpl; intros H; [reflexivity|].
  destruct (String.eqb_spec k k'); [exfalso; auto|]. apply IH. tauto.
Qed.

Lemma assoc_set_fresh {A} (d : list (string * A)) k v :
  ~ In k (map fst d) -> assoc_set d k v = (d ++ [(k, v)])%list.
Proof.
  induction d as [|[k' v'] d IH]; simpl; intros H; [reflexivity|].
  destruct (String.eqb_spec k k'); [exfalso; auto|]. rewrite IH by tauto. reflexivity.
Qed.

Lemma assoc_In_get {A} (d : list (string * A)) k v :
  List.NoDup (map fst d) -> In (k, v) d -> assoc_get d k = Some v.
Proof.
  induction d as [|[k' v'] d IH]; simpl; intros Hnd Hin; [destruct Hin|].
  inversion Hnd as [|? ? Hfresh Hnd']; subst.
  destruct Hin as [[= -> ->]|Hin].
  - rewrite String.eqb_refl. reflexivity.
  - destruct (String.eqb_spec k k') as [->|Hne].
    + exfalso. apply Hfresh. apply in_map_iff. exists (k', v). auto.
    + apply IH; assumption.
Qed.

Lemma dedup_start_inv :
  dedup_inv enabled_models []
    {| question_id_to_item := []; question_id_has_valid_answer := [] |}.
Proof. split; try reflexivity; [constructor|intros ? ? []]. Qed.

Lemma pick_In id results item :
  pick enabled_models id results = Some item -> In item results /\ record_id item = id.
Proof.
  unfold pick. destruct (List.find (fun x => _ && _) results) as [y|] eqn:Hf.
  - intros [= <-]. apply find_some in Hf as [Hin Hb].
    apply andb_prop in Hb as [Hid _]. split; [exact Hin|].
    apply String.eqb_eq. exact Hid.
  - intros Hfind. apply find_some in Hfind as [Hin Hid]. split; [exact Hin|].
    apply String.eqb_eq. exact Hid.
Qed.

(** The records kept by the loop, read off its invariant. *)
Lemma dedup_kept results st :
  dedup_inv enabled_models results st ->
  map record_id (map snd (question_id_to_item st)) = map fst (question_id_to_item st) /\
  Forall (fun x => In x results /\ record_id x <> "")
         (map snd (question_id_to_item st)).
Proof.
  intros [Hitem _ Hkeys Hids]. split.
  - rewrite map_map. apply map_ext_in. intros [k item] Hin.
    destruct (Hids k item Hin) as [H _]. exact H.
  - apply List.Forall_forall. intros x Hx. apply in_map_iff in Hx.
    destruct Hx as ([k item] & <- & Hin). simpl.
    destruct (Hids k item Hin) as [Hid Hk].
    pose proof (assoc_In_get _ _ _ Hkeys Hin) as Hget.
    rewrite (Hitem k Hk) in Hget. apply pick_In in Hget. destruct Hget as [Hres _].
    split; [exact Hres|congruence].
Qed.

(** On records with distinct ids the loop appends each of them. *)
Lemma dedup_loop_distinct : forall l st,
  Forall (readable enabled_models) l ->
  Forall (fun x => record_id x <> "") l ->
  List.NoDup (map fst (question_id_to_item st) ++ map record_id l) ->
  (forall x, In x l ->
     assoc_get (question_id_has_valid_answer st) (record_id x) = None) ->
  exists st',
    dedup_loop enabled_models st l = Some st' /\
    question_id_to_item st'
    = (question_id_to_item st ++ map (fun x => (record_id x, x)) l)%list.
Proof.
  induction l as [|item l IH]; intros st Hread Hids Hnd Hflags.
  - exists st. split; [reflexivity|]. simpl. rewrite app_nil_r. reflexivity.
  - inversion Hread as [|? ? [[id Hid] [b Hb]] Hread']; subst.
    inversion Hids as [|? ? Hne Hids']; subst.
    assert (Hrid : record_id item = id) by (unfold record_id; rewrite Hid; reflexivity).
    simpl in Hnd. rewrite Hrid in Hnd.
    destruct (NoDup_remove _ _ _ Hnd) as [_ Hnotin].
    assert (Hfresh : ~ In id (map fst (question_id_to_item st)))
      by (intros Hin; apply Hnotin, in_or_app; left; exact Hin).
    assert (Hlater : ~ In id (map record_id l))
      by (intros Hin; apply Hnotin, in_or_app; right; exact Hin).
    cbn [dedup_loop]. unfold dedup_step. rewrite Hid. cbn [mbind option_bind].
    assert (Hnb : String.eqb id "" = false) by (apply String.eqb_neq; congruence).
    rewrite Hnb.
    pose proof (Hflags item (or_introl eq_refl)) as Hflag. rewrite Hrid in Hflag.
    rewrite Hflag. unfold has_valid_answer in Hb. unfold has_valid_answer.
    rewrite Hb. cbn [mbind option_bind].
    rewrite (assoc_get_fresh _ _ Hfresh).
    destruct (IH {| question_id_to_item :=
                      assoc_set (question_id_to_item st) id item;
                    question_id_has_valid_answer :=
                      assoc_set (question_id_has_valid_answer st) id b |})
      as (st' & Hloop & Hitems); try assumption.
    + cbn [question_id_to_item]. rewrite (assoc_set_fresh _ _ _ Hfresh).
      rewrite map_app. simpl. rewrite <- app_assoc. simpl. exact Hnd.
    + intros x Hx. cbn [question_id_has_valid_answer].
      rewrite assoc_get_set_other; [apply Hflags; right; exact Hx|].
      intros Heq. apply Hlater. rewrite Heq. apply in_map. exact Hx.
    + exists st'. split; [exact Hloop|]. rewrite Hitems.
      cbn [question_id_to_item]. rewrite (assoc_set_fresh _ _ _ Hfresh).
      rewrite <- app_assoc. simpl. rewrite Hrid. reflexivity.
Qed.

(** X6. on records it can read, the deduplication keeps records of the input
    only, one per question id and none without an id, and deduplicating
    its own output changes nothing. *)
Theorem deduplicate_is_idempotent (results : list dict) :
  Forall (readable enabled_models) results ->
  exists deduplicated,
    _deduplicate_results enabled_models results = Some deduplicated /\
    List.NoDup (map record_id deduplicated) /\
    Forall (fun x => In x results /\ record_id x <> "") deduplicated /\
    _deduplicate_results enabled_models deduplicated = Some deduplicated.
Proof.
  intros Hall.
  destruct (dedup_loop_inv enabled_models results [] _ dedup_start_inv Hall)
    as (st & Hloop & Hinv).
  simpl in Hinv. destruct (dedup_kept _ _ Hinv) as [Hkeys Hkept].
  exists (map snd (question_id_to_item st)).
  split; [unfold _deduplicate_results; rewrite Hloop; reflexivity|].
  split; [rewrite Hkeys; apply (inv_keys _ _ _ Hinv)|].
  split; [exact Hkept|].
  destruct (dedup_loop_distinct (map snd (question_id_to_item st))
              {| question_id_to_item := []; question_id_has_valid_answer := [] |})
    as (st' & Hloop' & Hitems).
  - apply List.Forall_forall. intros x Hx.
    rewrite List.Forall_forall in Hkept, Hall. apply Hall. apply Hkept. exact Hx.
  - eapply List.Forall_impl; [|exact Hkept]. simpl. tauto.
  - simpl. rewrite Hkeys. apply (inv_keys _ _ _ Hinv).
  - reflexivity.
  - unfold _deduplicate_results. rewrite Hloop'. cbn [mbind option_bind].
    rewrite Hitems. simpl. rewrite map_map. simpl. rewrite map_id. reflexivity.
Qed.

Lemma Forall_filter_sound {A} (P : A -> Prop) (f : A -> bool) l :
  Forall P l -> Forall P (List.filter f l).
Proof.
  induction 1 as [|x l Hx _ IH]; simpl; [constructor|].
  destruct (f x); [constructor; assumption|assumption].
Qed.

(** The first pass of the whole-item total builds the dict that the
    deduplication builds. *)
Lemma collect_follows_dedup : forall l seen st,
  dedup_inv enabled_models seen st ->
  Forall (readable enabled_models) seen ->
  Forall (readable enabled_models) l ->
  exists st',
    dedup_loop enabled_models st l = Some st' /\
    collect_loop enabled_models (question_id_to_item st) l
    = Some (question_id_to_item st') /\
    dedup_inv enabled_models (seen ++ l) st'.
Proof.
  induction l as [|item l IH]; intros seen st Hinv Hseen Hl.
  - exists st. rewrite app_nil_r. auto.
  - inversion Hl as [|? ? Hitem Hl']; subst.
    destruct (dedup_step_inv enabled_models seen st item Hinv Hitem)
      as (st1 & Hstep & Hinv1).
    assert (Hcollect : collect_step enabled_models (question_id_to_item st) item
                       = Some (question_id_to_item st1)).
    { destruct Hitem as [[id Hid] [b Hb]].
      destruct Hinv as [Hget Hflag _ _].
      unfold dedup_step in Hstep. unfold collect_step.
      rewrite Hid in *. cbn [mbind option_bind] in *.
      destruct (String.eqb id "") eqn:Hblank; [congruence|].
      apply String.eqb_neq in Hblank.
      rewrite Hb in *. cbn [mbind option_bind] in *.
      specialize (Hget id Hblank). specialize (Hflag id Hblank).
      rewrite Hget in *.
      destruct (pick enabled_models id seen) as [old|] eqn:Hpick.
      - simpl in Hflag. rewrite Hflag in Hstep.
        apply pick_In in Hpick. destruct Hpick as [Hin _].
        rewrite List.Forall_forall in Hseen.
        destruct (Hseen old Hin) as [_ [b' Hb']].
        unfold valid in *. rewrite Hb' in *. cbn [mbind option_bind default] in *.
        destruct b'; simpl in *; [injection Hstep as <-; reflexivity|].
        destruct b; injection Hstep as <-; reflexivity.
      - simpl in Hflag. rewrite Hflag in Hstep. injection Hstep as <-. reflexivity. }
    destruct (IH (seen ++ [item])%list st1 Hinv1) as (st' & Hloop & Hcol & Hinv').
    + apply Forall_app. split; [exact Hseen|]. constructor; [exact Hitem|constructor].
    + exact Hl'.
    + exists st'. cbn [dedup_loop collect_loop]. rewrite Hstep, Hcollect.
      cbn [mbind option_bind]. rewrite <- app_assoc in Hinv'. auto.
Qed.

(** A record that adds nothing leaves the state of the loop as it is. *)
Lemma dedup_step_skips results st r :
  dedup_inv enabled_models results st ->
  Forall (readable enabled_models) results ->
  readable enabled_models r ->
  record_id r = "" \/ already_answered enabled_models results r ->
  dedup_step enabled_models st r = Some st.
Proof.
  intros [Hget Hflag _ _] Hread [[id Hid] _] Hcase.
  unfold dedup_step. rewrite Hid. cbn [mbind option_bind].
  assert (Hrid : record_id r = id) by (unfold record_id; rewrite Hid; reflexivity).
  destruct (String.eqb id "") eqn:Hblank; [reflexivity|].
  apply String.eqb_neq in Hblank.
  destruct Hcase as [Hempty|(x & Hin & Hsame & Hvalid)]; [congruence|].
  rewrite (Hflag id Hblank).
  assert (Hfind : exists y,
             List.find (fun x => has_id id x && valid enabled_models x) results = Some y).
  { destruct (List.find (fun x => has_id id x && valid enabled_models x) results)
      as [y|] eqn:Hf; [eauto|].
    eapply find_none in Hf; [|exact Hin]. simpl in Hf.
    unfold has_id in Hf. rewrite Hsame, Hrid, String.eqb_refl, Hvalid in Hf.
    discriminate. }
  destruct Hfind as [y Hy]. unfold pick. rewrite Hy. simpl.
  apply find_some in Hy as [_ Hy]. apply andb_prop in Hy as [_ Hy].
  rewrite Hy. reflexivity.
Qed.

Lemma dedup_loop_app l1 l2 st :
  dedup_loop enabled_models st (l1 ++ l2)
  = st1 ← dedup_loop enabled_models st l1; dedup_loop enabled_models st1 l2.
Proof.
  revert st. induction l1 as [|x l1 IH]; intros st; simpl; [reflexivity|].
  destruct (dedup_step enabled_models st x); simpl; [apply IH|reflexivity].
Qed.

(** X7. a stored record without a question id, or one whose question id
    already has a record with a valid answer earlier in the file, changes no
    figure of the statistics, whichever the scoring mode. *)
Theorem redundant_record_changes_nothing (results : list dict) (r : dict) :
  Forall (readable enabled_models) results ->
  readable enabled_models r ->
  record_id r = "" \/ already_answered enabled_models results r ->
  is_Some (_deduplicate_results enabled_models results) /\
  _deduplicate_results enabled_models (results ++ [r])
  = _deduplicate_results enabled_models results /\
  calculate_output_statistics count_by_rounds enabled_models (results ++ [r])
  = calculate_output_statistics count_by_rounds enabled_models results.
Proof.
  intros Hall Hr Hcase.
  destruct (collect_follows_dedup results [] _ dedup_start_inv (List.Forall_nil _) Hall)
    as (st & Hloop & Hcollect & Hinv).
  simpl in Hinv, Hcollect.
  pose proof (dedup_step_skips results st r Hinv Hall Hr Hcase) as Hskip.
  assert (Hall' : Forall (readable enabled_models) (results ++ [r]))
    by (apply Forall_app; split; [exact Hall|constructor; [exact Hr|constructor]]).
  destruct (collect_follows_dedup (results ++ [r]) [] _ dedup_start_inv
              (List.Forall_nil _) Hall')
    as (st' & Hloop' & Hcollect' & _).
  simpl in Hcollect'.
  assert (Hsame : st' = st).
  { rewrite dedup_loop_app, Hloop in Hloop'. cbn [mbind option_bind dedup_loop] in Hloop'.
    rewrite Hskip in Hloop'. cbn [mbind option_bind] in Hloop'. congruence. }
  subst st'.
  assert (Hdedup : _deduplicate_results enabled_models (results ++ [r])
                   = _deduplicate_results enabled_models results).
  { unfold _deduplicate_results. rewrite Hloop, Hloop'. reflexivity. }
  split; [unfold _deduplicate_results; rewrite Hloop; eexists; reflexivity|].
  split; [exact Hdedup|].
  unfold calculate_output_statistics. rewrite Hdedup.
  unfold total_whole_item. rewrite Hcollect, Hcollect'. reflexivity.
Qed.

Lemma accuracy_fraction c :
  (correct_count c <= total_count c)%nat -> (0 <= accuracy c <= 1)%Q.
Proof.
  intros H. unfold accuracy. destruct (total_count c) as [|n] eqn:Ht.
  - split; [apply Qle_refl|discriminate].
  - unfold Qle. simpl. split; [lia|].
    rewrite Z.mul_1_r, Z.mul_1_l.
    replace (Z.pos (Pos.of_nat (S n))) with (Z.of_nat (S n)); [lia|].
    rewrite <- Pos.of_nat_succ. lia.
Qed.

Lemma sound_mk p : (snd p <= fst p)%nat -> sound (mk_counts p).
Proof.
  intros H. split; [exact H|]. apply accuracy_fraction. exact H.
Qed.

Lemma count_rounds_le answers match_gt :
  (snd (count_rounds answers match_gt) <= fst (count_rounds answers match_gt))%nat.
Proof.
  induction match_gt as [|[k v] rest IH]; simpl; [lia|].
  destruct (is_round_empty _); simpl; [exact IH|].
  destruct (truthy v); simpl; lia.
Qed.

Lemma _count_item_le item model_key entry model_name :
  (snd (_count_item count_by_rounds item model_key entry model_name)
   <= fst (_count_item count_by_rounds item model_key entry model_name))%nat.
Proof.
  unfold _count_item.
  destruct (get_default entry "match_gt" (VBool false)) as [| | | | | |match_gt].
  7:{ destruct count_by_rounds.
      - destruct (get_default entry "answer" (VDict [])); simpl; try lia.
        apply count_rounds_le.
      - match goal with |- context [if ?b then (O, O) else _] => destruct b end;
          simpl; [lia|].
        destruct (all_rounds match_gt); simpl; lia. }
  all: repeat match goal with
              | |- context [if ?b then _ else _] => destruct b
              end; simpl; lia.
Qed.

Lemma add_counts_le a b :
  (snd a <= fst a)%nat -> (snd b <= fst b)%nat ->
  (snd (add_counts a b) <= fst (add_counts a b))%nat.
Proof. unfold add_counts. simpl. lia. Qed.

Lemma count_models_le item : forall names p,
  count_models count_by_rounds item names = Some p -> (snd p <= fst p)%nat.
Proof.
  induction names as [|m names IH]; simpl; intros p.
  - intros [= <-]. simpl. lia.
  - destruct (_find_model_entry item m) as [r|]; [|discriminate].
    cbn [mbind option_bind].
    destruct (count_models count_by_rounds item names) as [rest|]; [|discriminate].
    cbn [mbind option_bind]. specialize (IH rest eq_refl).
    destruct r as [[model_key entry]|]; intros [= <-]; [|exact IH].
    apply add_counts_le; [apply _count_item_le|exact IH].
Qed.

Lemma sum_over_le (f : dict -> option (nat * nat)) :
  (forall item p, f item = Some p -> (snd p <= fst p)%nat) ->
  forall items p, sum_over f items = Some p -> (snd p <= fst p)%nat.
Proof.
  intros Hf. induction items as [|item items IH]; simpl; intros p.
  - intros [= <-]. simpl. lia.
  - destruct (f item) as [a|] eqn:Ha; [|discriminate]. cbn [mbind option_bind].
    destruct (sum_over f items) as [b|]; [|discriminate]. cbn [mbind option_bind].
    intros [= <-]. apply add_counts_le; [eapply Hf; exact Ha|apply IH; reflexivity].
Qed.

Lemma rows_sound {A} (f : A -> option (nat * nat)) (names : A -> string) :
  (forall x p, f x = Some p -> (snd p <= fst p)%nat) ->
  forall l rows,
    mapM (fun x => c ← f x; Some (names x, mk_counts c)) l = Some rows ->
    sound_rows rows /\ map fst rows = map names l.
Proof.
  intros Hf l rows Hmap. apply mapM_Some in Hmap.
  induction Hmap as [|x row l rows Hrow _ IH]; [split; constructor|].
  destruct (f x) as [c|] eqn:Hc; [|discriminate]. cbn [mbind option_bind] in Hrow.
  injection Hrow as <-. destruct IH as [IH1 IH2]. split.
  - constructor; [|exact IH1]. apply sound_mk. eapply Hf. exact Hc.
  - simpl. rewrite IH2. reflexivity.
Qed.

Lemma model_rows_sound deduplicated names acc rows :
  model_rows count_by_rounds deduplicated names acc = Some rows ->
  sound_rows acc ->
  sound_rows rows
  /\ (List.NoDup (map fst acc ++ names) ->
      map fst rows = (map fst acc ++ names)%list).
Proof.
  revert acc. induction names as [|m names IH]; intros acc Hrows Hacc.
  - injection Hrows as <-. split; [exact Hacc|].
    intros _. rewrite app_nil_r. reflexivity.
  - cbn [model_rows] in Hrows.
    destruct (model_row count_by_rounds deduplicated m) as [c|] eqn:Hc;
      [|discriminate].
    cbn [mbind option_bind] in Hrows.
    assert (Hm : sound (mk_counts c)).
    { apply sound_mk. revert Hc. unfold model_row. apply sum_over_le.
      intros item q. destruct (_find_model_entry item m) as [[[k e]|]|];
        cbn [mbind option_bind]; intros [= <-]; [apply _count_item_le|simpl; lia]. }
    destruct (IH _ Hrows) as [IH1 IH2].
    { apply List.Forall_forall. intros [k v] Hin.
      apply assoc_set_In in Hin as [[_ ->]|Hin]; [exact Hm|].
      unfold sound_rows in Hacc. rewrite List.Forall_forall in Hacc.
      exact (Hacc _ Hin). }
    split; [exact IH1|]. intros Hnd.
    assert (Hfresh : ~ In m (map fst acc)).
    { intros Hin. apply NoDup_remove_2 in Hnd. apply Hnd.
      apply in_or_app. left. exact Hin. }
    rewrite (assoc_set_fresh acc m (mk_counts c) Hfresh) in IH2.
    rewrite map_app in IH2. cbn [map fst] in IH2.
    rewrite <- app_assoc in IH2. apply IH2. exact Hnd.
Qed.

(** X8. in every figure of the statistics the number of correct units is at
    most the number of counted units and the accuracy lies between 0 and 1;
    when the enabled models are distinct names, [by_model] has one row per
    enabled model, in the order given (a name listed twice has one row
    only). *)
Theorem statistics_rows_are_sound (results : list dict) (s : output_statistics) :
  calculate_output_statistics count_by_rounds enabled_models results = Some s ->
  sound (total s) /\
  sound_rows (by_model s) /\
  (List.NoDup enabled_models -> map fst (by_model s) = enabled_models) /\
  sound_rows (by_profile s) /\
  Forall (fun category => sound_rows (snd category)) (by_category s).
Proof.
  unfold calculate_output_statistics.
  destruct (_deduplicate_results enabled_models results) as [deduplicated|];
    [|discriminate].
  cbn [mbind option_bind].
  destruct (if count_by_rounds
            then total_by_rounds count_by_rounds enabled_models deduplicated
            else total_whole_item enabled_models results)
    as [tot|] eqn:Htotal; [|discriminate].
  cbn [mbind option_bind].
  destruct (model_rows _ _ enabled_models []) as [rows_model|] eqn:Hmodel;
    [|discriminate].
  cbn [mbind option_bind].
  destruct (profile_rows _ _ _) as [rows_profile|] eqn:Hprofile; [|discriminate].
  cbn [mbind option_bind].
  destruct (mapM _ category_fields) as [rows_category|] eqn:Hcategory; [|discriminate].
  cbn [mbind option_bind]. intros [= <-]. cbn [total by_model by_profile by_category].
  split; [|split; [|split; [|split]]].
  - apply sound_mk.
    assert (Hcases : total_by_rounds count_by_rounds enabled_models deduplicated
                     = Some tot
                     \/ total_whole_item enabled_models results = Some tot)
      by (destruct count_by_rounds; auto).
    clear Htotal. destruct Hcases as [Htotal|Htotal].
    + unfold total_by_rounds in Htotal. eapply sum_over_le; [|exact Htotal].
      intros item p. simpl. destruct (text_field item "question_id"); [|discriminate].
      cbn [mbind option_bind]. destruct (String.eqb _ ""); [intros [= <-]; simpl; lia|].
      apply count_models_le.
    + unfold total_whole_item in Htotal.
      destruct (collect_loop _ _ _); [|discriminate]. cbn [mbind option_bind] in Htotal.
      eapply sum_over_le; [|exact Htotal].
      intros item p. simpl.
      destruct (question_outcome item enabled_models false) as [[[|] [|]]|];
        intros [= <-]; simpl; lia.
  - apply (model_rows_sound deduplicated enabled_models [] rows_model Hmodel).
    constructor.
  - exact (proj2 (model_rows_sound deduplicated enabled_models [] rows_model
                    Hmodel (List.Forall_nil _))).
  - unfold profile_rows in Hprofile.
    destruct (profile_values deduplicated []) as [values|]; [|discriminate].
    cbn [mbind option_bind] in Hprofile.
    eapply (rows_sound _ (fun p => p)); [|exact Hprofile].
    intros profile p. apply sum_over_le.
    intros item q. destruct (is_name _ _); [apply count_models_le|].
    intros [= <-]. simpl. lia.
  - apply Forall_filter_sound. apply mapM_Some in Hcategory.
    clear Htotal Hmodel Hprofile.
    induction Hcategory as [|field row fields rows Hrow _ IH]; constructor; [|exact IH].
    unfold field_rows in Hrow.
    destruct (field_values field deduplicated []) as [values|]; [|discriminate].
    cbn [mbind option_bind] in Hrow.
    destruct (mapM _ values) as [rows_field|] eqn:Hfield; [|discriminate].
    cbn [mbind option_bind] in Hrow. injection Hrow as <-. simpl.
    eapply (rows_sound _ (fun v => v)); [|exact Hfield].
    intros v p. unfold field_row. apply sum_over_le.
    intros item q. destruct (text_field item field); [|discriminate].
    cbn [mbind option_bind]. destruct (String.eqb _ v); [apply count_models_le|].
    intros [= <-]. simpl. lia.
Qed.

End AggregatorFacts.

Lemma deduplicate_is_idempotent_witness :
  exists deduplicated,
    _deduplicate_results ["m"] [empty_record "q1"; answered_record "q1"]
    = Some deduplicated /\
    List.NoDup (map record_id deduplicated) /\
    Forall (fun x => In x [empty_record "q1"; answered_record "q1"]
                     /\ record_id x <> "") deduplicated /\
    _deduplicate_results ["m"] deduplicated = Some deduplicated.
Proof.
  apply (deduplicate_is_idempotent ["m"] [empty_record "q1"; answered_record "q1"]).
  repeat constructor; vm_compute; eauto.
Defined.

Lemma redundant_record_changes_nothing_witness :
  is_Some (_deduplicate_results ["m"] [empty_record "q1"; answered_record "q1"]) /\
  _deduplicate_results ["m"]
    ([empty_record "q1"; answered_record "q1"] ++ [answered_record "q1"])
  = _deduplicate_results ["m"] [empty_record "q1"; answered_record "q1"] /\
  calculate_output_statistics false ["m"]
    ([empty_record "q1"; answered_record "q1"] ++ [answered_record "q1"])
  = calculate_output_statistics false ["m"] [empty_record "q1"; answered_record "q1"].
Proof.
  apply (redundant_record_changes_nothing false ["m"]
           [empty_record "q1"; answered_record "q1"] (answered_record "q1")).
  - repeat constructor; vm_compute; eauto.
  - split; vm_compute; eauto.
  - right. exists (answered_record "q1"). split; [simpl; auto|].
    split; reflexivity.
Defined.

Lemma statistics_rows_are_sound_witness :
  exists s,
    calculate_output_statistics true ["m"] (stored_records second_round_fails) = Some s /\
    sound (total s) /\ sound_rows (by_model s) /\ map fst (by_model s) = ["m"].
Proof.
  destruct (calculate_output_statistics true ["m"] (stored_records second_round_fails))
    as [s|] eqn:Hs; [|vm_compute in Hs; discriminate].
  exists s. split; [reflexivity|].
  destruct (statistics_rows_are_sound true ["m"] _ s Hs) as (H1 & H2 & H3 & _).
  split; [exact H1|]. split; [exact H2|].
  apply H3. apply List.NoDup_cons; [intros []|apply List.NoDup_nil].
Defined.
(** ** Loading an artifact on resume *)

Section ResumeFacts.

Variable model_name : string.

(** What the loop of main.py holds once the records [seen] are processed. *)
Record resume_inv (seen : list dict) (st : Store.resume_state) : Prop := {
  rinv_item : forall id, id <> "" ->
    assoc_get (Store.question_id_to_item st) id = first_answered model_name id seen;
  rinv_flag : forall id, id <> "" ->
    assoc_get (Store.question_id_has_valid_answer st) id
    = option_map (answered model_name) (first_answered model_name id seen);
  rinv_seen : forall id,
    id ∈ Store.seen_ids st <-> id <> "" /\ exists x, In x seen /\ record_id x = id;
  rinv_completed : forall id,
    id ∈ Store.completed_ids st
    <-> id <> "" /\ exists x, In x seen /\ record_id x = id
                              /\ answered model_name x = true;
  rinv_keys : List.NoDup (map fst (Store.question_id_to_item st));
  rinv_ids : forall k item, In (k, item) (Store.question_id_to_item st) ->
    record_id item = k /\ k <> "";
  rinv_count :
    (Store.removed_duplicate_count st + length (Store.question_id_to_item st)
     = length (identified seen))%nat
}.

Lemma first_answered_snoc_other id seen item :
  record_id item <> id ->
  first_answered model_name id (seen ++ [item]) = first_answered model_name id seen.
Proof.
  intros Hne. unfold first_answered. rewrite !find_snoc.
  unfold has_id. destruct (String.eqb_spec (record_id item) id); [congruence|].
  simpl. destruct (List.find _ seen); [reflexivity|].
  destruct (List.find _ seen); reflexivity.
Qed.

Lemma first_answered_snoc_same seen item :
  first_answered model_name (record_id item) (seen ++ [item])
  = match first_answered model_name (record_id item) seen with
    | Some old =>
        if negb (answered model_name old) && answered model_name item
        then Some item else Some old
    | None => Some item
    end.
Proof.
  unfold first_answered. rewrite !find_snoc. unfold has_id at 2 4.
  rewrite String.eqb_refl. simpl.
  destruct (List.find (fun x => has_id (record_id item) x && answered model_name x) seen)
    as [y|] eqn:Hy.
  - apply find_some in Hy as [_ Hy]. apply andb_prop in Hy as [_ Hy].
    rewrite Hy. reflexivity.
  - destruct (List.find (has_id (record_id item)) seen) as [old|] eqn:Hold.
    + assert (Hno : answered model_name old = false).
      { apply find_some in Hold as [Hin Hid].
        eapply find_none in Hy; [|exact Hin]. simpl in Hy. rewrite Hid in Hy.
        exact Hy. }
      rewrite Hno. simpl. destruct (answered model_name item); reflexivity.
    + destruct (answered model_name item); reflexivity.
Qed.

Lemma first_answered_In id seen item :
  first_answered model_name id seen = Some item ->
  In item seen /\ record_id item = id.
Proof.
  unfold first_answered.
  destruct (List.find (fun x => _ && _) seen) as [y|] eqn:Hf.
  - intros [= <-]. apply find_some in Hf as [Hin Hb].
    apply andb_prop in Hb as [Hid _]. split; [exact Hin|].
    apply String.eqb_eq. exact Hid.
  - intros Hfind. apply find_some in Hfind as [Hin Hid]. split; [exact Hin|].
    apply String.eqb_eq. exact Hid.
Qed.

Lemma first_answered_None id seen :
  first_answered model_name id seen = None ->
  forall x, In x seen -> record_id x <> id.
Proof.
  unfold first_answered.
  destruct (List.find (fun x => _ && _) seen); [discriminate|].
  intros Hnone x Hin Hid. eapply find_none in Hnone; [|exact Hin].
  unfold has_id in Hnone. rewrite Hid, String.eqb_refl in Hnone. discriminate.
Qed.

Lemma first_answered_good id seen x :
  In x seen -> record_id x = id -> answered model_name x = true ->
  exists y, first_answered model_name id seen = Some y /\ answered model_name y = true.
Proof.
  intros Hin Hid Hans. unfold first_answered.
  destruct (List.find (fun x => has_id id x && answered model_name x) seen)
    as [y|] eqn:Hf.
  - exists y. split; [reflexivity|]. apply find_some in Hf as [_ Hb].
    apply andb_prop in Hb. tauto.
  - eapply find_none in Hf; [|exact Hin]. simpl in Hf.
    unfold has_id in Hf. rewrite Hid, String.eqb_refl, Hans in Hf. discriminate.
Qed.

Lemma identified_snoc seen item :
  identified (seen ++ [item])
  = (identified seen ++ if String.eqb (record_id item) "" then [] else [item])%list.
Proof.
  unfold identified. rewrite List.filter_app. simpl.
  destruct (String.eqb (record_id item) ""); reflexivity.
Qed.

Lemma assoc_set_length_fresh {A} (d : list (string * A)) k v :
  assoc_get d k = None -> length (assoc_set d k v) = S (length d).
Proof.
  induction d as [|[k' v'] d IH]; simpl; [reflexivity|].
  destruct (String.eqb k k'); [discriminate|]. intros H. simpl. rewrite IH; auto.
Qed.

Lemma assoc_set_length_present {A} (d : list (string * A)) k v old :
  assoc_get d k = Some old -> length (assoc_set d k v) = length d.
Proof.
  induction d as [|[k' v'] d IH]; simpl; [discriminate|].
  destruct (String.eqb k k'); [reflexivity|]. intros H. simpl. rewrite IH; auto.
Qed.

Lemma resume_start_inv : resume_inv [] Store.resume_start.
Proof.
  split; try reflexivity; cbn.
  - intros id. split; [set_solver|]. intros (_ & x & [] & _).
  - intros id. split; [set_solver|]. intros (_ & x & [] & _).
  - constructor.
  - intros ? ? [].
Qed.

Ltac resume_fields :=
  cbn [Store.seen_ids Store.question_id_to_item Store.question_id_has_valid_answer
       Store.completed_ids Store.removed_duplicate_count Store.empty_answer_count].

Lemma resume_step_inv seen st item :
  resume_inv seen st ->
  is_Some (text_field item "question_id") ->
  exists st', Store.resume_step model_name st item = Some st'
              /\ resume_inv (seen ++ [item]) st'.
Proof.
  intros [Hitem Hflag Hseen Hdone Hkeys Hids Hcount] [id Hid].
  unfold Store.resume_step. rewrite Hid. cbn [mbind option_bind].
  assert (Hrid : record_id item = id) by (unfold record_id; rewrite Hid; reflexivity).
  assert (Hother : forall id', id' <> id ->
            first_answered model_name id' (seen ++ [item])
            = first_answered model_name id' seen).
  { intros id' Hne. apply first_answered_snoc_other. congruence. }
  assert (Hmem : forall id' (P : dict -> Prop),
            (exists x, In x (seen ++ [item]) /\ record_id x = id' /\ P x)
            <-> (exists x, In x seen /\ record_id x = id' /\ P x)
                \/ (id' = id /\ P item)).
  { intros id' P. split.
    - intros (x & Hin & Hx & HP). apply in_app_or in Hin.
      destruct Hin as [Hin|[<-|[]]]; [left; eauto|right; split; congruence].
    - intros [(x & Hin & Hx & HP)|[-> HP]].
      + exists x. split; [apply in_or_app; auto|auto].
      + exists item. split; [apply in_or_app; right; left; reflexivity|auto]. }
  assert (Hmem0 : forall id',
            (exists x, In x (seen ++ [item]) /\ record_id x = id')
            <-> (exists x, In x seen /\ record_id x = id') \/ id' = id).
  { intros id'. specialize (Hmem id' (fun _ => True)). split.
    - intros (x & Hin & Hx).
      destruct (proj1 Hmem (ex_intro _ x (conj Hin (conj Hx I))))
        as [(y & ? & ? & _)|[? _]]; eauto.
    - intros [(x & Hin & Hx)|Heq].
      + destruct (proj2 Hmem (or_introl (ex_intro _ x (conj Hin (conj Hx I)))))
          as (y & ? & ? & _). eauto.
      + destruct (proj2 Hmem (or_intror (conj Heq I))) as (y & ? & ? & _). eauto. }
  destruct (String.eqb_spec id "") as [Hblank|Hblank].
  { (* no id: the record is skipped *)
    exists st. split; [reflexivity|]. split; try assumption.
    - intros id' Hne. rewrite Hother by congruence. auto.
    - intros id' Hne. rewrite Hother by congruence. auto.
    - intros id'. rewrite Hseen, Hmem0. intuition congruence.
    - intros id'. rewrite Hdone, Hmem. intuition congruence.
    - rewrite identified_snoc, Hrid, Hblank. simpl. rewrite app_nil_r. exact Hcount. }
  assert (Hident : length (identified (seen ++ [item])) = S (length (identified seen))).
  { rewrite identified_snoc, Hrid.
    destruct (String.eqb_spec id ""); [congruence|].
    rewrite length_app. simpl. lia. }
  pose proof (first_answered_snoc_same seen item) as Hsame. rewrite Hrid in Hsame.
  pose proof (Hitem id Hblank) as Hq. pose proof (Hflag id Hblank) as Hf.
  fold (answered model_name item).
  destruct (first_answered model_name id seen) as [old|] eqn:Hold.
  - (* the id has been met *)
    destruct (first_answered_In _ _ _ Hold) as [Hold_in Hold_id].
    simpl in Hf. rewrite Hf.
    assert (Hmet : id ∈ Store.seen_ids st) by (apply Hseen; eauto).
    destruct (answered model_name old) eqn:Hold_ans.
    + (* and answered: a later record is skipped *)
      eexists. split; [reflexivity|]. split; resume_fields; try assumption.
      * intros id' Hne. destruct (String.eqb_spec id' id) as [->|Hd];
          [rewrite Hsame; simpl; auto|rewrite Hother by exact Hd; auto].
      * intros id' Hne. destruct (String.eqb_spec id' id) as [->|Hd];
          [rewrite Hsame; simpl; rewrite Hold_ans; auto|rewrite Hother by exact Hd; auto].
      * intros id'. rewrite Hseen, Hmem0. split; [tauto|].
        intros [Hne [Hex| ->]]; [tauto|]. split; [exact Hne|eauto].
      * intros id'. rewrite Hdone, Hmem. split; [tauto|].
        intros [Hne [Hex|[-> _]]]; [tauto|]. split; [exact Hne|eauto].
      * rewrite Hident. lia.
    + destruct (decide (id ∈ Store.seen_ids st)); [|contradiction].
      destruct (answered model_name item) eqn:Hans; simpl.
      * (* the first answer of the id replaces the empty record *)
        eexists. split; [reflexivity|]. split; resume_fields.
        -- intros id' Hne. destruct (String.eqb_spec id' id) as [->|Hd].
           ++ rewrite assoc_get_set_same, Hsame. simpl. reflexivity.
           ++ rewrite assoc_get_set_other, Hother by congruence. auto.
        -- intros id' Hne. destruct (String.eqb_spec id' id) as [->|Hd].
           ++ rewrite assoc_get_set_same, Hsame. simpl. rewrite Hans. reflexivity.
           ++ rewrite assoc_get_set_other, Hother by congruence. auto.
        -- intros id'. rewrite Hseen, Hmem0. split; [tauto|].
           intros [Hne [Hex| ->]]; [tauto|]. split; [exact Hne|eauto].
        -- intros id'. rewrite elem_of_union, elem_of_singleton, Hdone, Hmem.
           split; [intros [->|?]; [|tauto]; split; [exact Hblank|right; auto]|].
           intros [Hne [Hex|[-> _]]]; [right; tauto|left; reflexivity].
        -- apply assoc_set_NoDup. exact Hkeys.
        -- intros k x Hin. apply assoc_set_In in Hin.
           destruct Hin as [[-> ->]|Hin]; [auto|apply Hids; exact Hin].
        -- rewrite (assoc_set_length_present _ _ _ _ Hq), Hident. lia.
      * (* one more empty record of the id *)
        eexists. split; [reflexivity|]. split; resume_fields; try assumption.
        -- intros id' Hne. destruct (String.eqb_spec id' id) as [->|Hd];
             [rewrite Hsame; simpl; auto|rewrite Hother by exact Hd; auto].
        -- intros id' Hne. destruct (String.eqb_spec id' id) as [->|Hd];
             [rewrite Hsame; simpl; rewrite ?Hold_ans; auto
             |rewrite Hother by exact Hd; auto].
        -- intros id'. rewrite Hseen, Hmem0. split; [tauto|].
           intros [Hne [Hex| ->]]; [tauto|]. split; [exact Hne|eauto].
        -- intros id'. rewrite Hdone, Hmem. split; [tauto|].
           intros [Hne [Hex|[-> Habs]]]; [tauto|congruence].
        -- rewrite Hident. lia.
  - (* the first record of the id *)
    simpl in Hf. rewrite Hf.
    assert (Hnew : id ∉ Store.seen_ids st).
    { rewrite Hseen. intros (_ & x & Hin & Hx).
      exact (first_answered_None _ _ Hold x Hin Hx). }
    destruct (decide (id ∈ Store.seen_ids st)); [contradiction|].
    eexists. split; [reflexivity|]. split; resume_fields.
    + intros id' Hne. destruct (String.eqb_spec id' id) as [->|Hd].
      * rewrite assoc_get_set_same, Hsame. reflexivity.
      * rewrite assoc_get_set_other, Hother by congruence. auto.
    + intros id' Hne. destruct (String.eqb_spec id' id) as [->|Hd].
      * rewrite assoc_get_set_same, Hsame. reflexivity.
      * rewrite assoc_get_set_other, Hother by congruence. auto.
    + intros id'. rewrite elem_of_union, elem_of_singleton, Hseen, Hmem0.
      split; [intros [->|?]; [split; [exact Hblank|right; reflexivity]|tauto]|].
      intros [Hne [Hex| ->]]; [right; tauto|left; reflexivity].
    + intros id'. unfold answered in *.
      destruct (is_answer_empty item None (Some model_name)) eqn:Hempty.
      * rewrite Hdone, Hmem. split; [tauto|].
        intros [Hne [Hex|[-> Habs]]]; [tauto|rewrite Hempty in Habs; discriminate].
      * rewrite elem_of_union, elem_of_singleton, Hdone, Hmem.
        split; [intros [->|?]; [split; [exact Hblank|right; rewrite Hempty; auto]
                               |tauto]|].
        intros [Hne [Hex|[-> _]]]; [right; tauto|left; reflexivity].
    + apply assoc_set_NoDup. exact Hkeys.
    + intros k x Hin. apply assoc_set_In in Hin.
      destruct Hin as [[-> ->]|Hin]; [auto|apply Hids; exact Hin].
    + rewrite (assoc_set_length_fresh _ _ _ Hq), Hident. lia.
Qed.

Lemma resume_loop_inv all_items : forall seen st,
  resume_inv seen st ->
  Forall (fun item => is_Some (text_field item "question_id")) all_items ->
  exists st', Store.resume_loop model_name st all_items = Some st'
              /\ resume_inv (seen ++ all_items) st'.
Proof.
  induction all_items as [|item rest IH]; intros seen st Hinv Hall.
  - exists st. rewrite app_nil_r. auto.
  - inversion Hall as [|? ? Hitem Hrest]; subst.
    destruct (resume_step_inv seen st item Hinv Hitem) as (st1 & Hstep & Hinv1).
    destruct (IH _ _ Hinv1 Hrest) as (st' & Hloop & Hinv').
    exists st'. split; [simpl; rewrite Hstep; exact Hloop|].
    rewrite <- app_assoc in Hinv'. exact Hinv'.
Qed.

(** X9. on resume, a question id is in the completed set exactly when some
    stored record of it has a non-empty answer for the model; the records
    kept in memory are one per id -- the first with an answer, else the
    first -- and every other record with an id is counted as a removed
    duplicate. *)
Theorem resume_keeps_first_answered (all_items : list dict) :
  Forall (fun item => is_Some (text_field item "question_id")) all_items ->
  exists st,
    Store.resume_loop model_name Store.resume_start all_items = Some st /\
    Store.load_completed model_name all_items = Some (Store.completed_ids st) /\
    Store.load_cleaned model_name all_items
    = Some (map snd (Store.question_id_to_item st)) /\
    (forall id, id ∈ Store.completed_ids st <->
                id <> "" /\ exists x, In x all_items /\ record_id x = id
                                      /\ answered model_name x = true) /\
    (forall id, id <> "" ->
       List.filter (has_id id) (map snd (Store.question_id_to_item st))
       = match first_answered model_name id all_items with
         | Some item => [item]
         | None => []
         end) /\
    (Store.removed_duplicate_count st + length (Store.question_id_to_item st)
     = length (identified all_items))%nat.
Proof.
  intros Hall.
  destruct (resume_loop_inv all_items [] _ resume_start_inv Hall) as (st & Hloop & Hinv).
  simpl in Hinv. destruct Hinv as [Hitem _ _ Hdone Hkeys Hids Hcount].
  exists st. split; [exact Hloop|].
  split; [unfold Store.load_completed; rewrite Hloop; reflexivity|].
  split; [unfold Store.load_cleaned; rewrite Hloop; reflexivity|].
  split; [exact Hdone|]. split; [|exact Hcount].
  intros id Hid. rewrite (kept_records _ id Hkeys Hids), (Hitem id Hid). reflexivity.
Qed.

End ResumeFacts.

Lemma resume_keeps_first_answered_witness :
  exists st,
    Store.resume_loop "m" Store.resume_start
      [empty_record "q1"; answered_record "q1"; answered_record "q1"] = Some st /\
    "q1" ∈ Store.completed_ids st /\
    map snd (Store.question_id_to_item st) = [answered_record "q1"] /\
    Store.removed_duplicate_count st = 2%nat.
Proof.
  destruct (resume_keeps_first_answered "m"
              [empty_record "q1"; answered_record "q1"; answered_record "q1"])
    as (st & Hloop & _ & _ & Hdone & _ & _).
  { repeat constructor; vm_compute; eauto. }
  exists st. split; [exact Hloop|]. split.
  - apply Hdone. split; [discriminate|].
    exists (answered_record "q1"). split; [simpl; auto|]. split; reflexivity.
  - vm_compute in Hloop. injection Hloop as <-. split; reflexivity.
Defined.
(** ** What a flush writes *)

Section FlushFacts.

Variable json_load : string -> option value.
Variable json_dump : value -> string.
Variable json_dumps : value -> string.
Variable file_size : string -> nat.
Variable label : scoring -> string.
Variable count_by_rounds : bool.
Variable enabled_models : list string.

(** X10. the replacement document of a flush holds every record of the
    artifact followed by every buffered record, in order; its other fields,
    apart from the statistics, are those of the artifact. *)
Theorem flush_appends_records (fs : Store.files) (output_file : string)
  (buffer : list dict) (doc : value) :
  Store.merged_document json_load file_size label count_by_rounds enabled_models
    fs output_file buffer = Some doc ->
  exists old existing d,
    existing_document json_load file_size fs output_file = Some (VDict old) /\
    get_default old "results" (VList []) = VList existing /\
    doc = VDict d /\
    dict_get d "results" = Some (VList (existing ++ map VDict buffer)) /\
    is_Some (dict_get d "statistics") /\
    (forall k, k <> "results" -> k <> "statistics" -> dict_get d k = dict_get old k).
Proof.
  unfold Store.merged_document.
  fold (existing_document json_load file_size fs output_file).
  destruct (existing_document json_load file_size fs output_file) as [[| | | | | |old]|];
    try discriminate.
  cbn [mbind option_bind].
  destruct (get_default old "results" (VList [])) as [| | | | |existing|] eqn:Hres;
    try discriminate.
  destruct (Store.as_dicts _) as [items|]; [|discriminate]. cbn [mbind option_bind].
  destruct (calculate_output_statistics _ _ _) as [stats|]; [|discriminate].
  cbn [mbind option_bind]. intros [= <-].
  exists old, existing. eexists. split; [reflexivity|]. split; [exact Hres|].
  split; [reflexivity|]. split; [|split].
  - rewrite dict_get_set_other by discriminate. apply dict_get_set_same.
  - rewrite dict_get_set_same. eauto.
  - intros k Hr Hs. rewrite !dict_get_set_other by congruence. reflexivity.
Qed.

Lemma log_grows (l extra : list Store.event) : extra <> [] -> (l ++ extra)%list <> l.
Proof.
  intros Hne Heq. apply (f_equal (@length _)) in Heq. rewrite length_app in Heq.
  destruct extra; [congruence|]. simpl in Heq. lia.
Qed.

(** X11. nothing stays in a buffer silently. After a flush either no error
    line was added to the log and the buffer of the (model, profile) is then
    empty, so that a flush repeated at once writes nothing, or an error line
    was added and the buffer is what it was. The buffers of the other
    (model, profile) pairs are never touched. *)
Theorem flush_leaves_no_silent_rest (st st' : Store.state)
  (output_files : gmap (string * string) string)
  (model_name profile : string) (o : Store.io) (seen : list Store.files) :
  Store.flush_json_buffer json_load json_dump file_size label
    count_by_rounds enabled_models st output_files model_name profile o
  = Some (seen, st') ->
  (forall key, key <> (model_name, profile) ->
     Store.result_buffers st' !! key = Store.result_buffers st !! key) /\
  ((Store.log st' = Store.log st /\
    (Store.result_buffers st' !! (model_name, profile) = None
     \/ Store.result_buffers st' !! (model_name, profile) = Some []) /\
    forall o',
      Store.flush_json_buffer json_load json_dump file_size label
        count_by_rounds enabled_models st' output_files model_name profile o'
      = Some ([Store.fs st'], st'))
   \/
   (reported (Store.log st) (Store.log st') /\
    Store.result_buffers st' = Store.result_buffers st)).
Proof.
  unfold Store.flush_json_buffer.
  destruct (Store.result_buffers st !! (model_name, profile)) as [[|record buffer]|]
    eqn:Hbuffer.
  - intros [= <- <-]. split; [reflexivity|]. left.
    split; [reflexivity|]. split; [auto|]. intros o'. rewrite Hbuffer. reflexivity.
  - destruct (output_files !! (model_name, profile)) as [output_file|]; [|discriminate].
    cbn [mbind option_bind].
    destruct (Store.merged_document _ _ _ _ _ _ _ _) as [doc|].
    + destruct (Store.atomic_rewrite _ _ _ _) as [states ok].
      destruct ok; intros [= <- <-]; cbn [Store.result_buffers Store.log Store.fs].
      * split; [intros key Hkey; apply lookup_insert_ne; congruence|].
        left. split; [reflexivity|].
        split; [right; apply lookup_insert_eq|].
        intros o'. rewrite lookup_insert_eq. reflexivity.
      * split; [reflexivity|]. right. split; [|reflexivity].
        eexists _, _. reflexivity.
    + intros [= <- <-]. cbn [Store.result_buffers Store.log].
      split; [reflexivity|]. right. split; [|reflexivity].
      eexists _, _. reflexivity.
  - intros [= <- <-]. split; [reflexivity|]. left.
    split; [reflexivity|]. split; [auto|]. intros o'. rewrite Hbuffer. reflexivity.
Qed.

End FlushFacts.

Lemma flush_appends_records_witness :
  exists old existing d,
    existing_document (fun _ => Some (VDict [("run", VStr "r1");
                                             ("results", VList [VDict (answered_record "q0")])]))
      String.length (Store.fs sample_store) "out.json" = Some (VDict old) /\
    get_default old "results" (VList []) = VList existing /\
    dict_get d "results"
    = Some (VList [VDict (answered_record "q0"); VDict (answered_record "q1")]) /\
    dict_get d "run" = Some (VStr "r1").
Proof.
  destruct (Store.merged_document
              (fun _ => Some (VDict [("run", VStr "r1");
                                     ("results", VList [VDict (answered_record "q0")])]))
              String.length (fun _ => "whole item") false ["m"]
              (Store.fs sample_store) "out.json" [answered_record "q1"])
    as [doc|] eqn:Hdoc; [|vm_compute in Hdoc; discriminate].
  destruct (flush_appends_records _ _ _ _ _ _ _ _ _ Hdoc)
    as (old & existing & d & Hold & Hres & _ & Hd & _ & Hkeep).
  exists old, existing, d. split; [exact Hold|]. split; [exact Hres|].
  vm_compute in Hold. injection Hold as <-. vm_compute in Hres. injection Hres as <-.
  split; [exact Hd|]. rewrite Hkeep by discriminate. reflexivity.
Defined.

Lemma flush_leaves_no_silent_rest_witness :
  exists seen st',
    sample_flush torn_write = Some (seen, st') /\
    reported (Store.log sample_store) (Store.log st') /\
    Store.result_buffers st' = Store.result_buffers sample_store.
Proof.
  destruct (sample_flush torn_write) as [[seen st']|] eqn:Hflush;
    [|vm_compute in Hflush; discriminate].
  exists seen, st'. split; [reflexivity|].
  destruct (flush_leaves_no_silent_rest _ _ _ _ _ _ _ _ _ _ _ _ _ Hflush)
    as [_ [(Hlog & _)|Hrest]]; [|exact Hrest].
  exfalso. vm_compute in Hflush. injection Hflush as _ <-. discriminate.
Defined.
(** ** Line-oriented artifacts *)

Section LineFacts.

Variable json_load : string -> option value.
Variable json_dumps : value -> string.

Lemma split_lines_line (a : string) : forall cur rest,
  Forall (fun c => c <> "010"%char) (list_ascii_of_string a) ->
  Store.split_lines (a ++ String "010" rest) cur
  = (cur ++ a) :: Store.split_lines rest "".
Proof.
  induction a as [|c a IH]; intros cur rest Hline.
  - simpl. replace (cur ++ "") with cur; [reflexivity|].
    clear. induction cur; simpl; congruence.
  - simpl in Hline. inversion Hline as [|? ? Hc Hrest]; subst.
    cbn [String.append Store.split_lines].
    destruct (Ascii.eqb_spec c "010"); [contradiction|].
    rewrite IH by exact Hrest. rewrite append_assoc. reflexivity.
Qed.

Lemma lines_round_trip (final_list : list value) :
  Forall (fun v => one_line (json_dumps v)
                   /\ json_load (json_dumps v) = Some v) final_list ->
  omap (fun line => let line := strip line in
                    if String.eqb line "" then None else json_load line)
       (Store.split_lines
          (fold_right (fun v acc => json_dumps v ++ String "010" acc) "" final_list) "")
  = final_list.
Proof.
  induction 1 as [|v l [(Hline & Hstrip & Hne) Hload] _ IH]; [reflexivity|].
  cbn [fold_right]. rewrite split_lines_line by exact Hline.
  cbn [omap list_omap String.append]. rewrite Hstrip.
  destruct (String.eqb_spec (json_dumps v) ""); [contradiction|].
  rewrite Hload. f_equal. exact IH.
Qed.

(** X12. what is written as a line-oriented artifact is read back as it was:
    when every record is dumped on one line and parses back to itself, the
    records read from the text written for [final_list] are [final_list],
    in order, and the header line is not among them. *)
Theorem jsonl_round_trip (stats : value) (final_list : list value) :
  Forall (fun c => c <> "010"%char)
         (list_ascii_of_string (json_dumps (VDict [("statistics", stats)]))) ->
  Forall (fun v => one_line (json_dumps v)
                   /\ json_load (json_dumps v) = Some v) final_list ->
  Store.read_records json_load (Store.jsonl_text json_dumps stats final_list)
  = final_list.
Proof.
  intros Hheader Hall. unfold Store.read_records, Store.jsonl_text.
  cbn [fold_right]. rewrite split_lines_line by exact Hheader.
  apply lines_round_trip. exact Hall.
Qed.

End LineFacts.

Section LineUpdate.

Variable json_load : string -> option value.
Variable json_dump : value -> string.
Variable json_dumps : value -> string.
Variable file_size : string -> nat.
Variable label : scoring -> string.
Variable count_by_rounds : bool.
Variable enabled_models : list string.

(** X13. the final update of a line-oriented artifact keeps every record.
    When the records read from the artifact are dicts the aggregator
    accepts, each is dumped on one line that parses back to it, and the
    write goes through, the artifact holds the same records afterwards, in
    the same order, below a new header, and nothing is logged as an error. *)
Theorem jsonl_update_keeps_records (st : Store.state)
  (output_file model_name profile text : string) (o : Store.io)
  (records : list value) (items : list dict) (stats : output_statistics) :
  Store.fs st !! output_file = Some text ->
  Store.read_records json_load text = records ->
  records <> [] ->
  Store.as_dicts records = Some items ->
  calculate_output_statistics count_by_rounds enabled_models items = Some stats ->
  Forall (fun c => c <> "010"%char)
         (list_ascii_of_string
            (json_dumps (VDict [("statistics", Store.stats_value label stats)]))) ->
  Forall (fun v => one_line (json_dumps v)
                   /\ json_load (json_dumps v) = Some v) records ->
  went_through o = true ->
  exists seen st' text',
    Store.update_statistics json_load json_dump json_dumps file_size label
      count_by_rounds enabled_models Store.Jsonl st output_file model_name profile o
    = (seen, st') /\
    Store.fs st' !! output_file = Some text' /\
    text' = Store.jsonl_text json_dumps (Store.stats_value label stats) records /\
    Store.read_records json_load text' = records /\
    Store.log st' = Store.log st /\
    Store.result_buffers st' = Store.result_buffers st.
Proof.
  intros Hfile Hread Hne Hdicts Hstats Hheader Hlines Hgo.
  unfold Store.update_statistics. rewrite Hfile, Hread.
  destruct records as [|r records]; [congruence|].
  rewrite Hdicts, Hstats.
  destruct (atomic_rewrite_succeeds (Store.fs st) output_file
              (Store.jsonl_text json_dumps (Store.stats_value label stats) (r :: records))
              o Hgo)
    as (before & final & Hrw & _ & Hfinal & _).
  rewrite Hrw. eexists _, _, _. split; [reflexivity|].
  cbn [Store.fs Store.log Store.result_buffers]. rewrite last_snoc.
  split; [exact Hfinal|]. split; [reflexivity|].
  split; [apply jsonl_round_trip; assumption|]. split; reflexivity.
Qed.

End LineUpdate.

Lemma jsonl_round_trip_witness :
  Store.read_records sample_loads
    (Store.jsonl_text sample_dumps (VDict [])
       [VDict (answered_record "q1"); VDict (answered_record "q2")])
  = [VDict (answered_record "q1"); VDict (answered_record "q2")].
Proof.
  apply (jsonl_round_trip sample_loads sample_dumps).
  - simpl. repeat constructor; discriminate.
  - repeat constructor; simpl; try discriminate; reflexivity.
Defined.

Lemma jsonl_update_keeps_records_witness :
  exists seen st' text',
    Store.update_statistics sample_loads (fun _ => "") sample_dumps String.length
      (fun _ => "whole item") false ["m"] Store.Jsonl sample_lines
      "out.jsonl" "m" "expert" {| Store.write := Store.WriteOk; Store.replace_ok := true |}
    = (seen, st') /\
    Store.fs st' !! "out.jsonl" = Some text' /\
    Store.read_records sample_loads text'
    = [VDict (answered_record "q1"); VDict (answered_record "q2")] /\
    Store.log st' = [].
Proof.
  destruct (calculate_output_statistics false ["m"]
              [answered_record "q1"; answered_record "q2"]) as [stats|] eqn:Hstats;
    [|vm_compute in Hstats; discriminate].
  destruct (jsonl_update_keeps_records sample_loads (fun _ => "") sample_dumps
              String.length (fun _ => "whole item") false ["m"] sample_lines
              "out.jsonl" "m" "expert"
              ("{}" ++ String "010" ("{q1}" ++ String "010" ("{q2}" ++ String "010" "")))
              {| Store.write := Store.WriteOk; Store.replace_ok := true |}
              [VDict (answered_record "q1"); VDict (answered_record "q2")]
              [answered_record "q1"; answered_record "q2"] stats)
    as (seen & st' & text' & Hupdate & Hfile & _ & Hread & Hlog & _).
  - reflexivity.
  - reflexivity.
  - discriminate.
  - reflexivity.
  - exact Hstats.
  - simpl. repeat constructor; discriminate.
  - repeat constructor; simpl; try discriminate; reflexivity.
  - reflexivity.
  - exists seen, st', text'. auto.
Defined.

(** ** The worker budget in every case *)

Section SchedulerBounds.

Import Scheduler.

Lemma combos_length (enabled_models profiles : list string) :
  length (combos enabled_models profiles)
  = (length enabled_models * length profiles)%nat.
Proof.
  unfold combos. induction enabled_models as [|m ms IH]; [reflexivity|].
  cbn [mbind list_bind]. rewrite length_app, IH. simpl. f_equal.
  clear. induction profiles as [|p ps IH]; [reflexivity|].
  cbn [mbind list_bind]. simpl. rewrite IH. reflexivity.
Qed.

(** X14. whatever [EVAL_WORKERS] holds, with at least one model and one
    profile the scheduler runs at least one combination with at least one
    worker, never more combinations than there are, and never more workers
    in total than the budget. With fewer workers than combinations it runs
    as many combinations as workers, one worker each, and the budget is
    fully used; otherwise fewer workers stay unused than there are
    combinations. Without any combination the division raises. *)
Theorem schedule_within_budget (env : option Z) (enabled_models profiles : list string) :
  let W := parse_workers env in
  let C := Z.of_nat (length enabled_models * length profiles) in
  1 <= W /\
  (C = 0 -> schedule env enabled_models profiles = None) /\
  (1 <= C ->
   exists a,
     schedule env enabled_models profiles = Some a /\
     workers a = W /\
     1 <= combo_workers a <= C /\
     1 <= actual_per_combo a /\
     actual_total_workers a = combo_workers a * actual_per_combo a /\
     actual_total_workers a <= W /\
     (W < C ->
        combo_workers a = W /\ actual_per_combo a = 1 /\
        actual_total_workers a = W /\ unused a = None /\ fully_used a = true) /\
     (C <= W ->
        combo_workers a = C /\ actual_per_combo a = W / C /\
        W - actual_total_workers a = W mod C)).
Proof.
  intros W C.
  assert (HW : 1 <= W).
  { unfold W, parse_workers. destruct env as [w|]; [|reflexivity].
    destruct (w <=? 0) eqn:Hw; lia. }
  split; [exact HW|].
  unfold schedule. rewrite combos_length. fold C. fold W. unfold allocate.
  split.
  - intros ->. reflexivity.
  - intros HC. destruct (C =? 0) eqn:Hzero; [lia|].
    destruct (Z.lt_ge_cases W C) as [Hlt|Hge].
    + assert (Hdiv : W / C = 0) by (apply Z.div_small; lia).
      rewrite Hdiv. change (Z.max 1 0) with 1.
      destruct (1 * C <=? W) eqn:Hfit; [lia|].
      rewrite Z.div_1_r.
      assert (Hmax : Z.max 1 W = W) by lia. rewrite Hmax.
      assert (Hself : W / W = 1) by (apply Z.div_same; lia).
      rewrite Hself. change (Z.max 1 1) with 1.
      eexists. split; [reflexivity|].
      cbn [workers combo_workers actual_per_combo actual_total_workers unused fully_used].
      rewrite Z.mul_1_r, Z.ltb_irrefl, Z.eqb_refl.
      repeat split; try lia.
    + assert (Hq : 1 <= W / C) by (apply Z.div_le_lower_bound; lia).
      assert (Hmax : Z.max 1 (W / C) = W / C) by lia. rewrite Hmax.
      pose proof (Z.mul_div_le W C ltac:(lia)) as Hle.
      pose proof (Z.div_mod W C ltac:(lia)) as Hmod.
      destruct (W / C * C <=? W) eqn:Hfit; [|lia].
      eexists. split; [reflexivity|].
      cbn [workers combo_workers actual_per_combo actual_total_workers unused fully_used].
      repeat split; try lia.
Qed.

End SchedulerBounds.
(** ** The shape of the conversation of a task *)

Section ConversationShape.

Variable json_loads : string -> option dict.
Variable path_exists : string -> bool.
Variable eval_data_url : string -> string.
Variable api_data_url : string -> string.
Variable get_prompt : string -> string -> option value -> string -> string.
Variable question_with_options : string -> option value -> string.
Variable generate : string -> list message -> outcome (string * Q).
Variable judge_answer :
  string -> value -> string -> option value -> outcome (bool * string * Q).
Variable image_paths : list string.

Lemma dialogue_snoc n : (dialogue n ++ [User; Assistant])%list = dialogue (S n).
Proof. induction n as [|n IH]; [reflexivity|]. simpl. rewrite IH. reflexivity. Qed.

Lemma dialogue_length n : length (dialogue n) = (2 * n)%nat.
Proof. induction n as [|n IH]; simpl; lia. Qed.

Lemma try_round_shape profile question_type model_name history r n :
  exchanges path_exists image_paths n history ->
  let a := try_round json_loads path_exists eval_data_url api_data_url
             get_prompt question_with_options generate judge_answer
             profile question_type model_name image_paths history r in
  (exists current, messages_built a = (history ++ [current])%list) /\
  map msg_role (messages_built a) = (dialogue n ++ [User])%list /\
  Forall well_formed_turn (messages_built a) /\
  (exchanges path_exists image_paths n (history_left a) /\ history_left a = history
   \/ exchanges path_exists image_paths (S n) (history_left a) /\
      exists question answer,
        history_left a = (history ++ [question; answer])%list).
Proof.
  intros (Hinv & Hroles & Hturns). unfold try_round.
  destruct (outgoing_spec path_exists eval_data_url api_data_url image_paths history
              (get_prompt profile (round_question r) (round_options r) question_type)
              Hinv)
    as (current & Hout & Huser & [parts Hparts] & Hmedia).
  rewrite Hout.
  assert (Hcurrent : well_formed_turn current).
  { unfold well_formed_turn. unfold is_user in Huser.
    destruct (msg_role current); [|discriminate]. rewrite Hparts. exact I. }
  assert (Hsent : map msg_role (history ++ [current]) = (dialogue n ++ [User])%list).
  { rewrite map_app, Hroles. simpl. unfold is_user in Huser.
    destruct (msg_role current); [reflexivity|discriminate]. }
  assert (Hsent_turns : Forall well_formed_turn (history ++ [current]))
    by (apply Forall_app; split; [exact Hturns|constructor; [exact Hcurrent|constructor]]).
  assert (Hcommitted : forall question_text extracted original,
            exchanges path_exists image_paths (S n) (commit history image_paths current question_text
                                    extracted original) /\
            exists question answer,
              commit history image_paths current question_text extracted original
              = (history ++ [question; answer])%list).
  { intros question_text extracted original. split; [|unfold commit; eauto].
    split; [apply commit_inv; eauto|]. unfold commit. split.
    - rewrite map_app, Hroles. simpl. apply dialogue_snoc.
    - apply Forall_app. split; [exact Hturns|].
      repeat constructor. }
  assert (Hsame : exchanges path_exists image_paths n history /\ history = history)
    by (split; [split; [exact Hinv|split; [exact Hroles|exact Hturns]]|reflexivity]).
  destruct (generate _ _) as [[model_answer response_time]|msg];
    [|cbn [messages_built history_left]; split; [eauto|]; split; [exact Hsent|];
      split; [exact Hsent_turns|]; left; exact Hsame].
  destruct (extract _ _ _) as [[[extracted is_from_box] original]|msg];
    [|cbn [messages_built history_left]; split; [eauto|]; split; [exact Hsent|];
      split; [exact Hsent_turns|]; left; exact Hsame].
  destruct (judge_answer _ _ _ _) as [[[is_correct reasoning] judge_time]|msg];
    cbn [messages_built history_left]; (split; [eauto|]); (split; [exact Hsent|]);
    (split; [exact Hsent_turns|]); right; apply Hcommitted.
Qed.

Lemma try_rounds_shape profile question_type model_name rounds :
  forall history n,
  exchanges path_exists image_paths n history ->
  Forall (fun a =>
            exists k, (n <= k < n + length rounds)%nat /\
              map msg_role (messages_built a) = (dialogue k ++ [User])%list /\
              Forall well_formed_turn (messages_built a) /\
              (map msg_role (history_left a) = dialogue k
               \/ map msg_role (history_left a) = dialogue (S k)) /\
              Forall well_formed_turn (history_left a))
    (try_rounds json_loads path_exists eval_data_url api_data_url
       get_prompt question_with_options generate judge_answer
       profile question_type model_name image_paths history rounds).
Proof.
  induction rounds as [|r rounds IH]; intros history n Hn; simpl; constructor.
  - destruct (try_round_shape profile question_type model_name history r n Hn)
      as (_ & Hsent & Hturns & [[(_ & Hr & Ht) _]|[(_ & Hr & Ht) _]]);
      exists n; (split; [lia|]); auto.
  - destruct (try_round_shape profile question_type model_name history r n Hn)
      as (_ & _ & _ & [[Hleft _]|[Hleft _]]).
    + eapply List.Forall_impl; [|apply (IH _ n Hleft)].
      intros a (k & Hk & H). exists k. split; [lia|exact H].
    + eapply List.Forall_impl; [|apply (IH _ (S n) Hleft)].
      intros a (k & Hk & H). exists k. split; [lia|exact H].
Qed.

(** X15. in every round of a task the list sent to the model is some number
    of completed exchanges -- user turn, assistant turn -- followed by one
    user turn, so it always ends with a user turn and has odd length; the
    history kept after the round is that number of exchanges or one more.
    User turns hold a list of parts and assistant turns a plain string, and
    the number of exchanges never exceeds the number of rounds before. *)
Theorem conversation_alternates profile question_type model_name rounds a :
  In a (try_rounds json_loads path_exists eval_data_url api_data_url
          get_prompt question_with_options generate judge_answer
          profile question_type model_name image_paths [] rounds) ->
  exists k,
    (k < length rounds)%nat /\
    map msg_role (messages_built a) = (dialogue k ++ [User])%list /\
    length (messages_built a) = (2 * k + 1)%nat /\
    (map msg_role (history_left a) = dialogue k
     \/ map msg_role (history_left a) = dialogue (S k)) /\
    Forall well_formed_turn (messages_built a) /\
    Forall well_formed_turn (history_left a).
Proof.
  intros Hin.
  assert (Hstart : exchanges path_exists image_paths 0 []).
  { split; [split; exact I|]. split; [reflexivity|constructor]. }
  pose proof (try_rounds_shape profile question_type model_name rounds [] 0%nat Hstart)
    as Hall.
  rewrite List.Forall_forall in Hall.
  destruct (Hall a Hin) as (k & Hk & Hsent & Hturns & Hleft & Hleft_turns).
  exists k. split; [lia|]. split; [exact Hsent|]. split.
  - rewrite <- (length_map msg_role), Hsent, length_app, dialogue_length. simpl. lia.
  - auto.
Qed.

End ConversationShape.

Lemma conversation_alternates_witness :
  exists k,
    (k < 3)%nat /\
    map msg_role (messages_built third_attempt) = (dialogue k ++ [User])%list /\
    length (messages_built third_attempt) = 5%nat.
Proof.
  assert (Hin : In third_attempt sample_attempts)
    by (right; right; left; reflexivity).
  destruct (conversation_alternates (fun _ => None) (fun _ => true)
              (fun p => p) (fun p => p)
              (fun profile question options question_type => question)
              (fun question options => question)
              sample_generate sample_judge ["chart.png"]
              "expert" "multi_round" "m" (rounds three_rounds) third_attempt Hin)
    as (k & Hk & Hsent & Hlen & _).
  exists k. split; [exact Hk|]. split; [exact Hsent|reflexivity].
Defined.
(** ** The result of a task *)

Section ResultShape.

Variable json_loads : string -> option dict.
Variable path_exists : string -> bool.
Variable eval_data_url : string -> string.
Variable api_data_url : string -> string.
Variable get_prompt : string -> string -> option value -> string -> string.
Variable question_with_options : string -> option value -> string.
Variable generate : string -> list message -> outcome (string * Q).
Variable judge_answer :
  string -> value -> string -> option value -> outcome (bool * string * Q).

Lemma fold_dict_set_other (f : string -> value) keys : forall d k,
  ~ In k keys ->
  dict_get (fold_left (fun d key => dict_set d key (f key)) keys d) k = dict_get d k.
Proof.
  induction keys as [|a keys IH]; intros d k Hk; [reflexivity|].
  simpl. rewrite IH by (intros H; apply Hk; right; exact H).
  apply dict_get_set_other. intros ->. apply Hk. left. reflexivity.
Qed.

Lemma fold_dict_set_get (f : string -> value) keys : forall d k,
  In k keys ->
  dict_get (fold_left (fun d key => dict_set d key (f key)) keys d) k = Some (f k).
Proof.
  induction keys as [|a keys IH]; intros d k Hk; [destruct Hk|].
  simpl. destruct (in_dec string_dec k keys) as [Hin|Hout].
  - apply IH. exact Hin.
  - destruct Hk as [->|Hk]; [|contradiction].
    rewrite fold_dict_set_other by exact Hout. apply dict_get_set_same.
Qed.

Lemma fold_left_map {A B C} (g : C -> B -> C) (h : A -> B) l : forall c,
  fold_left g (map h l) c = fold_left (fun c x => g c (h x)) l c.
Proof. induction l as [|x l IH]; intros c; simpl; [reflexivity|apply IH]. Qed.

(** The entry of a model in the "models" dict of a multi-round task. *)
Lemma multi_round_entry profile question_type enabled_models image_paths rounds
  model_name :
  In model_name enabled_models ->
  exists stored,
    dict_get (evaluate_multi_round json_loads path_exists eval_data_url api_data_url
                get_prompt question_with_options generate judge_answer
                profile question_type enabled_models image_paths rounds) model_name
    = Some (VDict stored) /\
    dict_get stored "model_name" = Some (VStr model_name) /\
    dict_get stored "is_correct"
    = Some (VBool (model_all_correct
                     (map entry
                        (evaluate_rounds json_loads path_exists eval_data_url
                           api_data_url get_prompt question_with_options generate
                           judge_answer profile question_type model_name image_paths
                           [] rounds)))) /\
    exists stored_rounds,
      dict_get stored "rounds" = Some (VList stored_rounds) /\
      length stored_rounds = length rounds.
Proof.
  intros Hmodel. unfold evaluate_multi_round. rewrite fold_left_map. cbn [fst snd].
  lazymatch goal with
  | |- context [fold_left (fun d key => dict_set d key (@?f key)) _ _] =>
      rewrite (fold_dict_set_get f) by exact Hmodel
  end.
  eexists. split; [reflexivity|]. split; [reflexivity|]. split; [reflexivity|].
  eexists. split; [reflexivity|].
  rewrite length_map, length_combine, length_map, evaluate_rounds_length. lia.
Qed.

(** The entry of a model for a single-round task, on success or failure. *)
Lemma single_entry image_paths prompt question answer options has_opts model_name :
  exists verdict,
    dict_get (eval_single_model json_loads path_exists api_data_url generate
                judge_answer image_paths prompt question answer options has_opts
                model_name) "model_name" = Some (VStr model_name) /\
    dict_get (eval_single_model json_loads path_exists api_data_url generate
                judge_answer image_paths prompt question answer options has_opts
                model_name) "is_correct" = Some (VBool verdict).
Proof.
  unfold eval_single_model, try_single_model.
  destruct (generate _ _) as [[model_answer response_time]|msg];
    [|exists false; split; reflexivity].
  destruct (extract _ _ _) as [[[extracted is_from_box] original]|msg];
    [|exists false; split; reflexivity].
  destruct (judge_answer _ _ _ _) as [[[is_correct reasoning] judge_time]|msg];
    [exists is_correct|exists false]; split; reflexivity.
Qed.

(** X16. whatever fails on the way, the result of a task holds, for every
    requested profile and every enabled model, an entry that names the
    model and carries a Boolean verdict; for a multi-round task the entry
    lists one stored round per round of the task. The question id is that of
    the item. *)
Theorem every_model_has_an_entry (item : question_item)
  (enabled_models profiles : list string) (profile model_name : string) :
  In profile profiles -> In model_name enabled_models ->
  let result :=
    evaluate_single_item json_loads path_exists eval_data_url api_data_url
      get_prompt question_with_options generate judge_answer
      item enabled_models profiles in
  dict_get result "question_id" = Some (VStr (item_id item)) /\
  exists by_profile by_model stored verdict,
    dict_get result "profiles" = Some (VDict by_profile) /\
    dict_get by_profile profile
    = Some (VDict [("profile", VStr profile); ("models", VDict by_model)]) /\
    dict_get by_model model_name = Some (VDict stored) /\
    dict_get stored "model_name" = Some (VStr model_name) /\
    dict_get stored "is_correct" = Some (VBool verdict) /\
    (is_multi_round item = true ->
     exists stored_rounds,
       dict_get stored "rounds" = Some (VList stored_rounds) /\
       length stored_rounds = length (rounds item)).
Proof.
  intros Hprofile Hmodel result. unfold result, evaluate_single_item.
  rewrite !carried_fields_get
    by (simpl; intros H; repeat destruct H as [H|H]; try discriminate; exact H).
  split; [reflexivity|].
  cbn [dict_get String.eqb Ascii.eqb Bool.eqb].
  set (by_profile :=
         fold_left (fun d p =>
                      dict_set d p (evaluate_profile json_loads path_exists eval_data_url
                                      api_data_url get_prompt question_with_options
                                      generate judge_answer item enabled_models p))
                   profiles []).
  assert (Hp : dict_get by_profile profile
               = Some (evaluate_profile json_loads path_exists eval_data_url
                         api_data_url get_prompt question_with_options
                         generate judge_answer item enabled_models profile)).
  { unfold by_profile.
    apply (fold_dict_set_get
             (fun p => evaluate_profile json_loads path_exists eval_data_url
                         api_data_url get_prompt question_with_options
                         generate judge_answer item enabled_models p)).
    exact Hprofile. }
  unfold evaluate_profile in Hp.
  destruct (is_multi_round item) eqn:Hmulti.
  - destruct (multi_round_entry profile (question_type item) enabled_models
                (image_paths item) (rounds item) model_name Hmodel)
      as (stored & Hstored & Hname & Hverdict & Hrounds).
    eexists by_profile, _, stored, _.
    split; [reflexivity|]. split; [exact Hp|]. split; [exact Hstored|].
    split; [exact Hname|]. split; [exact Hverdict|]. intros _. exact Hrounds.
  - destruct (single_entry (image_paths item)
                (get_prompt profile (question item)
                   match options item with VNone => None | o => Some o end
                   (question_type item))
                (question item) (answer item) (options item)
                (has_options (options item)) model_name)
      as (verdict & Hname & Hverdict).
    eexists by_profile, _, _, verdict. split; [reflexivity|]. split; [exact Hp|].
    split.
    + lazymatch goal with
      | |- context [fold_left (fun d key => dict_set d key (@?f key)) _ _] =>
          rewrite (fold_dict_set_get f) by exact Hmodel
      end.
      reflexivity.
    + split; [exact Hname|]. split; [exact Hverdict|discriminate].
Qed.

End ResultShape.

Lemma every_model_has_an_entry_witness :
  exists by_profile by_model stored verdict,
    dict_get (sample_evaluate second_round_fails) "profiles" = Some (VDict by_profile) /\
    dict_get by_profile "expert"
    = Some (VDict [("profile", VStr "expert"); ("models", VDict by_model)]) /\
    dict_get by_model "m" = Some (VDict stored) /\
    dict_get stored "model_name" = Some (VStr "m") /\
    dict_get stored "is_correct" = Some (VBool verdict).
Proof.
  destruct (every_model_has_an_entry (fun _ => None) (fun _ => true)
              (fun p => p) (fun p => p)
              (fun profile question options question_type => question)
              (fun question options => question)
              sample_generate sample_judge second_round_fails ["m"] ["expert"]
              "expert" "m")
    as (_ & by_profile & by_model & stored & verdict & H1 & H2 & H3 & H4 & H5 & _).
  - left. reflexivity.
  - left. reflexivity.
  - exists by_profile, by_model, stored, verdict. auto.
Defined.

(** ** The input items *)

Section IntakeFacts.

Import Intake.

Lemma dedup_items_spec (items : list dict) : forall seen,
  Forall (fun item => is_Some (item_key item)) items ->
  exists kept dup,
    dedup_items seen items = Some (kept, dup) /\
    (length kept + dup = length items)%nat /\
    sublist kept items /\
    (forall id, id <> "" ->
       List.find (has_key_of id) kept
       = if decide (id ∈ seen) then None else List.find (has_key_of id) items) /\
    List.NoDup (input_keys kept) /\
    (forall k, In k (input_keys kept) -> k ∉ seen) /\
    List.filter (has_key_of "") kept = List.filter (has_key_of "") items.
Proof.
  induction items as [|item items IH]; intros seen Hall.
  - exists [], O. simpl. repeat split; try constructor.
    + intros id _. destruct (decide _); reflexivity.
    + intros k [].
  - inversion Hall as [|? ? [id Hid] Hrest]; subst.
    assert (Hkey : input_key item = id) by (unfold input_key; rewrite Hid; reflexivity).
    cbn [dedup_items]. rewrite Hid. cbn [mbind option_bind].
    destruct (String.eqb_spec id "") as [Hblank|Hblank]; cbn [negb].
    + destruct (IH seen Hrest) as (kept & dup & Hrun & Hlen & Hsub & Hfind & Hnd & Hseen & Hno).
      rewrite Hrun. cbn [mbind option_bind fst snd].
      exists (item :: kept), dup. split; [reflexivity|].
      split; [simpl; lia|]. split; [constructor; exact Hsub|].
      assert (Hnokey : forall id', id' <> "" -> has_key_of id' item = false).
      { intros id' Hne. unfold has_key_of. rewrite Hkey, Hblank.
        apply String.eqb_neq. congruence. }
      split; [|split; [|split]].
      * intros id' Hne. simpl. rewrite (Hnokey id' Hne). rewrite (Hfind id' Hne).
        reflexivity.
      * unfold input_keys. simpl. rewrite Hkey, Hblank. simpl. exact Hnd.
      * unfold input_keys. simpl. rewrite Hkey, Hblank. simpl. exact Hseen.
      * simpl. rewrite Hno. reflexivity.
    + assert (Hself : has_key_of id item = true)
        by (unfold has_key_of; rewrite Hkey; apply String.eqb_refl).
      assert (Hnot_blank : has_key_of "" item = false)
        by (unfold has_key_of; rewrite Hkey; apply String.eqb_neq; exact Hblank).
      assert (Hother : forall id', id' <> id -> has_key_of id' item = false).
      { intros id' Hne. unfold has_key_of. rewrite Hkey.
        apply String.eqb_neq. congruence. }
      destruct (decide (id ∈ seen)) as [Hin|Hout].
      * destruct (IH seen Hrest)
          as (kept & dup & Hrun & Hlen & Hsub & Hfind & Hnd & Hseen & Hno).
        rewrite Hrun. cbn [mbind option_bind fst snd].
        exists kept, (S dup). split; [reflexivity|].
        split; [simpl; lia|]. split; [constructor; exact Hsub|].
        split; [|split; [exact Hnd|split; [exact Hseen|]]].
        -- intros id' Hne. rewrite (Hfind id' Hne). simpl.
           destruct (decide (id' ∈ seen)) as [|Hout']; [reflexivity|].
           rewrite Hother; [reflexivity|]. intros ->. contradiction.
        -- simpl. rewrite Hnot_blank. exact Hno.
      * destruct (IH ({[id]} ∪ seen) Hrest)
          as (kept & dup & Hrun & Hlen & Hsub & Hfind & Hnd & Hseen & Hno).
        rewrite Hrun. cbn [mbind option_bind fst snd].
        exists (item :: kept), dup. split; [reflexivity|].
        split; [simpl; lia|]. split; [constructor; exact Hsub|].
        split; [|split; [|split]].
        -- intros id' Hne. simpl.
           destruct (String.eqb_spec id' id) as [->|Hd].
           ++ rewrite Hself. destruct (decide (id ∈ seen)); [contradiction|reflexivity].
           ++ rewrite (Hother id' Hd), (Hfind id' Hne).
              destruct (decide (id' ∈ seen)) as [Hs|Hs];
                destruct (decide (id' ∈ {[id]} ∪ seen)) as [Hu|Hu];
                try reflexivity; exfalso.
              ** apply Hu, elem_of_union. right. exact Hs.
              ** apply elem_of_union in Hu as [Hu|Hu]; [|contradiction].
                 apply elem_of_singleton in Hu. contradiction.
        -- unfold input_keys. simpl. rewrite Hkey.
           destruct (String.eqb_spec id ""); [contradiction|]. simpl.
           constructor; [|exact Hnd].
           intros Hk. apply Hseen in Hk. set_solver.
        -- unfold input_keys. simpl. rewrite Hkey.
           destruct (String.eqb_spec id ""); [contradiction|]. simpl.
           intros k [<-|Hk]; [exact Hout|]. apply Hseen in Hk. set_solver.
        -- simpl. rewrite Hnot_blank. exact Hno.
Qed.

Lemma dedup_items_distinct (items : list dict) : forall seen,
  Forall (fun item => is_Some (item_key item)) items ->
  List.NoDup (input_keys items) ->
  (forall k, In k (input_keys items) -> k ∉ seen) ->
  dedup_items seen items = Some (items, O).
Proof.
  induction items as [|item items IH]; intros seen Hall Hnd Hseen; [reflexivity|].
  inversion Hall as [|? ? [id Hid] Hrest]; subst.
  assert (Hkey : input_key item = id) by (unfold input_key; rewrite Hid; reflexivity).
  cbn [dedup_items]. rewrite Hid. cbn [mbind option_bind].
  unfold input_keys in Hnd, Hseen. simpl in Hnd, Hseen. rewrite Hkey in Hnd, Hseen.
  destruct (String.eqb_spec id "") as [Hblank|Hblank]; cbn [negb] in *.
  - rewrite (IH seen Hrest Hnd Hseen). reflexivity.
  - apply List.NoDup_cons_iff in Hnd as [Hfresh Hnd'].
    destruct (decide (id ∈ seen)) as [Hin|Hout].
    + exfalso. apply (Hseen id); [left; reflexivity|exact Hin].
    + rewrite (IH ({[id]} ∪ seen) Hrest Hnd'); [reflexivity|].
      intros k Hk Hin. specialize (Hseen k (or_intror Hk)).
      apply elem_of_union in Hin as [Hin|Hin]; [|contradiction].
      apply elem_of_singleton in Hin. subst k. contradiction.
Qed.

Lemma sublist_Forall {A} (P : A -> Prop) (l k : list A) :
  sublist l k -> Forall P k -> Forall P l.
Proof.
  induction 1 as [|x l k _ IH|x l k _ IH]; intros Hall; [constructor|..];
    inversion Hall; subst; [constructor; auto|auto].
Qed.

(** X17. the deduplication of the input keeps the items in their order, each
    item without an id, and of the items that share an id the first one
    only; every item it drops is counted as a duplicate. Run on its own
    output it drops nothing. *)
Theorem input_first_occurrence_wins (items : list dict) :
  Forall (fun item => is_Some (item_key item)) items ->
  exists kept duplicate_count,
    deduplicate_input items = Some (kept, duplicate_count) /\
    (length kept + duplicate_count = length items)%nat /\
    sublist kept items /\
    List.NoDup (input_keys kept) /\
    (forall id, id <> "" ->
       List.find (has_key_of id) kept = List.find (has_key_of id) items) /\
    List.filter (has_key_of "") kept = List.filter (has_key_of "") items /\
    deduplicate_input kept = Some (kept, O).
Proof.
  intros Hall. unfold deduplicate_input.
  destruct (dedup_items_spec items ∅ Hall)
    as (kept & dup & Hrun & Hlen & Hsub & Hfind & Hnd & Hseen & Hno).
  exists kept, dup. split; [exact Hrun|]. split; [exact Hlen|].
  split; [exact Hsub|]. split; [exact Hnd|]. split; [|split; [exact Hno|]].
  - intros id Hne. rewrite (Hfind id Hne).
    destruct (decide (id ∈ (∅ : gset string))); [set_solver|reflexivity].
  - apply dedup_items_distinct; [|exact Hnd|set_solver].
    eapply sublist_Forall; [exact Hsub|exact Hall].
Qed.

End IntakeFacts.

Lemma input_first_occurrence_wins_witness :
  exists kept duplicate_count,
    Intake.deduplicate_input
      [[("question_id", VStr "q1"); ("question", VStr "first")];
       [("question", VStr "no id")];
       [("id", VStr "q1"); ("question", VStr "second")]]
    = Some (kept, duplicate_count) /\
    (length kept + duplicate_count = 3)%nat /\
    List.NoDup (input_keys kept).
Proof.
  destruct (input_first_occurrence_wins
              [[("question_id", VStr "q1"); ("question", VStr "first")];
               [("question", VStr "no id")];
               [("id", VStr "q1"); ("question", VStr "second")]])
    as (kept & dup & Hrun & Hlen & _ & Hnd & _).
  { repeat constructor; vm_compute; eauto. }
  exists kept, dup. auto.
Defined.
(** ** The path of a new artifact *)

Section VersionFacts.

Import Intake.

Variable path_exists : path -> bool.

Lemma next_version_least original_path k : forall fuel counter,
  (counter <= k)%nat ->
  (k - counter < fuel)%nat ->
  (forall j, (counter <= j < k)%nat ->
             path_exists (versioned original_path j) = true) ->
  path_exists (versioned original_path k) = false ->
  next_version path_exists fuel original_path counter
  = Some (versioned original_path k).
Proof.
  induction fuel as [|fuel IH]; intros counter Hle Hfuel Htaken Hfree; [lia|].
  cbn [next_version].
  destruct (Nat.eq_dec counter k) as [->|Hne].
  - rewrite Hfree. reflexivity.
  - rewrite (Htaken counter) by lia. cbn [negb].
    apply IH; [lia|lia| |exact Hfree].
    intros j Hj. apply Htaken. lia.
Qed.

Lemma next_version_free original_path : forall fuel counter new_path,
  next_version path_exists fuel original_path counter = Some new_path ->
  path_exists new_path = false /\
  exists k, (counter <= k)%nat /\ new_path = versioned original_path k /\
            forall j, (counter <= j < k)%nat ->
                      path_exists (versioned original_path j) = true.
Proof.
  induction fuel as [|fuel IH]; intros counter new_path; [discriminate|].
  cbn [next_version].
  destruct (path_exists (versioned original_path counter)) eqn:Hc; cbn [negb].
  - intros Hrun. destruct (IH _ _ Hrun) as (Hfree & k & Hk & Hpath & Htaken).
    split; [exact Hfree|]. exists k. split; [lia|]. split; [exact Hpath|].
    intros j Hj. destruct (Nat.eq_dec j counter) as [->|Hne]; [exact Hc|].
    apply Htaken. lia.
  - intros [= <-]. split; [exact Hc|]. exists counter.
    split; [lia|]. split; [reflexivity|]. intros j Hj. lia.
Qed.

Lemma next_version_stuck original_path : forall fuel counter,
  (forall j, (counter <= j)%nat -> path_exists (versioned original_path j) = true) ->
  next_version path_exists fuel original_path counter = None.
Proof.
  induction fuel as [|fuel IH]; intros counter Htaken; [reflexivity|].
  cbn [next_version]. rewrite (Htaken counter) by lia. cbn [negb].
  apply IH. intros j Hj. apply Htaken. lia.
Qed.

(** X18. the path chosen for a new artifact never names an existing file.
    It is the requested path when that is free, and otherwise the version
    [_v2], [_v3], ... with the least number that is free, in the same
    directory and with the same suffix; when every version exists the
    search does not end. *)
Theorem next_version_is_free (original_path : path) :
  (path_exists original_path = false ->
   forall fuel, get_next_version_path path_exists fuel original_path
                = Some original_path) /\
  (forall fuel new_path,
     get_next_version_path path_exists fuel original_path = Some new_path ->
     path_exists new_path = false /\
     parent new_path = parent original_path /\
     suffix new_path = suffix original_path) /\
  (forall k,
     path_exists original_path = true ->
     (2 <= k)%nat ->
     (forall j, (2 <= j < k)%nat -> path_exists (versioned original_path j) = true) ->
     path_exists (versioned original_path k) = false ->
     forall fuel, (k - 2 < fuel)%nat ->
       get_next_version_path path_exists fuel original_path
       = Some (versioned original_path k)) /\
  (path_exists original_path = true ->
   (forall j, (2 <= j)%nat -> path_exists (versioned original_path j) = true) ->
   forall fuel, get_next_version_path path_exists fuel original_path = None).
Proof.
  unfold get_next_version_path. split; [|split; [|split]].
  - intros Hfree fuel. rewrite Hfree. reflexivity.
  - intros fuel new_path.
    destruct (path_exists original_path) eqn:Horig; cbn [negb].
    + intros Hrun. destruct (next_version_free _ _ _ _ Hrun) as (Hfree & k & _ & -> & _).
      split; [exact Hfree|]. split; reflexivity.
    + intros [= <-]. split; [exact Horig|]. split; reflexivity.
  - intros k Horig Hk Htaken Hfree fuel Hfuel. rewrite Horig. cbn [negb].
    apply next_version_least; assumption.
  - intros Horig Htaken fuel. rewrite Horig. cbn [negb].
    apply next_version_stuck. exact Htaken.
Qed.

End VersionFacts.

Lemma next_version_is_free_witness :
  Intake.get_next_version_path sample_exists 5 sample_path
  = Some {| Intake.parent := "outputs/expert/m"; Intake.stem := "eval_v3";
            Intake.suffix := ".json" |}.
Proof.
  apply (proj1 (proj2 (proj2 (next_version_is_free sample_exists sample_path))) 3%nat).
  - reflexivity.
  - lia.
  - intros j Hj. assert (j = 2%nat) as -> by lia. reflexivity.
  - reflexivity.
  - lia.
Defined.
(** ** The text shown as process *)

Section ProcessFacts.

Import ProcessText.

Lemma find_at_none_here sub s i pos :
  (pos <= i)%nat -> find_at sub s i pos = None -> startswith sub s = false.
Proof.
  intros Hpos H. apply Nat.leb_le in Hpos.
  destruct s as [|c s]; cbn [find_at] in H; rewrite Hpos in H; cbn [andb] in H;
    destruct (startswith sub _); (discriminate || reflexivity).
Qed.

Lemma find_at_none_tail sub c s i pos :
  (pos <= i)%nat -> find_at sub (String c s) i pos = None ->
  find_at sub s (S i) pos = None.
Proof.
  intros Hpos. cbn [find_at]. apply Nat.leb_le in Hpos. rewrite Hpos. cbn [andb].
  destruct (startswith sub (String c s)); [discriminate|auto].
Qed.

(** Without an occurrence of the prefix nothing is removed. *)
Lemma re_sub_nothing prefix s : forall i,
  find_at prefix s i 0 = None -> re_sub prefix s Scan = s.
Proof.
  induction s as [|c s IH]; intros i Hnone; [reflexivity|].
  cbn [re_sub]. rewrite (find_at_none_here _ _ _ _ (Nat.le_0_l i) Hnone). cbn [andb].
  rewrite (IH (S i)); [reflexivity|].
  eapply find_at_none_tail; [apply Nat.le_0_l|exact Hnone].
Qed.

Lemma re_sub_shorter prefix s : forall st,
  (String.length (re_sub prefix s st) <= String.length s)%nat.
Proof.
  induction s as [|c s IH]; intros st; [simpl; lia|].
  cbn [re_sub]. destruct st as [|[|n]].
  - destruct (_ && _); [specialize (IH (Drop (String.length prefix - 1))); simpl; lia|].
    specialize (IH Scan). simpl. lia.
  - destruct (Ascii.eqb c "}");
      [specialize (IH Scan)|specialize (IH (Drop 0))]; simpl; lia.
  - specialize (IH (Drop n)). simpl. lia.
Qed.

Lemma lstrip_shorter s : (String.length (lstrip s) <= String.length s)%nat.
Proof.
  destruct (lstrip_is_skip s) as [k ->]. rewrite length_skip. lia.
Qed.

Lemma length_take k : forall s, (String.length (take k s) <= String.length s)%nat.
Proof.
  induction k as [|k IH]; intros s; [simpl; lia|].
  destruct s as [|c s]; simpl; [lia|]. specialize (IH s). lia.
Qed.

Lemma strip_shorter s : (String.length (strip s) <= String.length s)%nat.
Proof.
  unfold strip. destruct (rstrip_is_take (lstrip s)) as [k ->].
  pose proof (length_take k (lstrip s)). pose proof (lstrip_shorter s). lia.
Qed.

(** The marker with one backslash ends the marker with two. *)
Lemma double_marker_needs_single s : forall i,
  find_at single_marker s i 0 = None -> find_at double_marker s i 0 = None.
Proof.
  induction s as [|c s IH]; intros i Hnone.
  - reflexivity.
  - pose proof (find_at_none_tail _ _ _ _ _ (Nat.le_0_l i) Hnone) as Htail.
    cbn [find_at]. cbn [Nat.leb andb].
    destruct (startswith double_marker (String c s)) eqn:Hstart; [|apply IH; exact Htail].
    exfalso. apply prefix_split in Hstart. destruct Hstart as [r Hr].
    cbv [double_marker] in Hr. cbn [String.append] in Hr. injection Hr as -> ->.
    pose proof (find_at_none_here _ _ _ _ (Nat.le_0_l _) Htail) as Hs.
    change (startswith marker (marker ++ r) = false) in Hs.
    rewrite startswith_marker in Hs. discriminate.
Qed.

(** Dropping the rest of a match: [n] characters, then up to the first
    closing brace. *)
Lemma re_sub_drop prefix (skipped body rest : string) :
  find "}" body 0 = None ->
  re_sub prefix (skipped ++ body ++ String "}" rest) (Drop (String.length skipped))
  = re_sub prefix rest Scan.
Proof.
  intros Hbody. induction skipped as [|c skipped IH]; [|exact IH].
  cbn [String.append String.length].
  unfold find in Hbody. revert Hbody. generalize 0%nat at 1.
  induction body as [|c body IH]; intros i Hbody.
  - reflexivity.
  - cbn [String.append re_sub].
    assert (Hc : Ascii.eqb c "}" = false).
    { pose proof (find_at_none_here _ _ _ _ (Nat.le_0_l i) Hbody) as Hs.
      unfold startswith in Hs. rewrite prefix_cons, prefix_empty, andb_true_r in Hs.
      rewrite Ascii.eqb_sym. exact Hs. }
    rewrite Hc. apply (IH (S i)).
    eapply find_at_none_tail; [apply Nat.le_0_l|exact Hbody].
Qed.

Lemma has_close_after body rest :
  has_close (body ++ String "}" rest) = true.
Proof.
  unfold has_close, find. generalize 0%nat at 1.
  induction body as [|c body IH]; intros i.
  - cbn [String.append find_at]. cbn [Nat.leb andb].
    unfold startswith. rewrite prefix_cons, prefix_empty. reflexivity.
  - cbn [String.append find_at]. cbn [Nat.leb andb].
    destruct (startswith "}" _); [reflexivity|apply IH].
Qed.

Lemma startswith_append p r : startswith p (p ++ r) = true.
Proof.
  unfold startswith. induction p as [|c p IH]; [apply prefix_empty|].
  cbn [String.append]. rewrite prefix_cons, Ascii.eqb_refl. exact IH.
Qed.

(** A match at the start of the text. *)
Lemma re_sub_at_match c p body rest :
  find "}" body 0 = None ->
  re_sub (String c p) (String c (p ++ body ++ String "}" rest)) Scan
  = re_sub (String c p) rest Scan.
Proof.
  intros Hbody. cbn [re_sub].
  assert (Hs : startswith (String c p) (String c (p ++ body ++ String "}" rest)) = true)
    by apply (startswith_append (String c p)).
  assert (Hk : skip (String.length (String c p)) (String c (p ++ body ++ String "}" rest))
               = body ++ String "}" rest)
    by apply (skip_append (String c p)).
  rewrite Hs, Hk, has_close_after. cbn [andb].
  replace (String.length (String c p) - 1)%nat with (String.length p)
    by (simpl; lia).
  apply re_sub_drop. exact Hbody.
Qed.

(** One marked segment with a body without closing brace, after a text
    without marker. *)
Lemma re_sub_segment (before body rest : string) :
  no_marker before -> find "}" body 0 = None ->
  re_sub single_marker (before ++ single_marker ++ body ++ String "}" rest) Scan
  = before ++ re_sub single_marker rest Scan.
Proof.
  intros Hbefore Hbody. unfold no_marker, find in Hbefore.
  revert Hbefore. generalize 0%nat at 1.
  induction before as [|c before IH]; intros i Hbefore.
  - exact (re_sub_at_match "\" "boxed{" body rest Hbody).
  - cbn [String.append re_sub].
    assert (Hs : startswith single_marker
                   (String c (before ++ single_marker ++ body ++ String "}" rest))
                 = false).
    { apply (marker_no_overlap (String c before)); [discriminate|].
      eapply find_at_none_here; [apply Nat.le_0_l|exact Hbefore]. }
    rewrite Hs. cbn [andb]. rewrite (IH (S i)); [reflexivity|].
    eapply find_at_none_tail; [apply Nat.le_0_l|exact Hbefore].
Qed.

(** X19. [strip_boxed_content] never makes a text longer and returns it
    stripped; a text without the marker is only stripped; and a marked
    segment whose body holds no closing brace is cut out as a whole, the
    text before and after it being joined. *)
Theorem boxed_segments_are_cut_out (text : string) :
  (String.length (strip_boxed_content text) <= String.length text)%nat /\
  strip (strip_boxed_content text) = strip_boxed_content text /\
  (no_marker text -> strip_boxed_content text = strip text) /\
  (forall before body rest,
     text = before ++ single_marker ++ body ++ String "}" rest ->
     find double_marker text 0 = None ->
     no_marker before -> find "}" body 0 = None -> no_marker rest ->
     strip_boxed_content text = strip (before ++ rest)).
Proof.
  unfold strip_boxed_content. destruct text as [|c text];
    [repeat split; try reflexivity; simpl; try lia;
     intros before body rest H; destruct before; discriminate|].
  set (t := String c text). split; [|split; [|split]].
  - pose proof (strip_shorter (re_sub single_marker (re_sub double_marker t Scan) Scan)).
    pose proof (re_sub_shorter single_marker (re_sub double_marker t Scan) Scan).
    pose proof (re_sub_shorter double_marker t Scan). lia.
  - apply strip_idem.
  - intros Hno. unfold no_marker, find in Hno.
    rewrite (re_sub_nothing double_marker t 0%nat)
      by (apply double_marker_needs_single; exact Hno).
    rewrite (re_sub_nothing single_marker t 0%nat) by exact Hno. reflexivity.
  - intros before body rest Htext Hdouble Hbefore Hbody Hrest.
    rewrite (re_sub_nothing double_marker t 0%nat) by exact Hdouble.
    rewrite Htext, (re_sub_segment before body rest Hbefore Hbody).
    rewrite (re_sub_nothing single_marker rest 0%nat) by exact Hrest. reflexivity.
Qed.

Lemma join_nonempty sep p rest : p <> "" -> join sep (p :: rest) <> "".
Proof.
  intros Hp. destruct rest as [|q rest]; cbn [join]; [exact Hp|].
  destruct p; [congruence|discriminate].
Qed.

(** X20. for a model answer that is a string the process text is always
    built, whatever [raw_response] holds. It is empty only when the answer
    is empty; without reasoning text it is the answer itself when nothing is
    left of the answer after the marked segments are cut out, and otherwise
    the heading of the answer followed by what is left. *)
Theorem process_text_is_never_lost (model_answer : string) (model_data : dict) :
  exists process,
    build_process_value (VStr model_answer) model_data = Some process /\
    (process = "" -> model_answer = "") /\
    (reasoning_text model_data = "" ->
     process = if String.eqb (strip_boxed_content model_answer) "" then model_answer
               else answer_heading ++ strip_boxed_content model_answer).
Proof.
  unfold build_process_value. cbn [mbind option_bind].
  destruct (String.eqb (reasoning_text model_data) "") eqn:Hr;
    destruct (String.eqb (strip_boxed_content model_answer) "") eqn:Ha;
    cbn [app]; eexists; (split; [reflexivity|]).
  - split; [auto|reflexivity].
  - split; [|reflexivity]. cbn [join]. discriminate.
  - split; [|apply String.eqb_neq in Hr; congruence]. cbn [join]. discriminate.
  - split; [|apply String.eqb_neq in Hr; congruence].
    intros H. exfalso. revert H. apply join_nonempty. discriminate.
Qed.

End ProcessFacts.

Lemma boxed_segments_are_cut_out_witness :
  ProcessText.strip_boxed_content "So \boxed{A} it is" = strip ("So " ++ " it is").
Proof.
  apply (proj2 (proj2 (proj2 (boxed_segments_are_cut_out "So \boxed{A} it is")))
           "So " "A" " it is"); reflexivity.
Defined.
(** ** The format named for an image *)

Section MediaFacts.

Import Media.

Variable path_suffix : string -> string.
Variable compress_single_image_single_round : bool.
Variable image_compress_max_longest_side : Z.
Variable image_compress_quality : Z.

(** X21. for a task with images, the settings of a multi-round request
    always compress -- to 512 pixels at quality 85 for several images, to
    1024 at quality 92 for one -- so the test for 1280 pixels at quality 85
    in evaluator.py never succeeds: the evaluator names the format read off
    the file suffix for an image that is sent compressed, where
    [call_model_api] names jpeg. A format named is always one of jpeg, png,
    webp and gif. *)
Theorem multi_round_format_follows_suffix (image_paths : list string)
  (image_path : string) :
  image_paths <> [] ->
  (_determine_image_compression_settings compress_single_image_single_round
     image_compress_max_longest_side image_compress_quality image_paths true
   = (true, 512, 85)
   \/ _determine_image_compression_settings compress_single_image_single_round
        image_compress_max_longest_side image_compress_quality image_paths true
      = (true, 1024, 92)) /\
  encoded_compressed compress_single_image_single_round
    image_compress_max_longest_side image_compress_quality image_paths true = true /\
  evaluator_image_format path_suffix compress_single_image_single_round
    image_compress_max_longest_side image_compress_quality image_paths image_path
  = get_image_format path_suffix image_path /\
  api_image_format path_suffix compress_single_image_single_round
    image_compress_max_longest_side image_compress_quality image_paths true image_path
  = "jpeg" /\
  In (get_image_format path_suffix image_path) ["jpeg"; "png"; "webp"; "gif"].
Proof.
  intros Hne.
  assert (Hformat : In (get_image_format path_suffix image_path)
                       ["jpeg"; "png"; "webp"; "gif"]).
  { unfold get_image_format.
    destruct (String.eqb _ "jpg"); [left; reflexivity|].
    destruct (existsb _ _) eqn:Hin; [|left; reflexivity].
    apply existsb_exists in Hin. destruct Hin as (x & Hx & Heq).
    apply String.eqb_eq in Heq. rewrite Heq. exact Hx. }
  unfold evaluator_image_format, api_image_format, encoded_compressed,
    _determine_image_compression_settings.
  destruct image_paths as [|p paths]; [congruence|].
  destruct (1 <? length (p :: paths))%nat; cbn; auto 6.
Qed.

End MediaFacts.

Lemma multi_round_format_follows_suffix_witness :
  Media.evaluator_image_format (fun _ => ".PNG") false 1600 92 ["chart.PNG"] "chart.PNG"
  = "png" /\
  Media.api_image_format (fun _ => ".PNG") false 1600 92 ["chart.PNG"] true "chart.PNG"
  = "jpeg".
Proof.
  destruct (multi_round_format_follows_suffix (fun _ => ".PNG") false 1600 92
              ["chart.PNG"] "chart.PNG") as (_ & _ & Heval & Hapi & _);
    [discriminate|].
  split; [rewrite Heval; reflexivity|exact Hapi].
Defined.

(** ** The images of an item *)

Section ItemImages.

Import Item.

Variable repr : value -> string.
Variable path_exists : string -> bool.

Lemma missing_In (l : list value) (p : string) :
  In p (missing_local_images path_exists l)
  <-> In (VStr p) l /\ is_missing path_exists (VStr p) = true.
Proof.
  induction l as [|v l IH]; cbn [missing_local_images In].
  - tauto.
  - destruct v; try (rewrite IH; split;
      [intros [H1 H2]; split; [right; exact H1|exact H2]
      |intros [[H1|H1] H2]; [discriminate H1|split; assumption]]).
    destruct (is_missing path_exists (VStr s)) eqn:Hm.
    + cbn [In]. rewrite IH. split.
      * intros [->|[H1 H2]]; [split; [left; reflexivity|exact Hm]|].
        split; [right; exact H1|exact H2].
      * intros [[H1|H1] H2].
        -- left. injection H1 as H1. exact H1.
        -- right. split; assumption.
    + rewrite IH. split.
      * intros [H1 H2]. split; [right; exact H1|exact H2].
      * intros [[H1|H1] H2].
        -- injection H1 as ->. congruence.
        -- split; assumption.
Qed.

Lemma is_in_missing (l : list value) (v : value) :
  In v l ->
  is_in v (missing_local_images path_exists l) = is_missing path_exists v.
Proof.
  intros Hin. destruct v; try reflexivity.
  simpl is_in.
  destruct (is_missing path_exists (VStr s)) eqn:Hm.
  - apply existsb_exists. exists s. split; [|apply String.eqb_refl].
    apply missing_In. split; assumption.
  - destruct (existsb (String.eqb s) (missing_local_images path_exists l)) eqn:He;
      [|reflexivity].
    apply existsb_exists in He as [x [Hx Heq]].
    apply String.eqb_eq in Heq. subst x.
    apply missing_In in Hx as [_ Hx]. congruence.
Qed.

Lemma no_missing (l : list value) :
  missing_local_images path_exists l = [] <->
  List.Forall (fun v => is_missing path_exists v = false) l.
Proof.
  split.
  - intros Hnil. apply List.Forall_forall. intros v Hin.
    rewrite <- (is_in_missing l v Hin), Hnil. destruct v; reflexivity.
  - intros Hall.
    destruct (missing_local_images path_exists l) as [|p m] eqn:Hm; [reflexivity|].
    assert (Hp : In p (missing_local_images path_exists l))
      by (rewrite Hm; left; reflexivity).
    apply missing_In in Hp as [Hin Hp].
    rewrite List.Forall_forall in Hall. rewrite (Hall _ Hin) in Hp. discriminate.
Qed.

Lemma filter_twice {A : Type} (f g : A -> bool) (l : list A) :
  List.filter g (List.filter f l) = List.filter (fun x => f x && g x) l.
Proof.
  induction l as [|x l IH]; simpl; [reflexivity|].
  destruct (f x); simpl; [destruct (g x)|]; rewrite ?IH; reflexivity.
Qed.

Lemma filter_agree {A : Type} (f g : A -> bool) (l : list A) :
  (forall x, In x l -> f x = g x) -> List.filter f l = List.filter g l.
Proof.
  induction l as [|x l IH]; simpl; intros H; [reflexivity|].
  rewrite (H x) by (left; reflexivity).
  rewrite IH by (intros y Hy; apply H; right; exact Hy). reflexivity.
Qed.

Lemma filter_keeps_all {A : Type} (f : A -> bool) (l : list A) :
  List.Forall (fun x => f x = true) l -> List.filter f l = l.
Proof.
  induction 1 as [|x l Hx _ IH]; simpl; [reflexivity|].
  rewrite Hx, IH. reflexivity.
Qed.

(** What a passed check returns: the usable paths, in their order. *)
Lemma checked_passed (skip : bool) (l paths : list value) :
  checked_image_paths repr path_exists skip l = Passed paths ->
  paths = List.filter (usable repr path_exists) l.
Proof.
  unfold checked_image_paths, usable.
  destruct (missing_local_images path_exists (List.filter (nonblank repr) l))
    as [|p m] eqn:Hm.
  - intros [= <-]. apply no_missing in Hm.
    rewrite <- (filter_keeps_all (fun v => negb (is_missing path_exists v))
                  (List.filter (nonblank repr) l)) at 1.
    + apply filter_twice.
    + eapply List.Forall_impl; [|exact Hm]. intros v ->. reflexivity.
  - destruct skip; [|discriminate]. intros [= <-].
    rewrite <- Hm. rewrite <- filter_twice.
    apply filter_agree. intros v Hin. rewrite (is_in_missing _ v Hin).
    reflexivity.
Qed.

Lemma usable_parts (data_url : string -> string) (ps : list string) :
  List.Forall (fun p => is_missing path_exists (VStr p) = false) ps ->
  image_parts path_exists data_url ps = map (image_part_of data_url) ps.
Proof.
  induction 1 as [|p ps Hp _ IH]; simpl; [reflexivity|].
  unfold image_part_of at 1. simpl in Hp.
  destruct (is_http p); simpl in Hp.
  - rewrite IH. reflexivity.
  - apply negb_false_iff in Hp. rewrite Hp, IH. reflexivity.
Qed.

(** X22. Every path that passes the check of [evaluate_single_item] becomes
    exactly one media reference of the conversation, in the order of the
    paths: a remote path as it is, a local file as its data URL; none is
    skipped by the builder. *)
Theorem checked_paths_become_parts (skip : bool) (data_url : string -> string)
  (l : list value) (ps : list string) :
  checked_image_paths repr path_exists skip l = Passed (map VStr ps) ->
  image_parts path_exists data_url ps = map (image_part_of data_url) ps.
Proof.
  intros Hc. apply checked_passed in Hc.
  apply usable_parts. apply List.Forall_forall. intros p Hin.
  assert (Hv : In (VStr p) (map VStr ps)) by (apply in_map; exact Hin).
  rewrite Hc in Hv. apply filter_In in Hv as [_ Hv].
  unfold usable in Hv. apply andb_true_iff in Hv as [_ Hv].
  apply negb_true_iff in Hv. exact Hv.
Qed.

(** X23. With [skip_missing_images] on, the check never fails and leaves
    exactly the usable paths of the item. With it off the check passes, with
    the same paths, if and only if no path that is not blank is a missing
    local file; otherwise it raises [FileNotFoundError] with the missing
    ones. *)
Theorem missing_image_policy (l : list value) :
  checked_image_paths repr path_exists true l
  = Passed (List.filter (usable repr path_exists) l)
  /\ (List.Forall (fun v => nonblank repr v = true ->
                           is_missing path_exists v = false) l ->
      checked_image_paths repr path_exists false l
      = Passed (List.filter (usable repr path_exists) l))
  /\ (forall v, In v l -> nonblank repr v = true ->
      is_missing path_exists v = true ->
      exists m, checked_image_paths repr path_exists false l
                = Failed (FileNotFoundError m)
                /\ In (str repr v) m
                /\ forall p, In p m <->
                   In (VStr p) l /\ nonblank repr (VStr p) = true
                   /\ is_missing path_exists (VStr p) = true).
Proof.
  split; [|split].
  - destruct (checked_image_paths repr path_exists true l) as [paths|e] eqn:Hc.
    + f_equal. exact (checked_passed _ _ _ Hc).
    + unfold checked_image_paths in Hc.
      destruct (missing_local_images _ _); discriminate.
  - intros Hall.
    assert (Hm : missing_local_images path_exists (List.filter (nonblank repr) l) = []).
    { apply no_missing. apply List.Forall_forall. intros v Hin.
      apply filter_In in Hin as [Hin Hnb].
      rewrite List.Forall_forall in Hall. exact (Hall v Hin Hnb). }
    destruct (checked_image_paths repr path_exists false l) as [paths|e] eqn:Hc.
    + f_equal. exact (checked_passed _ _ _ Hc).
    + unfold checked_image_paths in Hc. rewrite Hm in Hc. discriminate.
  - intros v Hin Hnb Hmiss.
    exists (missing_local_images path_exists (List.filter (nonblank repr) l)).
    assert (Hchar : forall p,
      In p (missing_local_images path_exists (List.filter (nonblank repr) l)) <->
      In (VStr p) l /\ nonblank repr (VStr p) = true
      /\ is_missing path_exists (VStr p) = true).
    { intros p. rewrite missing_In, filter_In. tauto. }
    assert (Hv : In (str repr v)
      (missing_local_images path_exists (List.filter (nonblank repr) l))).
    { destruct v; try discriminate Hmiss. apply Hchar. auto. }
    split; [|split; [exact Hv|exact Hchar]].
    unfold checked_image_paths.
    destruct (missing_local_images path_exists (List.filter (nonblank repr) l));
      [destruct Hv|reflexivity].
Qed.

End ItemImages.

Lemma checked_paths_become_parts_witness :
  image_parts (String.eqb "chart.png") (fun p => "data:" ++ p)
    ["chart.png"; "https://host/fig.png"]
  = map (image_part_of (fun p => "data:" ++ p))
        ["chart.png"; "https://host/fig.png"].
Proof.
  apply (checked_paths_become_parts (fun _ => "") (String.eqb "chart.png")
           false (fun p => "data:" ++ p)
           [VStr "chart.png"; VStr "  "; VStr "https://host/fig.png"]
           ["chart.png"; "https://host/fig.png"]).
  reflexivity.
Defined.

(** ** The paths of an item *)

Section ItemPaths.

Import Item.

Variable repr : value -> string.

Lemma split_clean (sep : ascii) (p : string) :
  has_char sep p = false -> split sep p = [p].
Proof.
  induction p as [|c p IH]; simpl; [reflexivity|].
  intros H. apply orb_false_iff in H as [Hc Hp].
  rewrite Hc, (IH Hp). reflexivity.
Qed.

Lemma split_app (sep : ascii) (p s : string) :
  has_char sep p = false ->
  split sep (p ++ String sep s) = p :: split sep s.
Proof.
  induction p as [|c p IH]; simpl.
  - rewrite Ascii.eqb_refl. reflexivity.
  - intros H. apply orb_false_iff in H as [Hc Hp].
    rewrite Hc, (IH Hp). reflexivity.
Qed.

Lemma split_join (sep : ascii) (ps : list string) :
  ps <> [] ->
  List.Forall (fun p => has_char sep p = false) ps ->
  split sep (ProcessText.join (String sep "") ps) = ps.
Proof.
  intros Hne Hall. induction Hall as [|p ps Hp Hall IH]; [congruence|].
  destruct ps as [|q ps].
  - simpl. apply split_clean. exact Hp.
  - change (ProcessText.join (String sep "") (p :: q :: ps))
      with (p ++ String sep "" ++ ProcessText.join (String sep "") (q :: ps)).
    change (String sep "" ++ ProcessText.join (String sep "") (q :: ps))
      with (String sep (ProcessText.join (String sep "") (q :: ps))).
    rewrite (split_app sep p _ Hp), IH by discriminate. reflexivity.
Qed.

Lemma has_char_app (sep : ascii) (p s : string) :
  has_char sep (p ++ String sep s) = true.
Proof.
  induction p as [|c p IH]; simpl.
  - rewrite Ascii.eqb_refl. reflexivity.
  - rewrite IH. apply orb_true_r.
Qed.

Lemma app_nonempty (p s : string) : p <> "" -> (p ++ s)%string <> "".
Proof. destruct p; [congruence|discriminate]. Qed.

Lemma stripped_clean (sep : ascii) (ps : list string) :
  ps <> [] ->
  List.Forall (fun p => strip p = p /\ p <> "" /\ has_char sep p = false) ps ->
  stripped_parts sep (ProcessText.join (String sep "") ps) = ps.
Proof.
  intros Hne Hall. unfold stripped_parts.
  rewrite split_join;
    [|exact Hne|eapply List.Forall_impl; [|exact Hall]; intros p H; apply H].
  clear Hne. induction Hall as [|p ps [Hs [Hp _]] _ IH]; [reflexivity|].
  simpl. rewrite Hs. apply String.eqb_neq in Hp. rewrite Hp. simpl.
  rewrite Hs, IH. reflexivity.
Qed.

(** X24. Two or more paths written into one cell with [;] between them are
    read back as they were, provided each is non-empty, carries no blank at
    either end and holds no [;]; a comma inside a path is left alone. *)
Theorem semicolon_paths_round_trip (p q : string) (ps : list string) :
  List.Forall clean_path (p :: q :: ps) ->
  paths_of_raw repr (VStr (ProcessText.join ";" (p :: q :: ps)))
  = map VStr (p :: q :: ps).
Proof.
  intros Hall.
  assert (Hp : p <> "") by (inversion Hall as [|? ? [_ [H _]] _]; exact H).
  unfold paths_of_raw.
  change (ProcessText.join ";" (p :: q :: ps))
    with (p ++ String ";" (ProcessText.join ";" (q :: ps))).
  assert (Ht : truthy (VStr (p ++ String ";" (ProcessText.join ";" (q :: ps)))) = true).
  { simpl. apply negb_true_iff, String.eqb_neq, app_nonempty, Hp. }
  rewrite Ht, has_char_app.
  change (p ++ String ";" (ProcessText.join ";" (q :: ps)))
    with (ProcessText.join (String ";" "") (p :: q :: ps)).
  rewrite stripped_clean; [reflexivity|discriminate|exact Hall].
Qed.

Lemma gather_own_list (item : dict) (l urls : list value) :
  l <> [] ->
  dict_get item "image_path" = Some (VList l) ->
  dict_get item "image_urls" = Some (VList urls) ->
  snd (gather repr item) = (l ++ urls)%list
  /\ dict_get (fst (gather repr item)) "image_path" = Some (VList (l ++ urls))
  /\ dict_get (fst (gather repr item)) "image_urls" = Some (VList urls).
Proof.
  intros Hne Hp Hu. unfold gather, get_default. rewrite Hp, Hu.
  destruct l as [|v l]; [congruence|].
  cbn [paths_of_raw truthy is_own_list andb with_urls fst snd].
  destruct urls as [|u urls].
  - cbn [truthy with_urls]. rewrite app_nil_r. auto.
  - cbn [truthy with_urls]. split; [reflexivity|]. split.
    + apply dict_get_set_same.
    + rewrite dict_get_set_other by discriminate. exact Hu.
Qed.

(** X25. When [image_path] holds a non-empty list and [image_urls] a list,
    each evaluation of the item appends the URLs to the item's own list: the
    call that follows [n] earlier ones works on the paths followed by
    [n + 1] copies of the URLs. *)
Theorem image_urls_pile_up (item : dict) (l urls : list value) (n : nat) :
  l <> [] ->
  dict_get item "image_path" = Some (VList l) ->
  dict_get item "image_urls" = Some (VList urls) ->
  snd (gather repr (after_calls repr n item)) = (l ++ times (S n) urls)%list.
Proof.
  intros Hne Hp Hu.
  assert (Hinv : dict_get (after_calls repr n item) "image_path"
                 = Some (VList (l ++ times n urls))
                 /\ dict_get (after_calls repr n item) "image_urls"
                    = Some (VList urls)).
  { induction n as [|n [IHp IHu]]; cbn [after_calls times].
    - rewrite app_nil_r. auto.
    - assert (Hl : (l ++ times n urls)%list <> [])
        by (destruct l; [congruence|discriminate]).
      destruct (gather_own_list _ _ _ Hl IHp IHu) as [_ [H1 H2]].
      rewrite H1, H2, app_assoc. auto. }
  destruct Hinv as [Hp' Hu'].
  assert (Hl : (l ++ times n urls)%list <> [])
    by (destruct l; [congruence|discriminate]).
  destruct (gather_own_list _ _ _ Hl Hp' Hu') as [H _].
  rewrite H. cbn [times]. rewrite app_assoc. reflexivity.
Qed.

End ItemPaths.

Lemma semicolon_paths_round_trip_witness :
  Item.paths_of_raw (fun _ => "")
    (VStr (ProcessText.join ";" ["img/a,1.png"; "img/b.png"]))
  = map VStr ["img/a,1.png"; "img/b.png"].
Proof.
  apply (semicolon_paths_round_trip (fun _ => "") "img/a,1.png" "img/b.png" []).
  repeat (apply List.Forall_cons;
          [repeat split; try discriminate; reflexivity|]).
  apply List.Forall_nil.
Defined.

Lemma image_urls_pile_up_witness :
  snd (Item.gather (fun _ => "")
         (after_calls (fun _ => "") 1
            [("image_path", VList [VStr "a.png"]);
             ("image_urls", VList [VStr "https://host/u.png"])]))
  = ([VStr "a.png"] ++ times 2 [VStr "https://host/u.png"])%list.
Proof.
  apply (image_urls_pile_up (fun _ => "")
           [("image_path", VList [VStr "a.png"]);
            ("image_urls", VList [VStr "https://host/u.png"])]
           [VStr "a.png"] [VStr "https://host/u.png"] 1);
    [discriminate|reflexivity|reflexivity].
Defined.

(** ** The rounds of an item *)

Section RoundOrder.

Import Item.

Lemma insert_perm (x : nat * string) (l : list (nat * string)) :
  Permutation (insert_by_key x l) (x :: l).
Proof.
  induction l as [|y l IH]; simpl; [reflexivity|].
  destruct (fst x <=? fst y)%nat; [reflexivity|].
  rewrite IH. apply perm_swap.
Qed.

Lemma sorted_perm (l : list (nat * string)) : Permutation (sorted_by_key l) l.
Proof.
  induction l as [|x l IH]; simpl; [reflexivity|].
  rewrite insert_perm, IH. reflexivity.
Qed.

Lemma insert_sorted (x : nat * string) (l : list (nat * string)) :
  Sorted.StronglySorted by_number l ->
  Sorted.StronglySorted by_number (insert_by_key x l).
Proof.
  induction 1 as [|y l Hs IH Hy]; simpl.
  - constructor; constructor.
  - destruct (fst x <=? fst y)%nat eqn:Hle.
    + apply Nat.leb_le in Hle. constructor.
      * constructor; assumption.
      * constructor; [exact Hle|].
        eapply List.Forall_impl; [|exact Hy].
        intros z Hz. unfold by_number in *. lia.
    + apply Nat.leb_gt in Hle. constructor; [exact IH|].
      rewrite insert_perm.
      constructor; [unfold by_number; lia|exact Hy].
Qed.

Lemma sorted_sorted (l : list (nat * string)) :
  Sorted.StronglySorted by_number (sorted_by_key l).
Proof.
  induction l as [|x l IH]; simpl; [constructor|].
  apply insert_sorted. exact IH.
Qed.

Lemma sorted_lookup (l : list (nat * string)) (i j : nat) (a b : nat * string) :
  Sorted.StronglySorted by_number l ->
  (i < j)%nat -> l !! i = Some a -> l !! j = Some b -> by_number a b.
Proof.
  intros Hs. revert i j. induction Hs as [|y l Hs IH Hy]; intros i j Hij Ha Hb.
  - discriminate.
  - destruct j as [|j]; [lia|]. destruct i as [|i].
    + injection Ha as <-. simpl in Hb.
      rewrite List.Forall_forall in Hy. apply Hy.
      apply (list_elem_of_lookup_2 _ _ _) in Hb.
      apply list_elem_of_In. exact Hb.
    + simpl in Ha, Hb. apply (IH i j); [lia|assumption|assumption].
Qed.

Lemma with_numbers_passed (keys : list string) (l : list (nat * string)) :
  with_numbers keys = Passed l -> map snd l = keys /\ numbered l.
Proof.
  revert l. induction keys as [|k keys IH]; simpl; intros l.
  - intros [= <-]. split; [reflexivity|constructor].
  - destruct (round_number k) as [n|] eqn:Hn; [|discriminate].
    destruct (with_numbers keys) as [l'|e]; [|discriminate].
    intros [= <-]. destruct (IH l' eq_refl) as [Hk Hl].
    split; [simpl; rewrite Hk; reflexivity|].
    constructor; [exact Hn|exact Hl].
Qed.

Lemma with_numbers_failed (keys : list string) (k : string) :
  In k keys -> round_number k = None ->
  exists text, with_numbers keys = Failed (InvalidLiteral text).
Proof.
  induction keys as [|k' keys IH]; simpl; [tauto|].
  intros [->|Hin] Hk.
  - rewrite Hk. eauto.
  - destruct (round_number k'); [|eauto].
    destruct (IH Hin Hk) as [text ->]. eauto.
Qed.

Lemma sorted_round_keys_passed (question : value) (keys : list string) :
  sorted_round_keys question = Passed keys ->
  exists q l, question = VDict q
    /\ keys = map snd (sorted_by_key l)
    /\ map snd l = round_keys_in q /\ numbered l.
Proof.
  unfold sorted_round_keys. destruct question; try discriminate.
  destruct (with_numbers (round_keys_in d)) as [l|e] eqn:Hl; [|discriminate].
  intros [= <-]. apply with_numbers_passed in Hl as [H1 H2].
  exists d, l. auto.
Qed.

Lemma sorted_keys_are_round_keys (question : value) (keys : list string) (k : string) :
  sorted_round_keys question = Passed keys -> In k keys ->
  is_round_key k = true.
Proof.
  intros Hs Hin.
  destruct (sorted_round_keys_passed _ _ Hs) as (q & l & -> & -> & Hm & _).
  assert (Hp : Permutation (map snd (sorted_by_key l)) (round_keys_in q)).
  { rewrite <- Hm. apply Permutation_map, sorted_perm. }
  apply (Permutation_in _ Hp) in Hin.
  unfold round_keys_in in Hin. apply filter_In in Hin as [_ Hin]. exact Hin.
Qed.

(** Digits hold no [r]: nothing is removed from them. *)
Lemma remove_round_digits (s : string) :
  all_digits s = true -> remove_from "round" s 0 = s.
Proof.
  induction s as [|c s IH]; [reflexivity|].
  cbn [all_digits remove_from]. intros H.
  apply andb_true_iff in H as [Hc Hs].
  assert (Hr : startswith "round" (String c s) = false).
  { unfold startswith. cbn [String.prefix].
    destruct (Ascii.ascii_dec "r" c) as [<-|]; [discriminate Hc|reflexivity]. }
  rewrite Hr, (IH Hs). reflexivity.
Qed.

Lemma remove_round_named (text : string) :
  all_digits text = true -> remove_round ("round" ++ text) = text.
Proof.
  intros H. unfold remove_round, remove_all.
  pose proof (startswith_append "round" text) as Hs.
  cbn [String.append] in Hs |- *. cbn [remove_from]. rewrite Hs.
  cbn [String.length Nat.sub remove_from].
  apply remove_round_digits. exact H.
Qed.

Lemma decimal_digits (d : Decimal.uint) :
  all_digits (DecimalString.NilEmpty.string_of_uint d) = true.
Proof. induction d; simpl; try reflexivity; exact IHd. Qed.

Lemma decimal_nonempty (n : nat) :
  DecimalString.NilEmpty.string_of_uint (Nat.to_uint n) <> "".
Proof.
  intros H.
  pose proof (DecimalString.NilEmpty.usu (Nat.to_uint n)) as Hu.
  rewrite H in Hu. simpl in Hu. injection Hu as Hu.
  pose proof (DecimalNat.Unsigned.of_to n) as Hn.
  rewrite <- Hu in Hn. simpl in Hn. subst n. discriminate Hu.
Qed.

Lemma round_number_named (n : nat) : round_number (round_named n) = Some n.
Proof.
  unfold round_number, round_named.
  rewrite remove_round_named by apply decimal_digits.
  unfold isdigit. rewrite decimal_digits.
  pose proof (decimal_nonempty n) as Hne. apply String.eqb_neq in Hne.
  rewrite Hne. simpl. unfold int.
  rewrite DecimalString.NilEmpty.usu. simpl.
  rewrite DecimalNat.Unsigned.of_to. reflexivity.
Qed.

(** X26. The rounds of a multi-round item are the [round...] keys of its
    question, each once, and they run by their numbers: [round2] comes before
    [round10]. *)
Theorem rounds_run_in_number_order (question : value) (keys : list string) :
  sorted_round_keys question = Passed keys ->
  (exists q, question = VDict q /\ Permutation keys (round_keys_in q))
  /\ forall i j n m,
       keys !! i = Some (round_named n) -> keys !! j = Some (round_named m) ->
       (i < j)%nat -> (n <= m)%nat.
Proof.
  intros Hs.
  destruct (sorted_round_keys_passed _ _ Hs) as (q & l & -> & -> & Hm & Hl).
  split.
  - exists q. split; [reflexivity|].
    rewrite <- Hm. apply Permutation_map, sorted_perm.
  - intros i j n m Hi Hj Hij.
    rewrite list_lookup_fmap in Hi, Hj.
    destruct (sorted_by_key l !! i) as [[n' a]|] eqn:Ha; [|discriminate].
    destruct (sorted_by_key l !! j) as [[m' b]|] eqn:Hb; [|discriminate].
    simpl in Hi, Hj. injection Hi as ->. injection Hj as ->.
    assert (Hnum : numbered (sorted_by_key l)).
    { unfold numbered. rewrite sorted_perm. exact Hl. }
    unfold numbered in Hnum. rewrite List.Forall_forall in Hnum.
    pose proof (Hnum _ (proj1 (list_elem_of_In _ _) (list_elem_of_lookup_2 _ _ _ Ha))) as Hn.
    pose proof (Hnum _ (proj1 (list_elem_of_In _ _) (list_elem_of_lookup_2 _ _ _ Hb))) as Hm'.
    simpl in Hn, Hm'. rewrite round_number_named in Hn, Hm'.
    injection Hn as <-. injection Hm' as <-.
    exact (sorted_lookup _ _ _ _ _ (sorted_sorted l) Hij Ha Hb).
Qed.

Lemma int_superscript (text : string) :
  has_superscript text = true -> int text = None.
Proof.
  unfold int. induction text as [|c text IH]; [discriminate|].
  cbn [has_superscript DecimalString.NilEmpty.uint_of_string]. intros H.
  apply orb_true_iff in H as [Hc|Ht].
  - destruct (DecimalString.NilEmpty.uint_of_string text); [|reflexivity].
    destruct c as [[] [] [] [] [] [] [] []]; try discriminate Hc; reflexivity.
  - specialize (IH Ht).
    destruct (DecimalString.NilEmpty.uint_of_string text); [discriminate IH|].
    reflexivity.
Qed.

(** X27. A question with a round key whose number is written with a
    superscript digit fails the whole item: [isdigit] accepts the text and
    [int] raises [ValueError] on it, whatever the question type and the
    options. *)
Theorem superscript_round_fails_item (normalized_question_type text : string)
  (q : dict) (options : value) :
  In ("round" ++ text) (map fst q) ->
  isdigit text = true -> has_superscript text = true ->
  exists literal,
    sorted_round_keys (VDict q) = Failed (InvalidLiteral literal)
    /\ check_options normalized_question_type true (VDict q) options
       = Failed (InvalidLiteral literal).
Proof.
  intros Hin Hd Hs.
  assert (Hk : round_number ("round" ++ text) = None).
  { unfold round_number. unfold isdigit in Hd.
    apply andb_true_iff in Hd as [Hne Hall].
    rewrite (remove_round_named _ Hall). unfold isdigit. rewrite Hne, Hall.
    simpl. apply int_superscript. exact Hs. }
  assert (Hr : In ("round" ++ text) (round_keys_in q)).
  { apply filter_In. split; [exact Hin|apply (startswith_append "round" text)]. }
  destruct (with_numbers_failed _ _ Hr Hk) as [literal Hf].
  exists literal. unfold check_options, sorted_round_keys. rewrite Hf. auto.
Qed.

End RoundOrder.

Lemma rounds_run_in_number_order_witness :
  (exists q,
      VDict [("round10", VStr "c"); ("round2", VStr "b"); ("round1", VStr "a")]
      = VDict q
      /\ Permutation ["round1"; "round2"; "round10"] (Item.round_keys_in q))
  /\ forall i j n m,
       ["round1"; "round2"; "round10"] !! i = Some (round_named n) ->
       ["round1"; "round2"; "round10"] !! j = Some (round_named m) ->
       (i < j)%nat -> (n <= m)%nat.
Proof.
  apply (rounds_run_in_number_order
           (VDict [("round10", VStr "c"); ("round2", VStr "b");
                   ("round1", VStr "a")])
           ["round1"; "round2"; "round10"]).
  reflexivity.
Defined.

Lemma superscript_round_fails_item_witness :
  exists literal,
    Item.sorted_round_keys
      (VDict [("round1", VStr "a"); ("round" ++ String "178" "", VStr "b")])
    = Item.Failed (Item.InvalidLiteral literal)
    /\ Item.check_options "" true
         (VDict [("round1", VStr "a"); ("round" ++ String "178" "", VStr "b")])
         VNone
       = Item.Failed (Item.InvalidLiteral literal).
Proof.
  apply (superscript_round_fails_item "" (String "178" "")
           [("round1", VStr "a"); ("round" ++ String "178" "", VStr "b")] VNone);
    [right; left; reflexivity|reflexivity|reflexivity].
Defined.

(** ** The options of a choice item *)

Section OptionsCheck.

Import Item.

Lemma check_rounds_passed (d : dict) (keys : list string) (rk : string) :
  check_rounds d keys = Passed tt -> In rk keys ->
  has_valid_options (dict_get d rk) = true.
Proof.
  induction keys as [|k keys IH]; simpl; [tauto|].
  destruct (has_valid_options (dict_get d k)) eqn:Hk; simpl; [|discriminate].
  intros Hc [<-|Hin]; [exact Hk|exact (IH Hc Hin)].
Qed.

Lemma no_round_key_get (d : dict) (rk : string) :
  existsb is_round_key (map fst d) = false -> is_round_key rk = true ->
  dict_get d rk = None.
Proof.
  induction d as [|[k v] d IH]; simpl; [reflexivity|].
  intros H Hrk. apply orb_false_iff in H as [Hk Hd].
  destruct (String.eqb_spec rk k) as [->|_]; [congruence|].
  exact (IH Hd Hrk).
Qed.

Lemma has_round_options_valid (o : option value) :
  has_round_options o = has_valid_options o.
Proof. destruct o as [[]|]; reflexivity. Qed.

(** X28. A multi-round single-choice item that passes the options check
    comes in one of two shapes. When some key of [options] starts with
    [round], every round finds options of its own that count as options for
    the extraction. When none does, the shared options are valid, and no
    round receives them: each round looks its own key up and gets [None]. *)
Theorem validated_rounds_and_their_options (question : value) (d : dict)
  (keys : list string) (rk : string) :
  check_options multi_round_choice true question (VDict d) = Passed tt ->
  sorted_round_keys question = Passed keys -> In rk keys ->
  (existsb is_round_key (map fst d) = true
   /\ has_round_options (round_options_of (VDict d) rk) = true)
  \/ (existsb is_round_key (map fst d) = false
      /\ has_valid_options (Some (VDict d)) = true
      /\ round_options_of (VDict d) rk = None).
Proof.
  intros Hc Hs Hin. unfold check_options in Hc.
  rewrite Hs, String.eqb_refl in Hc.
  destruct (negb (truthy (VDict d))); [discriminate|].
  destruct (existsb is_round_key (map fst d)) eqn:Hr.
  - left. split; [reflexivity|].
    rewrite has_round_options_valid. exact (check_rounds_passed _ _ _ Hc Hin).
  - right. split; [reflexivity|].
    destruct (has_valid_options (Some (VDict d))); [|discriminate].
    split; [reflexivity|].
    apply no_round_key_get; [exact Hr|].
    exact (sorted_keys_are_round_keys _ _ _ Hs Hin).
Qed.

End OptionsCheck.

Lemma validated_rounds_and_their_options_witness :
  (existsb Item.is_round_key (map fst [("A", VStr "up"); ("B", VStr "down")])
   = true
   /\ has_round_options
        (Item.round_options_of (VDict [("A", VStr "up"); ("B", VStr "down")])
           "round2") = true)
  \/ (existsb Item.is_round_key (map fst [("A", VStr "up"); ("B", VStr "down")])
      = false
      /\ Item.has_valid_options
           (Some (VDict [("A", VStr "up"); ("B", VStr "down")])) = true
      /\ Item.round_options_of (VDict [("A", VStr "up"); ("B", VStr "down")])
           "round2" = None).
Proof.
  apply (validated_rounds_and_their_options
           (VDict [("round1", VStr "first"); ("round2", VStr "second")])
           [("A", VStr "up"); ("B", VStr "down")]
           ["round1"; "round2"] "round2");
    [reflexivity|reflexivity|right; left; reflexivity].
Defined.

(** ** The conversation in the detailed log *)

Section LogFacts.

Import Logger.

Variable image_paths : list string.

Lemma placeholder_no_base64 (image_url : string) :
  is_base64_image (placeholder image_url) = false.
Proof.
  unfold is_base64_image, placeholder, startswith.
  cbn [String.append]. rewrite prefix_cons. reflexivity.
Qed.

Lemma sanitize_content_clean (content : list part) (i : nat) :
  no_base64 image_paths ->
  no_base64 (part_paths (fst (sanitize_content image_paths content i))).
Proof.
  intros Hp. revert i. induction content as [|p content IH]; intros i.
  - constructor.
  - destruct p as [text|image_url]; cbn [sanitize_content].
    + specialize (IH i).
      destruct (sanitize_content image_paths content i) as [l i']. exact IH.
    + destruct (is_base64_image image_url) eqn:Hb.
      * destruct (nth_error image_paths i) as [image_path|] eqn:Hn.
        -- specialize (IH (S i)).
           destruct (sanitize_content image_paths content (S i)) as [l i'].
           constructor; [|exact IH].
           unfold no_base64 in Hp. rewrite List.Forall_forall in Hp.
           apply Hp. eapply nth_error_In. exact Hn.
        -- specialize (IH i).
           destruct (sanitize_content image_paths content i) as [l i'].
           constructor; [apply placeholder_no_base64|exact IH].
      * specialize (IH i).
        destruct (sanitize_content image_paths content i) as [l i'].
        constructor; [exact Hb|exact IH].
Qed.

Lemma sanitize_from_clean (messages : list message) (i : nat) :
  no_base64 image_paths ->
  no_base64 (logged_paths (sanitize_from image_paths messages i)).
Proof.
  intros Hp. revert i. induction messages as [|msg messages IH]; intros i.
  - constructor.
  - cbn [sanitize_from]. destruct (msg_content msg) as [content|s].
    + pose proof (sanitize_content_clean content i Hp) as Hc.
      destruct (sanitize_content image_paths content i) as [l i'].
      unfold logged_paths. cbn [flat_map log_content_of].
      apply Forall_app. split; [exact Hc|apply IH].
    + apply IH.
Qed.

Lemma sanitize_content_labels (content : list part) (i : nat) :
  List.Forall (fun u => is_base64_image u = true) (part_images content) ->
  (i + length (part_images content) <= length image_paths)%nat ->
  part_paths (fst (sanitize_content image_paths content i))
  = firstn (length (part_images content)) (skipn i image_paths)
  /\ snd (sanitize_content image_paths content i)
     = (i + length (part_images content))%nat.
Proof.
  revert i. induction content as [|p content IH]; intros i Hall Hlen.
  - simpl. split; [reflexivity|lia].
  - destruct p as [text|image_url]; cbn [sanitize_content].
    + specialize (IH i Hall Hlen).
      destruct (sanitize_content image_paths content i) as [l i']. exact IH.
    + cbn [part_images flat_map app] in Hall, Hlen |- *.
      change (flat_map _ content) with (part_images content) in Hall, Hlen |- *.
      apply List.Forall_cons_iff in Hall as [Hb Hall]. rewrite Hb.
      cbn [length] in Hlen |- *.
      destruct (nth_error image_paths i) as [image_path|] eqn:Hn.
      * destruct (IH (S i) Hall ltac:(lia)) as [H1 H2].
        destruct (sanitize_content image_paths content (S i)) as [l i'].
        cbn [fst snd] in H1, H2 |- *. split; [|lia].
        cbn [part_paths flat_map app].
        change (flat_map _ l) with (part_paths l). rewrite H1.
        clear - Hn. revert i Hn.
        induction image_paths as [|x xs IHp]; intros [|i] Hn;
          try discriminate Hn.
        -- injection Hn as ->. reflexivity.
        -- apply (IHp i Hn).
      * apply nth_error_None in Hn. lia.
Qed.

End LogFacts.

Section LogLabels.

Import Logger.

(** X29. The detailed log holds no encoded image: provided that no given
    path is itself written as [data:image/...], no [image_path] entry of the
    logged conversation starts with [data:image/]. *)
Theorem log_holds_no_encoded_image (messages : list message)
  (image_paths : option (list string)) :
  no_base64 (default [] image_paths) ->
  no_base64 (logged_paths (sanitize_messages_for_log messages image_paths)).
Proof.
  intros Hp. unfold sanitize_messages_for_log.
  apply sanitize_from_clean. exact Hp.
Qed.

Lemma sanitize_from_labels (image_paths : list string)
  (messages : list message) (i : nat) :
  List.Forall (fun u => is_base64_image u = true) (images messages) ->
  (i + length (images messages) <= length image_paths)%nat ->
  logged_paths (sanitize_from image_paths messages i)
  = firstn (length (images messages)) (skipn i image_paths).
Proof.
  revert i. induction messages as [|msg messages IH]; intros i Hall Hlen.
  - reflexivity.
  - cbn [sanitize_from]. unfold images in Hall, Hlen |- *.
    cbn [flat_map] in Hall, Hlen |- *.
    change (flat_map _ messages) with (images messages) in Hall, Hlen |- *.
    destruct (msg_content msg) as [content|s].
    + apply Forall_app in Hall as [Hc Hall].
      rewrite length_app in Hlen |- *.
      destruct (sanitize_content_labels image_paths content i Hc ltac:(lia))
        as [H1 H2].
      destruct (sanitize_content image_paths content i) as [l i'].
      cbn [fst snd] in H1, H2. subst i'.
      unfold logged_paths. cbn [flat_map log_content_of].
      change (flat_map _ (sanitize_from image_paths messages
                (i + length (part_images content))))
        with (logged_paths (sanitize_from image_paths messages
                (i + length (part_images content)))).
      rewrite H1, IH by (assumption || lia).
      rewrite <- (firstn_skipn (length (part_images content))
                    (firstn (length (part_images content) + length (images messages))
                            (skipn i image_paths))).
      rewrite firstn_firstn, skipn_firstn_comm.
      replace (Init.Nat.min (length (part_images content))
                 (length (part_images content) + length (images messages)))
        with (length (part_images content)) by lia.
      replace (length (part_images content) + length (images messages)
               - length (part_images content))%nat
        with (length (images messages)) by lia.
      rewrite skipn_skipn.
      replace (length (part_images content) + i)%nat
        with (i + length (part_images content))%nat by lia.
      reflexivity.
    + simpl in Hlen |- *. apply IH; assumption.
Qed.

(** X30. When every image of the conversation is an encoded local file and
    there are at least as many paths as images, the log names the paths in
    their order, one for each image. *)
Theorem log_names_the_paths_in_order (messages : list message)
  (image_paths : list string) :
  List.Forall (fun u => is_base64_image u = true) (images messages) ->
  (length (images messages) <= length image_paths)%nat ->
  logged_paths (sanitize_messages_for_log messages (Some image_paths))
  = firstn (length (images messages)) image_paths.
Proof.
  intros Hall Hlen. unfold sanitize_messages_for_log.
  apply (sanitize_from_labels image_paths messages 0 Hall). simpl. exact Hlen.
Qed.

End LogLabels.

Lemma log_holds_no_encoded_image_witness :
  no_base64
    (logged_paths
       (Logger.sanitize_messages_for_log
          [{| msg_role := User;
              msg_content :=
                Parts [Text "What does the chart show?";
                       ImageUrl "data:image/png;base64,AAAA"] |}]
          None)).
Proof.
  apply (log_holds_no_encoded_image
           [{| msg_role := User;
               msg_content :=
                 Parts [Text "What does the chart show?";
                        ImageUrl "data:image/png;base64,AAAA"] |}]
           None).
  apply List.Forall_nil.
Defined.

Lemma log_names_the_paths_in_order_witness :
  logged_paths
    (Logger.sanitize_messages_for_log
       [{| msg_role := User;
           msg_content :=
             Parts [Text "What does the chart show?";
                    ImageUrl "data:image/png;base64,AAAA"] |}]
       (Some ["chart.png"; "table.png"]))
  = firstn
      (length
         (images
            [{| msg_role := User;
                msg_content :=
                  Parts [Text "What does the chart show?";
                         ImageUrl "data:image/png;base64,AAAA"] |}]))
      ["chart.png"; "table.png"].
Proof.
  apply (log_names_the_paths_in_order
           [{| msg_role := User;
               msg_content :=
                 Parts [Text "What does the chart show?";
                        ImageUrl "data:image/png;base64,AAAA"] |}]
           ["chart.png"; "table.png"]).
  - repeat constructor.
  - simpl. lia.
Defined.
